(** * tomviz: the OME-TIFF reader and the DataSource state, embedded in Rocq

    Shallow embedding of
      - src/tomviz/vtkOMETiffReader.cxx  (row mapping, scanline and tile decode,
        EvaluateImageAt), and
      - src/tomviz/DataSource.cxx        (field data, rename map, time series,
        appendSlice, serialize / deserialize).

    C++ [int] and [unsigned int] are modelled as [Z] with the wrap-around
    written out; raw memory behind a pointer is a function from byte offsets
    to byte values; Qt and VTK containers are stdpp maps and lists. *)

From Stdlib Require Import ZArith Lia Bool List String Ascii.
From stdpp Require Import base tactics option list gmap strings fin_maps pretty.

Local Open Scope Z_scope.

(* ===================================================================== *)
(** ** Machine integers *)
(* ===================================================================== *)

Definition u32 (x : Z) : Z := x mod 2 ^ 32.
Definition u16 (x : Z) : Z := x mod 2 ^ 16.
Definition u8 (x : Z) : Z := x mod 2 ^ 8.

(** Conversion to a signed two's complement integer of [w] bits. *)
Definition wrap_signed (w : Z) (x : Z) : Z :=
  (x + 2 ^ (w - 1)) mod 2 ^ w - 2 ^ (w - 1).

Definition wrap_int (x : Z) : Z := wrap_signed 32 x.

Definition INT_MAX : Z := 2 ^ 31 - 1.

(* ===================================================================== *)
(** ** Raw memory *)
(* ===================================================================== *)

(** The bytes behind a pointer: offset (in bytes) to value in [0, 256). *)
Definition buf : Type := Z -> Z.

Definition memcpy (dst : buf) (doff : Z) (src : buf) (soff : Z) (n : Z) : buf :=
  fun a => if (doff <=? a) && (a <? doff + n) then src (soff + (a - doff)) else dst a.

Definition bytes_of (b : buf) (off n : Z) : list Z :=
  map (fun k => b (off + Z.of_nat k)) (seq 0 (Z.to_nat n)).

(* ===================================================================== *)
(** ** vtkOMETiffReader.cxx: the row mapping (lines 29-49) *)
(* ===================================================================== *)

Module Tiff.

Inductive Flip : Type := FlipTrue | FlipFalse.

(** [int GetFileRow(int row, int height, FlipTrue / FlipFalse)]. *)
Definition GetFileRow (row height : Z) (flip : Flip) : Z :=
  match flip with
  | FlipTrue => wrap_int (wrap_int (height - row) - 1)
  | FlipFalse => row
  end.

(** [template <class Flip> int GetImageRow(int file_row, int height, Flip)]. *)
Definition GetImageRow (file_row height : Z) (flip : Flip) : Z :=
  GetFileRow file_row height flip.


(** *** libtiff, as far as the reader calls it *)

Definition ORIENTATION_TOPLEFT : Z := 1.
Definition ORIENTATION_BOTLEFT : Z := 4.
Definition PHOTOMETRIC_MINISWHITE : Z := 0.
Definition PHOTOMETRIC_MINISBLACK : Z := 1.
Definition PHOTOMETRIC_RGB : Z := 2.
Definition PHOTOMETRIC_PALETTE : Z := 3.
Definition PHOTOMETRIC_YCBCR : Z := 6.
Definition PLANARCONFIG_CONTIG : Z := 1.
Definition PLANARCONFIG_SEPARATE : Z := 2.
Definition COMPRESSION_NONE : Z := 1.

(** A colour map: three tables of 16-bit entries, indexed by pixel value. *)
Record ColorMap : Type := {
  cm_red : Z -> Z;
  cm_green : Z -> Z;
  cm_blue : Z -> Z
}.

(** One TIFF directory.  [Raster row k] is byte [k] of the (decompressed,
    contiguous) image row [row], rows counted as they are stored in the file. *)
Record TIFF : Type := {
  ImageWidth : Z;
  ImageLength : Z;
  Directories : Z;
  IsTiled : bool;
  TileWidthTag : Z;
  TileLengthTag : Z;
  SamplesPerPixelTag : Z;
  BitsPerSampleTag : Z;
  PhotometricTag : option Z;
  OrientationTag : option Z;
  PlanarConfigTag : Z;
  CompressionTag : Z;
  RowsPerStripTag : Z;
  ColorMapTag : option ColorMap;
  Raster : Z -> Z -> Z
}.

Definition TIFFScanlineSize (tif : TIFF) : Z :=
  (ImageWidth tif * SamplesPerPixelTag tif * BitsPerSampleTag tif + 7) / 8.

Definition TIFFTileRowSize (tif : TIFF) : Z :=
  (TileWidthTag tif * SamplesPerPixelTag tif * BitsPerSampleTag tif + 7) / 8.

Definition TIFFTileSize (tif : TIFF) : Z :=
  TileLengthTag tif * TIFFTileRowSize tif.

Definition ceil_div (a b : Z) : Z := (a + b - 1) / b.

Definition TIFFNumberOfTiles (tif : TIFF) : Z :=
  ceil_div (ImageWidth tif) (TileWidthTag tif) *
  ceil_div (ImageLength tif) (TileLengthTag tif).

(** [TIFFReadScanline(tif, buf, row, sample)]: the bytes of one row, or
    failure ([<= 0]) for a tiled image or a row outside the image.  Rows are
    served in whatever order they are asked for, as libtiff does for a file
    that [SupportsRandomAccess] accepts and for rows asked in increasing
    order from row 0; samples are taken to be stored pixel by pixel. *)
Definition TIFFReadScanline (tif : TIFF) (row sample : Z) : option buf :=
  if IsTiled tif then None
  else if (0 <=? row) && (row <? ImageLength tif)
       then Some (fun k => Raster tif row k)
       else None.

(** [TIFFReadTile(tif, buf, x, y, z, sample)]: the tile that holds pixel
    (x, y); libtiff rejects coordinates outside the image (TIFFCheckTile).
    Bytes of a boundary tile that lie outside the image are padding.  The
    tile is that of a file whose samples are stored pixel by pixel (one
    sample per pixel, or PLANARCONFIG_CONTIG); tiles of separate sample
    planes are not modelled. *)
Definition TIFFReadTile (tif : TIFF) (x y z sample : Z) : option buf :=
  if negb (IsTiled tif) then None
  else if (0 <=? x) && (x <? ImageWidth tif) && (0 <=? y) && (y <? ImageLength tif)
          && (z =? 0)
  then
    let rowsize := TIFFTileRowSize tif in
    let row0 := (y / TileLengthTag tif) * TileLengthTag tif in
    let col0 := (x / TileWidthTag tif) * rowsize in
    Some (fun k =>
            let yy := k / rowsize in
            let xb := k mod rowsize in
            if (row0 + yy <? ImageLength tif) && (col0 + xb <? TIFFScanlineSize tif)
            then Raster tif (row0 + yy) (col0 + xb)
            else 0)
  else None.

(** *** vtkOMETiffReaderInternal (lines 141-185) and Initialize (280-445) *)

Record Internal : Type := {
  Image : TIFF;
  Width : Z;
  Height : Z;
  NumberOfPages : Z;
  SamplesPerPixel : Z;
  BitsPerSample : Z;
  Photometrics : Z;
  HasValidPhotometricInterpretation : bool;
  PlanarConfig : Z;
  Orientation : Z;
  TileWidth : Z;
  TileHeight : Z;
  NumberOfTiles : Z
}.

(** The fields the decode paths read, as [Initialize] fills them from the
    tags.  The OME-XML description is not modelled; a file is taken to carry
    a well-formed one. *)
Definition Initialize (tif : TIFF) : Internal :=
  let pages := Directories tif in
  let tiled := (pages <=? 1) && IsTiled tif in
  let spp := SamplesPerPixelTag tif in
  {| Image := tif;
     Width := ImageWidth tif;
     Height := ImageLength tif;
     NumberOfPages := pages;
     SamplesPerPixel := spp;
     BitsPerSample := BitsPerSampleTag tif;
     Photometrics := default 0 (PhotometricTag tif);
     HasValidPhotometricInterpretation :=
       match PhotometricTag tif with Some _ => true | None => false end;
     PlanarConfig := if spp =? 1 then PLANARCONFIG_CONTIG else PlanarConfigTag tif;
     Orientation := default ORIENTATION_BOTLEFT (OrientationTag tif);
     TileWidth := if tiled then TileWidthTag tif else 0;
     TileHeight := if tiled then TileLengthTag tif else 0;
     NumberOfTiles := if tiled then u16 (TIFFNumberOfTiles tif) else 0 |}.

(** *** Loops with an early [return] *)

Inductive outcome (A : Type) : Type :=
| Done (a : A)        (* ran to the end *)
| Failed (a : A)      (* an error was reported and the function left early *)
| OutOfFuel.
Arguments Done {A} a.
Arguments Failed {A} a.
Arguments OutOfFuel {A}.

Definition obind {A B : Type} (o : outcome A) (k : A -> outcome B) (e : A -> B)
  : outcome B :=
  match o with
  | Done a => k a
  | Failed a => Failed (e a)
  | OutOfFuel => OutOfFuel
  end.

(** [for (i = i0; cond i; i = next i) body]. *)
Fixpoint for_loop {A : Type} (fuel : nat) (cond : Z -> bool) (next : Z -> Z)
    (body : Z -> A -> outcome A) (i : Z) (a : A) : outcome A :=
  match fuel with
  | O => OutOfFuel
  | S fuel' =>
      if cond i then
        match body i a with
        | Done a' => for_loop fuel' cond next body (next i) a'
        | Failed a' => Failed a'
        | OutOfFuel => OutOfFuel
        end
      else Done a
  end.

(** *** ReadTiles (lines 925-1054) *)

(** The [yy] loop of one tile: [rows] tile rows, [n] bytes of each, copied
    to the image rows [r0 + y yy] of slice [slice]. *)
Definition copy_tile_rows (fuel : nat) (I : Internal) (tile : buf)
    (slice r0 col rows n : Z) (y : Z -> Z) (volume : buf) : outcome buf :=
  let width := Width I in
  let height := Height I in
  let tileWidth := TileWidth I in
  let tileHeight := TileHeight I in
  let pixelSize := SamplesPerPixel I in
  let zz := 0 in
  for_loop fuel (fun yy => yy <? rows) (fun yy => u32 (yy + 1))
    (fun yy volume =>
       Done (memcpy volume
               (u32 ((((slice + zz) * height + r0 + y yy) * width + col) * pixelSize))
               tile
               (u32 ((zz * tileHeight + yy) * tileWidth * pixelSize))
               (u32 (n * pixelSize))))
    0 volume.

(** The four parts of [ReadTiles], in the order of the source: the full
    tiles of every slice (lines 941-971), then, for the boundaries, the
    right-edge column (973-999), the bottom-edge row (1000-1025) and the
    corner tile (1026-1052). *)
Definition full_tiles (fuel : nat) (I : Internal) (buffer : buf) : outcome buf :=
  let width := Width I in
  let height := Height I in
  let tileWidth := TileWidth I in
  let tileHeight := TileHeight I in
  let rowMultiple := height mod tileHeight =? 0 in
  let colMultiple := width mod tileWidth =? 0 in
  let flip := negb (Orientation I =? ORIENTATION_TOPLEFT) in
  let rowBound := if rowMultiple then height else u32 (height - tileHeight) in
  let colBound := if colMultiple then width else u32 (width - tileWidth) in
  for_loop fuel (fun slice => slice <? NumberOfPages I) (fun slice => u32 (slice + 1))
    (fun slice volume =>
       for_loop fuel (fun row => row <? rowBound) (fun row => u32 (row + tileHeight))
         (fun row volume =>
            let r := if flip then u32 (height - row - tileHeight) else row in
            for_loop fuel (fun col => col <? colBound) (fun col => u32 (col + tileWidth))
              (fun col volume =>
                 match TIFFReadTile (Image I) col r slice 0 with
                 | None => Failed volume
                 | Some tile =>
                     copy_tile_rows fuel I tile slice row col tileHeight tileWidth
                       (fun yy => if flip
                                  then u32 (tileHeight + height mod tileHeight - yy - 1)
                                  else yy)
                       volume
                 end)
              0 volume)
         0 volume)
    0 buffer.

Definition right_edge (fuel : nat) (I : Internal) (volume : buf) : outcome buf :=
  let width := Width I in
  let height := Height I in
  let tileWidth := TileWidth I in
  let tileHeight := TileHeight I in
  let rowMultiple := height mod tileHeight =? 0 in
  let colMultiple := width mod tileWidth =? 0 in
  let flip := negb (Orientation I =? ORIENTATION_TOPLEFT) in
  let rowBound := if rowMultiple then height else u32 (height - tileHeight) in
  if negb colMultiple then
    let lenx := width mod tileWidth in
    let col := u32 (width - lenx) in
    let tilexWidth := lenx in
    for_loop fuel (fun row => row <? rowBound) (fun row => u32 (row + tileHeight))
      (fun row volume =>
         let r := if flip then u32 (height - row - tileHeight - 1) else row in
         match TIFFReadTile (Image I) col r 0 0 with
         | None => Failed volume
         | Some tile =>
             copy_tile_rows fuel I tile 0 row col tileHeight tilexWidth
               (fun yy => if flip
                          then u32 (tileHeight + height mod tileHeight - yy - 1)
                          else yy)
               volume
         end)
      0 volume
  else Done volume.

Definition bottom_edge (fuel : nat) (I : Internal) (volume : buf) : outcome buf :=
  let width := Width I in
  let height := Height I in
  let tileWidth := TileWidth I in
  let tileHeight := TileHeight I in
  let rowMultiple := height mod tileHeight =? 0 in
  let colMultiple := width mod tileWidth =? 0 in
  let flip := negb (Orientation I =? ORIENTATION_TOPLEFT) in
  let colBound := if colMultiple then width else u32 (width - tileWidth) in
  if negb rowMultiple then
    let leny := height mod tileHeight in
    let row := u32 (height - leny) in
    let r := if flip then 0 else row in
    for_loop fuel (fun col => col <? colBound) (fun col => u32 (col + tileWidth))
      (fun col volume =>
         match TIFFReadTile (Image I) col row 0 0 with
         | None => Failed volume
         | Some tile =>
             copy_tile_rows fuel I tile 0 r col leny tileWidth
               (fun yy => if flip then u32 (leny - yy - 1) else yy)
               volume
         end)
      0 volume
  else Done volume.

Definition corner_tile (fuel : nat) (I : Internal) (volume : buf) : outcome buf :=
  let width := Width I in
  let height := Height I in
  let tileWidth := TileWidth I in
  let tileHeight := TileHeight I in
  let rowMultiple := height mod tileHeight =? 0 in
  let colMultiple := width mod tileWidth =? 0 in
  let flip := negb (Orientation I =? ORIENTATION_TOPLEFT) in
  if negb colMultiple && negb rowMultiple then
    let lenx := width mod tileWidth in
    let col := u32 (width - lenx) in
    let leny := height mod tileHeight in
    let row := u32 (height - leny) in
    let tilexWidth := lenx in
    let r := if flip then 0 else row in
    match TIFFReadTile (Image I) col row 0 0 with
    | None => Failed volume
    | Some tile =>
        copy_tile_rows fuel I tile 0 r col leny tilexWidth
          (fun yy => if flip then u32 (leny - yy - 1) else yy)
          volume
    end
  else Done volume.

(** [void vtkOMETiffReader::ReadTiles(void* buffer)]: a tile that cannot be
    read ends the function at once. *)
Definition ReadTiles (fuel : nat) (I : Internal) (buffer : buf) : outcome buf :=
  let id := fun v : buf => v in
  obind (full_tiles fuel I buffer)
    (fun volume =>
       obind (right_edge fuel I volume)
         (fun volume =>
            obind (bottom_edge fuel I volume)
              (fun volume => corner_tile fuel I volume) id) id) id.

(** *** Output scalar types *)

(** The integer scalar types [ExecuteInformation] selects (lines 557-581).
    The instantiation at [float] is not modelled. *)
Inductive ScalarType : Type :=
| VTK_SIGNED_CHAR | VTK_UNSIGNED_CHAR
| VTK_SHORT | VTK_UNSIGNED_SHORT
| VTK_INT | VTK_UNSIGNED_INT.



Definition sizeof (T : ScalarType) : Z :=
  match T with
  | VTK_SIGNED_CHAR | VTK_UNSIGNED_CHAR => 1
  | VTK_SHORT | VTK_UNSIGNED_SHORT => 2
  | VTK_INT | VTK_UNSIGNED_INT => 4
  end.

Definition is_signed (T : ScalarType) : bool :=
  match T with
  | VTK_SIGNED_CHAR | VTK_SHORT | VTK_INT => true
  | _ => false
  end.

(** The value an [int] expression has once it is converted to [T]. *)
Definition convert (T : ScalarType) (v : Z) : Z :=
  if is_signed T then wrap_signed (8 * sizeof T) v else v mod 2 ^ (8 * sizeof T).

(** Little-endian object representation. *)
Fixpoint load_bytes (n : nat) (b : buf) (off : Z) : Z :=
  match n with
  | O => 0
  | S n' => b off + 256 * load_bytes n' b (off + 1)
  end.

Definition load (T : ScalarType) (b : buf) (off : Z) : Z :=
  convert T (load_bytes (Z.to_nat (sizeof T)) b off).

Definition store (T : ScalarType) (b : buf) (off : Z) (v : Z) : buf :=
  fun a => if (off <=? a) && (a <? off + sizeof T)
           then (v / 256 ^ (a - off)) mod 256
           else b a.

(** *** GetColor, GetFormat (lines 704-821) *)

Inductive Format : Type :=
| NOFORMAT | RGB | GRAYSCALE | PALETTE_RGB | PALETTE_GRAYSCALE | OTHER.

Definition Format_eqb (a b : Format) : bool :=
  match a, b with
  | NOFORMAT, NOFORMAT | RGB, RGB | GRAYSCALE, GRAYSCALE
  | PALETTE_RGB, PALETTE_RGB | PALETTE_GRAYSCALE, PALETTE_GRAYSCALE
  | OTHER, OTHER => true
  | _, _ => false
  end.

(** The members of the reader that the const-looking getters rewrite. *)
Record Cache : Type := {
  ImageFormat : Format;
  TotalColors : Z;
  Color : option ColorMap      (* ColorRed, ColorGreen, ColorBlue *)
}.

(** [vtkOMETiffReader::Initialize()] (lines 814-821). *)
Definition InitCache : Cache :=
  {| ImageFormat := NOFORMAT; TotalColors := -1; Color := None |}.

Definition GetColor (I : Internal) (c : Cache) (index : Z) : (Z * Z * Z) * Cache :=
  if index <? 0 then ((0, 0, 0), c)
  else
    match (if 0 <? TotalColors c then Color c else None) with
    | Some cm =>
        if TotalColors c <=? index then ((0, 0, 0), c)
        else ((cm_red cm index, cm_green cm index, cm_blue cm index), c)
    | None =>
        if match PhotometricTag (Image I) with
           | Some _ => false
           | None => negb (Photometrics I =? PHOTOMETRIC_PALETTE)
           end
        then ((0, 0, 0), c)
        else
          let bits := BitsPerSample I in
          if negb ((bits =? 1) || (bits =? 2) || (bits =? 4) || (bits =? 8) || (bits =? 16))
          then ((0, 0, 0), c)
          else
            match ColorMapTag (Image I) with
            | None => ((0, 0, 0), c)
            | Some cm =>
                let total := Z.shiftl 1 bits in
                let c1 := {| ImageFormat := ImageFormat c; TotalColors := total;
                             Color := Color c |} in
                if total <=? index then ((0, 0, 0), c1)
                else ((cm_red cm index, cm_green cm index, cm_blue cm index),
                      {| ImageFormat := ImageFormat c; TotalColors := total;
                         Color := Some cm |})
            end
    end.

Definition set_format (c : Cache) (f : Format) : Cache :=
  {| ImageFormat := f; TotalColors := TotalColors c; Color := Color c |}.

(** The [cc] loop of the palette case: the first, if any, of the 256 colours
    that is not grey decides PALETTE_RGB. *)
Fixpoint palette_scan (I : Internal) (n : nat) (cc : Z) (c : Cache) : Format * Cache :=
  match n with
  | O => (PALETTE_GRAYSCALE, set_format c PALETTE_GRAYSCALE)
  | S n' =>
      let '((red, green, blue), c1) := GetColor I c cc in
      if negb (red =? green) || negb (red =? blue)
      then (PALETTE_RGB, set_format c1 PALETTE_RGB)
      else palette_scan I n' (cc + 1) c1
  end.

Definition GetFormat (I : Internal) (c : Cache) : Format * Cache :=
  if negb (Format_eqb (ImageFormat c) NOFORMAT) then (ImageFormat c, c)
  else
    let p := Photometrics I in
    if (p =? PHOTOMETRIC_RGB) || (p =? PHOTOMETRIC_YCBCR) then (RGB, set_format c RGB)
    else if (p =? PHOTOMETRIC_MINISWHITE) || (p =? PHOTOMETRIC_MINISBLACK)
         then (GRAYSCALE, set_format c GRAYSCALE)
    else if p =? PHOTOMETRIC_PALETTE then palette_scan I 256 0 c
    else (OTHER, set_format c OTHER).

(** *** EvaluateImageAt (lines 1402-1457) *)

(** The reader's own settings. *)
Record Reader : Type := {
  Internals : Internal;
  DataScalarType : ScalarType;
  OutputExtent : list Z;
  OutputIncrements : list Z
}.

Definition OE (R : Reader) (i : nat) : Z := nth i (OutputExtent R) 0.
Definition OI (R : Reader) (i : nat) : Z := nth i (OutputIncrements R) 0.

(** [int EvaluateImageAt(T* out, T* in)]; [out] and [inp] are byte offsets
    into the output memory and into the scanline buffer. *)
Definition EvaluateImageAt (T : ScalarType) (R : Reader) (c : Cache)
    (mem : buf) (out : Z) (src : buf) (inp : Z) : Z * buf * Cache :=
  let I := Internals R in
  let image := out in
  let source := inp in
  let '(format, c) := GetFormat I c in
  match format with
  | GRAYSCALE =>
      if Photometrics I =? PHOTOMETRIC_MINISBLACK
      then (1, store T mem out (load T src inp), c)
      else (1, store VTK_UNSIGNED_CHAR mem image (255 - src source), c)
  | PALETTE_GRAYSCALE =>
      let '((red, green, blue), c) := GetColor I c (src source) in
      (1, store VTK_UNSIGNED_CHAR mem image red, c)
  | RGB =>
      let mem := store VTK_UNSIGNED_CHAR mem image (src source) in
      let mem := store VTK_UNSIGNED_CHAR mem (image + 1) (src (source + 1)) in
      let mem := store VTK_UNSIGNED_CHAR mem (image + 2) (src (source + 2)) in
      let mem := if SamplesPerPixel I =? 4
                 then store VTK_UNSIGNED_CHAR mem (image + 3) (255 - src (source + 3))
                 else mem in
      (SamplesPerPixel I, mem, c)
  | PALETTE_RGB =>
      let '((red, green, blue), c) := GetColor I c (wrap_int (load T src inp)) in
      let mem := store T mem out (Z.shiftl red 8) in
      let mem := store T mem (out + sizeof T) (Z.shiftl green 8) in
      let mem := store T mem (out + 2 * sizeof T) (Z.shiftl blue 8) in
      match DataScalarType R with
      | VTK_SHORT | VTK_UNSIGNED_SHORT =>
          let '((red, green, blue), c) := GetColor I c (wrap_int (load T src inp)) in
          let mem := store T mem out (Z.shiftl red 8) in
          let mem := store T mem (out + sizeof T) (Z.shiftl green 8) in
          let mem := store T mem (out + 2 * sizeof T) (Z.shiftl blue 8) in
          (3, mem, c)
      | _ =>
          let '((red, green, blue), c) := GetColor I c (wrap_int (load T src inp)) in
          let mem := store T mem out (Z.shiftr red 8) in
          let mem := store T mem (out + sizeof T) (Z.shiftr green 8) in
          let mem := store T mem (out + 2 * sizeof T) (Z.shiftr blue 8) in
          (3, mem, c)
      end
  | _ => (0, mem, c)
  end.

(** *** The scanline paths (lines 51-135 and 1211-1326) *)

Definition SupportsRandomAccess (image : TIFF) : bool :=
  (CompressionTag image =? COMPRESSION_NONE) || (RowsPerStripTag image =? 1).

Definition PurgeInitialScanLinesIfNeeded (fuel : nat) (fileStartRow : Z) (image : TIFF)
  : outcome unit :=
  if (fileStartRow =? 0) || SupportsRandomAccess image then Done tt
  else
    for_loop fuel (fun i => i <? fileStartRow) (fun i => wrap_int (i + 1))
      (fun i u =>
         match TIFFReadScanline image i 0 with
         | None => Failed tt
         | Some _ => Done tt
         end)
      0 tt.

(** [ReadTemplatedImage<T, Flip>]: [out] is a byte offset into [mem]. *)
Definition ReadTemplatedImage (fuel : nat) (T : ScalarType) (mem : buf) (out : Z)
    (flip : Flip) (startCol endCol startRow endRow yIncrements height : Z)
    (image : TIFF) : outcome buf :=
  let fileStartRow := GetFileRow startRow (wrap_int height) flip in
  let fileEndRow := GetFileRow endRow (wrap_int height) flip in
  let minFileRow := Z.min fileStartRow fileEndRow in
  let maxFileRow := Z.max fileStartRow fileEndRow in
  match PurgeInitialScanLinesIfNeeded fuel minFileRow image with
  | Done _ =>
      let isize := u32 (TIFFScanlineSize image) in
      let scanLineSize := endCol - startCol + 1 in
      if scanLineSize * sizeof T =? isize then
        (* We can copy straight into the image data output. *)
        for_loop fuel (fun fi => fi <=? maxFileRow) (fun fi => wrap_int (fi + 1))
          (fun fi mem =>
             let i := GetImageRow fi (wrap_int height) flip in
             let tmp := out + (i - startRow) * yIncrements * sizeof T in
             match TIFFReadScanline image fi 0 with
             | None => Failed mem
             | Some line => Done (memcpy mem tmp line 0 isize)
             end)
          minFileRow mem
      else
        (* Copy into a buffer of the appropriate size, then subset. *)
        for_loop fuel (fun fi => fi <=? maxFileRow) (fun fi => wrap_int (fi + 1))
          (fun fi mem =>
             let i := GetImageRow fi (wrap_int height) flip in
             let tmp := out + (i - startRow) * yIncrements * sizeof T in
             match TIFFReadScanline image fi 0 with
             | None => Failed mem
             | Some line =>
                 Done (memcpy mem tmp line (startCol * sizeof T)
                         (sizeof T * scanLineSize))
             end)
          minFileRow mem
  | Failed _ => Failed mem
  | OutOfFuel => OutOfFuel
  end.

(** [ReadGenericImage<T>(out, width, height)].  A reported error leaves the
    function with what was written so far. *)
Definition ReadGenericImage (fuel : nat) (T : ScalarType) (R : Reader) (c : Cache)
    (mem : buf) (out : Z) (height : Z) : outcome (buf * Cache) :=
  let I := Internals R in
  let '(format, c) := GetFormat I c in
  if (PlanarConfig I =? PLANARCONFIG_CONTIG) && (OI R 0 =? 1)
     && Format_eqb format GRAYSCALE
     && (Photometrics I =? PHOTOMETRIC_MINISBLACK) && (SamplesPerPixel I =? 1)
  then
    let flip := if Orientation I =? ORIENTATION_TOPLEFT then FlipFalse else FlipTrue in
    match ReadTemplatedImage fuel T mem out flip (OE R 0) (OE R 1) (OE R 2) (OE R 3)
            (wrap_int (OI R 1)) height (Image I) with
    | Done mem => Done (mem, c)
    | Failed mem => Failed (mem, c)
    | OutOfFuel => OutOfFuel
    end
  else if negb (PlanarConfig I =? PLANARCONFIG_CONTIG) then Failed (mem, c)
  else
    for_loop fuel (fun row => row <=? OE R 3) (fun row => wrap_int (row + 1))
      (fun row '(mem, c) =>
         (* Flip from lower left origin to upper left if necessary. *)
         let fileRow := if Orientation I =? ORIENTATION_TOPLEFT then row
                        else wrap_int (u32 (height - row - 1)) in
         match TIFFReadScanline (Image I) fileRow 0 with
         | None => Failed (mem, c)
         | Some line =>
             let image := out + (row - OE R 2) * OI R 1 * sizeof T in
             let cc := u32 (OE R 0 * SamplesPerPixel I) in
             match
               for_loop fuel (fun ix => ix <=? OE R 1) (fun ix => wrap_int (ix + 1))
                 (fun ix '(image, cc, mem, c) =>
                    let '(_, mem, c) :=
                      EvaluateImageAt T R c mem image line (cc * sizeof T) in
                    Done (image + OI R 0 * sizeof T,
                          u32 (cc + SamplesPerPixel I), mem, c))
                 (OE R 0) (image, cc, mem, c)
             with
             | Done (_, _, mem, c) => Done (mem, c)
             | Failed (_, _, mem, c) => Failed (mem, c)
             | OutOfFuel => OutOfFuel
             end
         end)
      (OE R 2) (mem, c).

End Tiff.

(* ===================================================================== *)
(** ** DataSource.cxx *)
(* ===================================================================== *)

Module DS.

(** A [double] is only stored, copied and compared here: it is kept as its
    IEEE-754 bit pattern, [0.0] being the pattern [0]. *)
Definition double : Type := Z.
Definition dzero : double := 0.
Definition dminus1 : double := 0xBFF0000000000000.

(** [DataSource::DataSourceType], as the [int] it is cast from and to. *)
Definition Volume : Z := 0.
Definition TiltSeries : Z := 1.
Definition FIB : Z := 2.

(** *** The VTK objects a DataSource holds *)

Record vtkDataArray : Type := {
  Name : string;
  ElemSize : Z;                (* sizeof of the value type *)
  NumberOfComponents : Z;
  NumberOfTuples : Z;
  Values : buf
}.

(** The field-data arrays this file reads and writes, by name. *)
Record vtkFieldData : Type := {
  tomviz_data_source_type : option Z;       (* one int8 tuple *)
  tilt_angles : option (list double);
  units : option (list string);
  was_subsampled : option Z;
  subsample_strides : option (list Z);
  subsample_volume_bounds : option (list Z)
}.

Record vtkImageData : Type := {
  Extent : list Z;                          (* x0 x1 y0 y1 z0 z1 *)
  Spacing : list double;
  PointData : list vtkDataArray;
  ActiveScalars : option nat;               (* index of the active array *)
  FieldData : vtkFieldData
}.

Definition ext (d : vtkImageData) (i : nat) : Z := nth i (Extent d) 0.

Definition set_Extent (d : vtkImageData) (e : list Z) : vtkImageData :=
  {| Extent := e; Spacing := Spacing d; PointData := PointData d;
     ActiveScalars := ActiveScalars d; FieldData := FieldData d |}.
Definition set_Spacing (d : vtkImageData) (sp : list double) : vtkImageData :=
  {| Extent := Extent d; Spacing := sp; PointData := PointData d;
     ActiveScalars := ActiveScalars d; FieldData := FieldData d |}.
Definition set_PointData (d : vtkImageData) (pd : list vtkDataArray) : vtkImageData :=
  {| Extent := Extent d; Spacing := Spacing d; PointData := pd;
     ActiveScalars := ActiveScalars d; FieldData := FieldData d |}.
Definition set_ActiveScalars (d : vtkImageData) (a : option nat) : vtkImageData :=
  {| Extent := Extent d; Spacing := Spacing d; PointData := PointData d;
     ActiveScalars := a; FieldData := FieldData d |}.
Definition set_FieldData (d : vtkImageData) (fd : vtkFieldData) : vtkImageData :=
  {| Extent := Extent d; Spacing := Spacing d; PointData := PointData d;
     ActiveScalars := ActiveScalars d; FieldData := fd |}.

Definition set_type_tag (fd : vtkFieldData) (t : option Z) : vtkFieldData :=
  {| tomviz_data_source_type := t; tilt_angles := tilt_angles fd;
     units := units fd; was_subsampled := was_subsampled fd;
     subsample_strides := subsample_strides fd;
     subsample_volume_bounds := subsample_volume_bounds fd |}.
Definition set_tilt_angles (fd : vtkFieldData) (a : option (list double)) : vtkFieldData :=
  {| tomviz_data_source_type := tomviz_data_source_type fd; tilt_angles := a;
     units := units fd; was_subsampled := was_subsampled fd;
     subsample_strides := subsample_strides fd;
     subsample_volume_bounds := subsample_volume_bounds fd |}.

Definition set_units (fd : vtkFieldData) (u : option (list string)) : vtkFieldData :=
  {| tomviz_data_source_type := tomviz_data_source_type fd;
     tilt_angles := tilt_angles fd; units := u; was_subsampled := was_subsampled fd;
     subsample_strides := subsample_strides fd;
     subsample_volume_bounds := subsample_volume_bounds fd |}.

Definition names (d : vtkImageData) : list string := map Name (PointData d).

(** [vtkFieldData::HasArray] and the index behind [GetArray(name)]: the
    first array of that name. *)
Fixpoint find_array (name : string) (l : list vtkDataArray) : option nat :=
  match l with
  | [] => None
  | a :: l' => if String.eqb (Name a) name then Some O
               else option_map S (find_array name l')
  end.

Definition HasArray (d : vtkImageData) (name : string) : bool :=
  match find_array name (PointData d) with Some _ => true | None => false end.

(** [GetPointData()->GetScalars()]: the active array. *)
Definition GetScalars (d : vtkImageData) : option vtkDataArray :=
  match ActiveScalars d with
  | Some i => PointData d !! i
  | None => None
  end.

Definition rename_array (a : vtkDataArray) (n : string) : vtkDataArray :=
  {| Name := n; ElemSize := ElemSize a; NumberOfComponents := NumberOfComponents a;
     NumberOfTuples := NumberOfTuples a; Values := Values a |}.

(** *** The JSON document *)

Inductive QJsonValue : Type :=
| JString (s : string)
| JBool (b : bool)
| JDoubles (l : list double)
| JInts (l : list Z)
| JStrings (l : list string)
| JStringObject (o : list (string * string))   (* keys in iteration order *)
| JReader (fileNames : option (list string)) (rest : string)
| JOpaque (payload : string)                   (* a sub-document kept as it is *)
| JOpaqueArray (l : list string).

Record TimeSeriesStep : Type := { image : vtkImageData }.

(** [DataSource] with its [DSInternals]. *)
Record DataSource : Type := {
  data : option vtkImageData;     (* the producer's output data object *)
  Type_ : Z;
  Units : option (list string);
  UnitsModified : bool;
  DisplayPosition : list double;
  DisplayOrientation : list double;
  CurrentToOriginal : gmap string string;
  timeSeriesSteps : list TimeSeriesStep;
  currentTimeStep : Z;
  Operators : list string;        (* each operator, as what it serializes to *)
  m_json : gmap string QJsonValue;
  m_changingTimeStep : bool;
  m_transferFunction2DBox : list double
}.

Definition set_data (s : DataSource) (d : option vtkImageData) : DataSource :=
  {| data := d; Type_ := Type_ s; Units := Units s; UnitsModified := UnitsModified s;
     DisplayPosition := DisplayPosition s; DisplayOrientation := DisplayOrientation s;
     CurrentToOriginal := CurrentToOriginal s; timeSeriesSteps := timeSeriesSteps s;
     currentTimeStep := currentTimeStep s; Operators := Operators s;
     m_json := m_json s; m_changingTimeStep := m_changingTimeStep s;
     m_transferFunction2DBox := m_transferFunction2DBox s |}.
Definition set_Type (s : DataSource) (t : Z) : DataSource :=
  {| data := data s; Type_ := t; Units := Units s; UnitsModified := UnitsModified s;
     DisplayPosition := DisplayPosition s; DisplayOrientation := DisplayOrientation s;
     CurrentToOriginal := CurrentToOriginal s; timeSeriesSteps := timeSeriesSteps s;
     currentTimeStep := currentTimeStep s; Operators := Operators s;
     m_json := m_json s; m_changingTimeStep := m_changingTimeStep s;
     m_transferFunction2DBox := m_transferFunction2DBox s |}.
Definition set_Units (s : DataSource) (u : option (list string)) (m : bool) : DataSource :=
  {| data := data s; Type_ := Type_ s; Units := u; UnitsModified := m;
     DisplayPosition := DisplayPosition s; DisplayOrientation := DisplayOrientation s;
     CurrentToOriginal := CurrentToOriginal s; timeSeriesSteps := timeSeriesSteps s;
     currentTimeStep := currentTimeStep s; Operators := Operators s;
     m_json := m_json s; m_changingTimeStep := m_changingTimeStep s;
     m_transferFunction2DBox := m_transferFunction2DBox s |}.
Definition set_Display (s : DataSource) (p o : list double) : DataSource :=
  {| data := data s; Type_ := Type_ s; Units := Units s; UnitsModified := UnitsModified s;
     DisplayPosition := p; DisplayOrientation := o;
     CurrentToOriginal := CurrentToOriginal s; timeSeriesSteps := timeSeriesSteps s;
     currentTimeStep := currentTimeStep s; Operators := Operators s;
     m_json := m_json s; m_changingTimeStep := m_changingTimeStep s;
     m_transferFunction2DBox := m_transferFunction2DBox s |}.
Definition set_CurrentToOriginal (s : DataSource) (m : gmap string string) : DataSource :=
  {| data := data s; Type_ := Type_ s; Units := Units s; UnitsModified := UnitsModified s;
     DisplayPosition := DisplayPosition s; DisplayOrientation := DisplayOrientation s;
     CurrentToOriginal := m; timeSeriesSteps := timeSeriesSteps s;
     currentTimeStep := currentTimeStep s; Operators := Operators s;
     m_json := m_json s; m_changingTimeStep := m_changingTimeStep s;
     m_transferFunction2DBox := m_transferFunction2DBox s |}.
Definition set_timeSeries (s : DataSource) (l : list TimeSeriesStep) (i : Z) (f : bool)
  : DataSource :=
  {| data := data s; Type_ := Type_ s; Units := Units s; UnitsModified := UnitsModified s;
     DisplayPosition := DisplayPosition s; DisplayOrientation := DisplayOrientation s;
     CurrentToOriginal := CurrentToOriginal s; timeSeriesSteps := l;
     currentTimeStep := i; Operators := Operators s;
     m_json := m_json s; m_changingTimeStep := f;
     m_transferFunction2DBox := m_transferFunction2DBox s |}.
Definition set_json (s : DataSource) (j : gmap string QJsonValue) : DataSource :=
  {| data := data s; Type_ := Type_ s; Units := Units s; UnitsModified := UnitsModified s;
     DisplayPosition := DisplayPosition s; DisplayOrientation := DisplayOrientation s;
     CurrentToOriginal := CurrentToOriginal s; timeSeriesSteps := timeSeriesSteps s;
     currentTimeStep := currentTimeStep s; Operators := Operators s;
     m_json := j; m_changingTimeStep := m_changingTimeStep s;
     m_transferFunction2DBox := m_transferFunction2DBox s |}.
Definition set_box (s : DataSource) (b : list double) : DataSource :=
  {| data := data s; Type_ := Type_ s; Units := Units s; UnitsModified := UnitsModified s;
     DisplayPosition := DisplayPosition s; DisplayOrientation := DisplayOrientation s;
     CurrentToOriginal := CurrentToOriginal s; timeSeriesSteps := timeSeriesSteps s;
     currentTimeStep := currentTimeStep s; Operators := Operators s;
     m_json := m_json s; m_changingTimeStep := m_changingTimeStep s;
     m_transferFunction2DBox := b |}.

(** What a call leaves behind: a state reached normally, or the state at
    the point where the C++ program has undefined behaviour (a null or
    out-of-range access) and nothing further is defined. *)
Inductive result (A : Type) : Type :=
| Ok (a : A)
| Fault (a : A).
Arguments Ok {A} a.
Arguments Fault {A} a.

Definition rbind {A B : Type} (r : result A) (k : A -> result B) (e : A -> B) : result B :=
  match r with
  | Ok a => k a
  | Fault a => Fault (e a)
  end.

Inductive Diagnostic : Type :=
| IndexOutOfRange (i size : Z)            (* qCritical, switchTimeSeriesStep *)
| UnableToSelect (arrayName : string)     (* qWarning, setActiveScalars *)
| ExtentMismatch (a b : Z).               (* cout, appendSlice *)

Section Allocator.

(** What freshly allocated memory holds is the allocator's choice:
    [fresh] for a reallocated tuple array, [fresh_scalars] for the voxel
    memory [AllocateScalars] hands out. *)
Variable fresh : list double.
Variable fresh_scalars : buf.

(** *** Tilt angles and the type tag (lines 56-77, 1617-1713) *)

(** [vtkDataArray::SetNumberOfTuples]: a shrinking array keeps its leading
    tuples; a growing one is reallocated. *)
Definition SetNumberOfTuples (n : Z) (l : list double) : list double :=
  let n' := Z.to_nat n in
  if (n' <=? length l)%nat then take n' l else take n' (fresh ++ repeat dzero n').

Definition createOrResizeTiltAnglesArray (d : vtkImageData) : vtkImageData :=
  let fd := FieldData d in
  let numTiltAngles := wrap_int (ext d 5 - ext d 4 + 1) in
  match tilt_angles fd with
  | None =>
      set_FieldData d (set_tilt_angles fd (Some (repeat dzero (Z.to_nat numTiltAngles))))
  | Some array =>
      if negb (numTiltAngles =? Z.of_nat (length array))
      then set_FieldData d (set_tilt_angles fd (Some (SetNumberOfTuples numTiltAngles array)))
      else d
  end.

(** [DSInternals::ensureTiltAnglesArrayExists]. *)
Definition ensureTiltAnglesArrayExists (s : DataSource) : result DataSource :=
  match data s with
  | None => Fault s
  | Some d => Ok (set_data s (Some (createOrResizeTiltAnglesArray d)))
  end.

Definition hasTiltAngles (d : vtkImageData) : bool :=
  match tilt_angles (FieldData d) with Some _ => true | None => false end.

Definition getTiltAngles (d : vtkImageData) : list double :=
  default [] (tilt_angles (FieldData d)).

Definition clearTiltAngles (image : option vtkImageData) : option vtkImageData :=
  match image with
  | None => None
  | Some d => Some (set_FieldData d (set_tilt_angles (FieldData d) None))
  end.

(** [static void setType(vtkDataObject* image, DataSourceType t)]. *)
Definition setType_image (image : option vtkImageData) (t : Z) : option vtkImageData :=
  match image with
  | None => None
  | Some d =>
      let d1 := set_FieldData d (set_type_tag (FieldData d) (Some (wrap_signed 8 t))) in
      if negb (t =? TiltSeries) then clearTiltAngles (Some d1) else Some d1
  end.

(** [void DataSource::setType(DataSourceType t)]. *)
Definition setType (t : Z) (s : DataSource) : result DataSource :=
  let s := set_Type s t in
  let s := set_data s (setType_image (data s) t) in
  if t =? TiltSeries then ensureTiltAnglesArrayExists s else Ok s.

(** The [i]-th of [angles] goes to tuple [i] while both exist. *)
Fixpoint overwrite_prefix (angles l : list double) : list double :=
  match angles, l with
  | a :: angles', _ :: l' => a :: overwrite_prefix angles' l'
  | _, _ => l
  end.

(** [static void setTiltAngles(vtkDataObject* data, const QVector<double>&)]. *)
Definition setTiltAngles_image (d : vtkImageData) (angles : list double) : vtkImageData :=
  let d := createOrResizeTiltAnglesArray d in
  match tilt_angles (FieldData d) with
  | Some l => set_FieldData d (set_tilt_angles (FieldData d) (Some (overwrite_prefix angles l)))
  | None => d
  end.

Definition setTiltAngles (angles : list double) (s : DataSource) : result DataSource :=
  match data s with
  | None => Fault s
  | Some d => Ok (set_data s (Some (setTiltAngles_image d angles)))
  end.

(** *** dataModified (lines 1048-1090) *)

Definition dataModified (s : DataSource) : result DataSource :=
  match data s with
  | None => Fault s
  | Some d =>
      match tomviz_data_source_type (FieldData d) with
      | Some t => setType t s
      | None =>
          Ok (set_data s (Some (set_FieldData d
                (set_type_tag (FieldData d) (Some (wrap_signed 8 (Type_ s)))))))
      end
  end.

(** *** Scalar arrays (lines 788-937) *)

(** A [QString] and the bytes VTK keeps for a name are both a [string]
    here.  The code writes and looks up a name as [toLatin1().data()] and
    reads it back through the [QString] made of a C string, which decodes
    UTF-8; both
    leave a text of the characters 1 to 127 as it is, and such names are
    what this embedding covers.  [GetScalars(name)] with an empty name is
    VTK's active array; the look-ups below are for names that are not
    empty. *)
Definition ascii_only (n : string) : bool :=
  forallb (fun c => let k := nat_of_ascii c in Nat.ltb 0 k && Nat.ltb k 128)
          (list_ascii_of_string n).

Definition plain (n : string) : bool :=
  negb (String.eqb n EmptyString) && ascii_only n.

Definition getScalarsArray (s : DataSource) (arrayName : string) : option nat :=
  match data s with
  | None => None
  | Some d => find_array arrayName (PointData d)
  end.

Definition activeScalars (s : DataSource) : string :=
  match data s with
  | None => EmptyString
  | Some d => match GetScalars d with
              | Some a => Name a
              | None => EmptyString
              end
  end.

Definition listScalars (s : DataSource) : list string :=
  match data s with
  | None => []
  | Some d => names d
  end.

(** Every array of the source has a name that is not empty and is made of
    the characters 1 to 127. *)
Definition plain_names (s : DataSource) : bool := forallb plain (listScalars s).

Definition setActiveScalars (arrayName : string) (s : DataSource)
  : result DataSource * list Diagnostic :=
  match getScalarsArray s arrayName with
  | None => (Ok s, [UnableToSelect arrayName])
  | Some i =>
      let s := set_data s (option_map (fun d => set_ActiveScalars d (Some i)) (data s)) in
      (dataModified s, [])
  end.

Definition renameScalarsArray (oldName newName : string) (s : DataSource)
  : result DataSource :=
  if String.eqb oldName newName then Ok s
  else
    let isCurrentScalars := String.eqb oldName (activeScalars s) in
    (* Ensure the array actually exist *)
    match getScalarsArray s oldName with
    | None => Ok s
    | Some i =>
        (* Ensure the target name is not already taken *)
        match getScalarsArray s newName with
        | Some _ => Ok s
        | None =>
            let s :=
              set_data s
                (option_map
                   (fun d => set_PointData d
                               (alter (fun a => rename_array a newName) i (PointData d)))
                   (data s)) in
            rbind
              (if isCurrentScalars then fst (setActiveScalars newName s)
               else dataModified s)
              (fun s =>
                 let originalName := default EmptyString (CurrentToOriginal s !! oldName) in
                 Ok (set_CurrentToOriginal s
                       (<[newName := originalName]> (delete oldName (CurrentToOriginal s)))))
              (fun s => s)
        end
    end.

(** *** setData, copyData, init (lines 1155-1209, 1434-1495, 1602-1615) *)

Definition track_names (l : list string) : gmap string string :=
  foldl (fun m name => <[name := name]> m) ∅ l.

Definition setData (newData : vtkImageData) (s : DataSource) : result DataSource :=
  let s := set_data s (Some newData) in
  let typeArray := tomviz_data_source_type (FieldData newData) in
  rbind
    (match typeArray with
     | Some t =>
         if t =? TiltSeries then
           rbind (ensureTiltAnglesArrayExists s) (fun s => Ok (set_Type s TiltSeries))
                 (fun s => s)
         else if t =? FIB then Ok (set_Type s FIB)
         else Ok (set_Type s Volume)
     | None => Ok (set_Type s Volume)
     end)
    (fun s =>
       let upd (f : vtkFieldData -> vtkFieldData) (s : DataSource) :=
         set_data s (option_map (fun d => set_FieldData d (f (FieldData d))) (data s)) in
       let s :=
         match option_bind _ _ (fun d => units (FieldData d)) (data s) with
         | Some u => set_Units s (Some u) (UnitsModified s)
         | None => match Units s with
                   | Some u => upd (fun fd => set_units fd (Some u)) s
                   | None => s
                   end
         end in
       let s := upd (fun fd => set_type_tag fd (Some (wrap_signed 8 (Type_ s)))) s in
       (* Initialize maps to track array renames *)
       let s := set_CurrentToOriginal s (track_names (listScalars s)) in
       dataModified s)
    (fun s => s).

(** [void DataSource::copyData(vtkDataObject* newData)]: a deep copy into
    the existing data object. *)
Definition copyData (newData : vtkImageData) (s : DataSource) : result DataSource :=
  match data s with
  | None => Fault s
  | Some _ => dataModified (set_data s (Some newData))
  end.

Definition ensureActiveArray (s : DataSource) : DataSource :=
  match data s with
  | None => s
  | Some d =>
      match GetScalars d, PointData d with
      | None, _ :: _ => set_data s (Some (set_ActiveScalars d (Some O)))
      | _, _ => s
      end
  end.

(** The members [init] sets, from an image or from none. *)
Definition init (image : option vtkImageData) (dataType : Z) : DataSource :=
  let s :=
    {| data := image; Type_ := dataType; Units := None; UnitsModified := false;
       DisplayPosition := [dzero; dzero; dzero];
       DisplayOrientation := [dzero; dzero; dzero];
       CurrentToOriginal := ∅; timeSeriesSteps := []; currentTimeStep := 0;
       Operators := []; m_json := ∅; m_changingTimeStep := false;
       m_transferFunction2DBox := [dzero; dzero; dminus1; dminus1] |} in
  let s := ensureActiveArray s in
  set_CurrentToOriginal s (track_names (listScalars s)).

(** *** Time series (lines 1242-1323) *)

Definition numTimeSeriesSteps (s : DataSource) : Z :=
  Z.of_nat (length (timeSeriesSteps s)).

Definition currentTimeSeriesIndex (s : DataSource) : Z := currentTimeStep s.

(** [QList::operator[]]: defined for indices in range only. *)
Definition QList_at {A : Type} (l : list A) (i : Z) : option A :=
  if i <? 0 then None else l !! Z.to_nat i.

(** [switchTimeSeriesStep] (lines 1242-1258).  The image of the chosen step
    becomes the producer's output itself, not a copy: the list of steps is
    given the state that image has at the end of the call.  Changes made to
    the data by later calls are not carried into the list. *)
Definition switchTimeSeriesStep (i : Z) (s : DataSource)
  : result DataSource * list Diagnostic :=
  if Z.of_nat (length (timeSeriesSteps s)) <=? i then
    let size := Z.of_nat (length (timeSeriesSteps s)) in
    (Ok s, [IndexOutOfRange i size])
  else
    let s := set_timeSeries s (timeSeriesSteps s) i true in
    match QList_at (timeSeriesSteps s) i with
    | None => (Fault s, [])
    | Some step =>
        let s := set_data s (Some (image step)) in
        (rbind (dataModified s)
               (fun s =>
                  (* The producer's output is the step's own image: what
                     dataModified wrote to it is in the step as well. *)
                  let steps :=
                    match data s with
                    | Some d => <[Z.to_nat i := {| image := d |}]> (timeSeriesSteps s)
                    | None => timeSeriesSteps s
                    end in
                  Ok (set_timeSeries s steps (currentTimeStep s) false))
               (fun s => s),
         [])
    end.

Definition clearTimeSeriesSteps (s : DataSource) : DataSource :=
  set_timeSeries s [] 0 (m_changingTimeStep s).

Definition addTimeSeriesStep (step : TimeSeriesStep) (s : DataSource) : DataSource :=
  set_timeSeries s (timeSeriesSteps s ++ [step]) (currentTimeStep s) (m_changingTimeStep s).

(** *** appendSlice (lines 185-260) *)

Definition voxel_count (e : list Z) : Z :=
  let dx := nth 1 e 0 - nth 0 e 0 + 1 in
  let dy := nth 3 e 0 - nth 2 e 0 + 1 in
  let dz := nth 5 e 0 - nth 4 e 0 + 1 in
  if (dx <=? 0) || (dy <=? 0) || (dz <=? 0) then 0 else dx * dy * dz.

(** Bytes an array owns. *)
Definition array_bytes (a : vtkDataArray) : Z :=
  NumberOfTuples a * NumberOfComponents a * ElemSize a.

(** [vtkImageData::GetScalarPointer(x, y, z)]: the byte offset of that voxel
    in the scalars, or null for a voxel outside the extent. *)
Definition GetScalarPointer (d : vtkImageData) (a : vtkDataArray) (x y z : Z) : option Z :=
  let e := Extent d in
  if (nth 0 e 0 <=? x) && (x <=? nth 1 e 0) && (nth 2 e 0 <=? y) && (y <=? nth 3 e 0)
     && (nth 4 e 0 <=? z) && (z <=? nth 5 e 0)
  then
    let dx := nth 1 e 0 - nth 0 e 0 + 1 in
    let dy := nth 3 e 0 - nth 2 e 0 + 1 in
    Some ((((z - nth 4 e 0) * dy + (y - nth 2 e 0)) * dx + (x - nth 0 e 0))
          * NumberOfComponents a * ElemSize a)
  else None.

Definition set_Values (a : vtkDataArray) (n : Z) (v : buf) : vtkDataArray :=
  {| Name := Name a; ElemSize := ElemSize a; NumberOfComponents := NumberOfComponents a;
     NumberOfTuples := n; Values := v |}.

(** [appendImageData<T>(data, slice, originalPtr)], [T] being the value type
    of the scalars of [data]; [AllocateScalars] reuses the scalars array and
    gives it new memory for the new extent. *)
Definition appendImageData (data slice : vtkImageData) : result vtkImageData :=
  match ActiveScalars data, GetScalars data with
  | Some idx, Some dataArray =>
      let sizeofT := ElemSize dataArray in
      let extents := Extent data in
      (* the number of bytes in the original data, as an int *)
      let bufferSize :=
        wrap_int (NumberOfTuples dataArray * NumberOfComponents dataArray * sizeofT) in
      if bufferSize <? 0 then Fault data
      else
        let buffer := memcpy (fun _ => 0) 0 (Values dataArray) 0 bufferSize in
        (* increment the z extent, and reallocate the scalar array *)
        let extents := <[5%nat := wrap_int (nth 5 extents 0 + 1)]> extents in
        let data := set_Extent data extents in
        let allocated := set_Values dataArray (voxel_count extents) fresh_scalars in
        let data := set_PointData data (<[idx := allocated]> (PointData data)) in
        (* copy the old data back into the new memory location *)
        if array_bytes allocated <? bufferSize then Fault data
        else
          let ptr := memcpy fresh_scalars 0 buffer 0 bufferSize in
          let data := set_PointData data
                        (<[idx := set_Values allocated (NumberOfTuples allocated) ptr]>
                           (PointData data)) in
          (* now copy the new slice into the array *)
          match GetScalarPointer data allocated 0 0 (nth 5 extents 0), GetScalars slice with
          | Some imagePtr, Some sliceArray =>
              let sliceSize :=
                wrap_int (NumberOfTuples sliceArray * NumberOfComponents sliceArray
                          * sizeofT) in
              if (sliceSize <? 0) || (array_bytes sliceArray <? sliceSize)
                 || (array_bytes allocated <? imagePtr + sliceSize)
              then Fault data
              else
                Ok (set_PointData data
                      (<[idx := set_Values allocated (NumberOfTuples allocated)
                                  (memcpy ptr imagePtr (Values sliceArray) 0 sliceSize)]>
                         (PointData data)))
          | _, _ => Fault data
          end
  | _, _ => Fault data
  end.

Definition first_mismatch (e se : list Z) : option (Z * Z) :=
  head (filter (fun p => negb (fst p =? snd p))
               (map (fun i => (nth i e 0, nth i se 0)) (seq 0 4))).

(** [bool DataSource::appendSlice(vtkImageData* slice)]. *)
Definition appendSlice (slice : option vtkImageData) (s : DataSource)
  : result (bool * DataSource) * list Diagnostic :=
  match slice with
  | None => (Ok (false, s), [])
  | Some slice =>
      match data s with
      | None => (Ok (true, s), [])
      | Some d =>
          match first_mismatch (Extent d) (Extent slice) with
          | Some (a, b) => (Ok (false, s), [ExtentMismatch a b])
          | None =>
              (* Now to append the slice onto our image data. *)
              (match appendImageData d slice with
               | Ok d' => Ok (true, set_data s (Some d'))
               | Fault d' => Fault (true, set_data s (Some d'))
               end, [])
          end
      end
  end.

(** *** Labels, units, spacing (lines 262-435, 742-774, 956-989) *)

(** The part of [s] after its last ['/']. *)
Fixpoint after_last_slash (s acc : string) : string :=
  match s with
  | EmptyString => acc
  | String c s' =>
      if Ascii.eqb c "/"%char then after_last_slash s' s' else after_last_slash s' acc
  end.

(** The part of [s] before its first ['.']. *)
Fixpoint before_first_dot (s : string) : string :=
  match s with
  | EmptyString => EmptyString
  | String c s' => if Ascii.eqb c "."%char then EmptyString
                   else String c (before_first_dot s')
  end.

(** [QFileInfo(path).baseName()]. *)
Definition baseName (path : string) : string :=
  before_first_dot (after_last_slash path path).

Definition toString (v : QJsonValue) : string :=
  match v with JString x => x | _ => EmptyString end.

Definition fileName (s : DataSource) : string :=
  match m_json s !! "reader"%string with
  | Some (JReader (Some (f :: _)) _) => f
  | _ => EmptyString
  end.

Definition setLabel (l : string) (s : DataSource) : DataSource :=
  set_json s (<["label"%string := JString l]> (m_json s)).

Definition label (s : DataSource) : string :=
  match m_json s !! "label"%string with
  | Some v => toString v
  | None => baseName (fileName s)
  end.

Definition setSpacing (spacing : list double) (markModified : bool) (s : DataSource)
  : DataSource :=
  let s := if markModified then set_Units s (Units s) true else s in
  set_data s (option_map (fun d => set_Spacing d (take 3 spacing)) (data s)).

(** [setUnits] (lines 965-989).  An array the source already has is set
    in [Units] alone: whether the field data of the present image still
    share it depends on how the image got there (setData shares it, a deep
    copy does not), which is not tracked here. *)
Definition setUnits (u : string) (markModified : bool) (s : DataSource) : DataSource :=
  let s := if markModified then set_Units s (Units s) true else s in
  let s :=
    match Units s with
    | Some _ => s
    | None =>
        let arr := ["nm"; "nm"; "nm"]%string in
        let s := set_Units s (Some arr) (UnitsModified s) in
        (* The new array is added to the field data as the object that the
           loop below fills: the field data hold its final values. *)
        set_data s (option_map
                      (fun d => set_FieldData d (set_units (FieldData d) (Some [u; u; u])))
                      (data s))
    end in
  set_Units s (Some [u; u; u]) (UnitsModified s).

Definition setDisplayPosition (p : list double) (s : DataSource) : DataSource :=
  set_Display s (take 3 p) (DisplayOrientation s).

Definition setDisplayOrientation (o : list double) (s : DataSource) : DataSource :=
  set_Display s (DisplayPosition s) (take 3 o).

(** *** serialize and deserialize (lines 447-667) *)

(** [QMap] and [QJsonObject] iterate in ascending key order. *)
Fixpoint insert_sorted (kv : string * string) (l : list (string * string))
  : list (string * string) :=
  match l with
  | [] => [kv]
  | x :: l' => if String.leb (fst kv) (fst x) then kv :: l else x :: insert_sorted kv l'
  end.

Definition sort_by_key (l : list (string * string)) : list (string * string) :=
  foldr insert_sorted [] l.

Definition items (m : gmap string string) : list (string * string) :=
  sort_by_key (map_to_list m).

Definition wasSubsampled (image : option vtkImageData) : bool :=
  match image with
  | None => false
  | Some d => match was_subsampled (FieldData d) with
              | Some v => negb (v =? 0)
              | None => false
              end
  end.

Definition subsampleStrides (image : option vtkImageData) : list Z :=
  match option_bind _ _ (fun d => subsample_strides (FieldData d)) image with
  | Some l => take 3 l
  | None => [1; 1; 1]
  end.

Definition subsampleVolumeBounds (image : option vtkImageData) : list Z :=
  match option_bind _ _ (fun d => subsample_volume_bounds (FieldData d)) image with
  | Some l => take 6 l
  | None => [-1; -1; -1; -1; -1; -1]
  end.

(** What [serialize] asks of its collaborators: the colour maps, the
    modules the ModuleManager holds for this source, the address printed as
    [id], and whether this is the active data source. *)
Record Env : Type := {
  env_colorOpacityMap : string;
  env_gradientOpacityMap : string;
  env_modules : list string;
  env_id : string;
  env_active : bool
}.

Definition when {A : Type} (b : bool) (f : A -> A) (a : A) : A := if b then f a else a.

(** [QJsonObject DataSource::serialize() const]; [None] when the units were
    modified on a source that has no image ([getSpacing] dereferences it). *)
Definition serialize (env : Env) (s : DataSource) : option (gmap string QJsonValue) :=
  let json := m_json s in
  let json := <["label"%string := JString (label s)]> json in
  (* If the data was subsampled, save the subsampling settings *)
  let json :=
    when (wasSubsampled (data s))
      (fun json =>
         <["subsampleSettings"%string :=
             JInts (subsampleStrides (data s) ++ subsampleVolumeBounds (data s))]> json)
      json in
  match (if UnitsModified s
         then match data s with
              | None => None
              | Some d =>
                  let json := <["spacing"%string := JDoubles (take 3 (Spacing d))]> json in
                  Some match Units s with
                       | Some u => <["units"%string := JString (nth 0 u EmptyString)]> json
                       | None => json
                       end
              end
         else Some json) with
  | None => None
  | Some json =>
      let json := <["origin"%string := JDoubles (take 3 (DisplayPosition s))]> json in
      let json := <["orientation"%string := JDoubles (take 3 (DisplayOrientation s))]> json in
      (* Serialize the currently active scalars *)
      let json := <["activeScalars"%string := JString (activeScalars s)]> json in
      let scalarsRename :=
        foldl (fun (o : gmap string string) (kv : string * string) =>
                 <[snd kv := fst kv]> o)
              ∅ (items (CurrentToOriginal s)) in
      let json := <["scalarsRename"%string := JStringObject (items scalarsRename)]> json in
      let json := <["colorOpacityMap"%string := JOpaque (env_colorOpacityMap env)]> json in
      let json :=
        <["gradientOpacityMap"%string := JOpaque (env_gradientOpacityMap env)]> json in
      let json :=
        <["colorMap2DBox"%string := JDoubles (m_transferFunction2DBox s)]> json in
      (* Serialize the operators... *)
      let json :=
        when (negb (bool_decide (Operators s = [])))
          (fun json => <["operators"%string := JOpaqueArray (Operators s)]> json) json in
      (* Serialize the modules... *)
      let json :=
        when (negb (bool_decide (env_modules env = [])))
          (fun json => <["modules"%string := JOpaqueArray (env_modules env)]> json) json in
      let json := <["id"%string := JString (env_id env)]> json in
      let json := when (env_active env)
                    (fun json => <["active"%string := JBool true]> json) json in
      Some json
  end.

(** The default of the [markModified] argument of [setSpacing] and
    [setUnits], declared in DataSource.h. *)
Variable markModifiedDefault : bool.

Definition toDoubles (v : QJsonValue) : list double :=
  match v with JDoubles l => l | _ => [] end.

Definition replay_renames (o : list (string * string)) (s : DataSource)
  : result DataSource :=
  foldl (fun r kv => rbind r (renameScalarsArray (fst kv) (snd kv)) (fun s => s))
        (Ok s) o.

(** The part of [deserialize] that restores the 2D transfer-function box,
    the spacing, the units and the display position and orientation. *)
Definition restore_geometry (state : gmap string QJsonValue) (s : DataSource)
  : DataSource :=
  let s := match state !! "colorMap2DBox"%string with
           | Some v => set_box s (toDoubles v)
           | None => s
           end in
  let s := match state !! "spacing"%string with
           | Some v => setSpacing (toDoubles v) markModifiedDefault s
           | None => s
           end in
  let s := match state !! "units"%string with
           | Some v => setUnits (toString v) markModifiedDefault s
           | None => s
           end in
  let s := match state !! "origin"%string with
           | Some v => setDisplayPosition (toDoubles v) s
           | None => s
           end in
  match state !! "orientation"%string with
  | Some v => setDisplayOrientation (toDoubles v) s
  | None => s
  end.

(** [bool DataSource::deserialize(const QJsonObject& state)] on a document
    without [modules] and [operators]; rebuilding those is the work of the
    module and operator factories, and [None] stands for such a document. *)
Definition deserialize (state : gmap string QJsonValue) (s : DataSource)
  : option (result DataSource) :=
  match state !! "modules"%string, state !! "operators"%string with
  | None, None =>
      let s := match state !! "label"%string with
               | Some v => setLabel (toString v) s
               | None => s
               end in
      let r := match state !! "scalarsRename"%string with
               | Some (JStringObject o) => replay_renames o s
               | _ => Ok s
               end in
      let r := rbind r
                 (fun s => match state !! "activeScalars"%string with
                           | Some v => fst (setActiveScalars (toString v) s)
                           | None => Ok s
                           end)
                 (fun s => s) in
      Some (rbind r (fun s => Ok (restore_geometry state s)) (fun s => s))
  | _, _ => None
  end.

(** *** Scalars by index (lines 811-863) *)

(** [QStringList::indexOf]: the first position of [x], or -1. *)
Fixpoint indexOf (l : list string) (x : string) : Z :=
  match l with
  | [] => -1
  | y :: l' => if String.eqb y x then 0
               else let r := indexOf l' x in if r <? 0 then -1 else r + 1
  end.

(** [void DataSource::setActiveScalars(int arrayIdx)]. *)
Definition setActiveScalars_idx (arrayIdx : Z) (s : DataSource)
  : result DataSource * list Diagnostic :=
  let scalars := listScalars s in
  if (arrayIdx <? 0) || (Z.of_nat (length scalars) <=? arrayIdx) then (Ok s, [])
  else setActiveScalars (nth (Z.to_nat arrayIdx) scalars EmptyString) s.

Definition activeScalarsIdx (s : DataSource) : Z :=
  indexOf (listScalars s) (activeScalars s).

Definition scalarsName (arrayIdx : Z) (s : DataSource) : string :=
  let scalars := listScalars s in
  if (0 <=? arrayIdx) && (arrayIdx <? Z.of_nat (length scalars))
  then nth (Z.to_nat arrayIdx) scalars EmptyString
  else EmptyString.

Definition scalarsIdx (arrayName : string) (s : DataSource) : Z :=
  indexOf (listScalars s) arrayName.

(** *** File names (lines 262-315, 395-402) *)

(** [m_json.value("reader").toObject()] with its [fileNames] replaced; a
    [reader] entry that is not an object counts as an empty one. *)
Definition setFileNames (fileNames : list string) (s : DataSource) : DataSource :=
  let rest := match m_json s !! "reader"%string with
              | Some (JReader _ rest) => rest
              | _ => EmptyString
              end in
  set_json s (<["reader"%string := JReader (Some fileNames) rest]> (m_json s)).

Definition fileNames (s : DataSource) : list string :=
  match m_json s !! "reader"%string with
  | Some (JReader (Some files) _) => files
  | _ => []
  end.

Definition isImageStack (s : DataSource) : bool :=
  match m_json s !! "reader"%string with
  | Some (JReader (Some files) _) => 1 <? Z.of_nat (length files)
  | _ => false
  end.

(** *** Units (lines 956-963) *)

Definition getUnits (s : DataSource) : string :=
  match Units s with
  | Some u => nth 0 u EmptyString
  | None => "nm"%string
  end.

(** *** The subsample settings kept in the field data (lines 1653-1796) *)

Definition set_was_subsampled (fd : vtkFieldData) (v : option Z) : vtkFieldData :=
  {| tomviz_data_source_type := tomviz_data_source_type fd;
     tilt_angles := tilt_angles fd; units := units fd; was_subsampled := v;
     subsample_strides := subsample_strides fd;
     subsample_volume_bounds := subsample_volume_bounds fd |}.
Definition set_subsample_strides (fd : vtkFieldData) (v : option (list Z))
  : vtkFieldData :=
  {| tomviz_data_source_type := tomviz_data_source_type fd;
     tilt_angles := tilt_angles fd; units := units fd;
     was_subsampled := was_subsampled fd; subsample_strides := v;
     subsample_volume_bounds := subsample_volume_bounds fd |}.
Definition set_subsample_volume_bounds (fd : vtkFieldData) (v : option (list Z))
  : vtkFieldData :=
  {| tomviz_data_source_type := tomviz_data_source_type fd;
     tilt_angles := tilt_angles fd; units := units fd;
     was_subsampled := was_subsampled fd;
     subsample_strides := subsample_strides fd; subsample_volume_bounds := v |}.

(** [setFieldDataArray<vtkTypeInt32Array>(fd, arrayName, numTuples, data)]
    on the array [old] of that name: a missing array is created with
    [numTuples] tuples, then tuples [0 .. numTuples - 1] are written; an
    existing array with fewer tuples is written out of range. *)
Definition setFieldDataArray (old : option (list Z)) (numTuples : nat) (values : list Z)
  : result (list Z) :=
  let array := match old with
               | Some l => l
               | None => repeat 0 numTuples
               end in
  if (length array <? numTuples)%nat then Fault array
  else Ok (map (fun i => nth i values 0) (seq 0 numTuples)
           ++ drop numTuples array).

Definition setWasSubsampled (image : option vtkImageData) (b : bool)
  : option vtkImageData :=
  match image with
  | None => None
  | Some d =>
      Some (set_FieldData d
              (set_was_subsampled (FieldData d) (Some (if b then 1 else 0))))
  end.

Definition setSubsampleStrides (image : option vtkImageData) (s : list Z)
  : result (option vtkImageData) :=
  match image with
  | None => Ok None
  | Some d =>
      match setFieldDataArray (subsample_strides (FieldData d)) 3 s with
      | Ok l => Ok (Some (set_FieldData d (set_subsample_strides (FieldData d) (Some l))))
      | Fault _ => Fault (Some d)
      end
  end.

Definition setSubsampleVolumeBounds (image : option vtkImageData) (bs : list Z)
  : result (option vtkImageData) :=
  match image with
  | None => Ok None
  | Some d =>
      match setFieldDataArray (subsample_volume_bounds (FieldData d)) 6 bs with
      | Ok l =>
          Ok (Some (set_FieldData d (set_subsample_volume_bounds (FieldData d) (Some l))))
      | Fault _ => Fault (Some d)
      end
  end.

(** *** Component names (lines 1550-1575) *)

(** The [do ... while] of [ensureValidComponentNames]: the first of
    [name1], [name2], ... after [counter] that is not approved yet.  The
    [size_t] counter is an [N]: it would have to pass more approved names
    than fit in memory before it wrapped.  A component name is read back
    as UTF-8 and stored with [toLatin1]: both leave a name of the
    characters 1 to 127 ([ascii_only]) as it is, and such names are what
    these definitions cover. *)
Fixpoint fresh_name (fuel : nat) (name : string) (approvedNames : list string)
    (counter : N) : option string :=
  match fuel with
  | O => None
  | S fuel' =>
      let counter := (counter + 1)%N in
      let newName := (name +:+ pretty counter)%string in
      if bool_decide (newName ∈ approvedNames)
      then fresh_name fuel' name approvedNames counter
      else Some newName
  end.

(** The [for] loop over the components of [scalars()], on their names (an
    unset name reads as the empty string): the names it leaves and whether
    any was changed; [None] when the fuel of a [do ... while] runs out. *)
Fixpoint ensureValidComponentNames_from (fuel : nat) (names approvedNames : list string)
  : option (list string * bool) :=
  match names with
  | [] => Some ([], false)
  | name :: rest =>
      if String.eqb name EmptyString || bool_decide (name ∈ approvedNames) then
        (* If this name is empty or duplicated, rename it. *)
        match fresh_name fuel name approvedNames 0 with
        | None => None
        | Some newName =>
            match ensureValidComponentNames_from fuel rest (approvedNames ++ [newName]) with
            | None => None
            | Some (l, _) => Some (newName :: l, true)
            end
        end
      else
        match ensureValidComponentNames_from fuel rest (approvedNames ++ [name]) with
        | None => None
        | Some (l, modified) => Some (name :: l, modified)
        end
  end.

Definition ensureValidComponentNames (fuel : nat) (names : list string)
  : option (list string * bool) :=
  ensureValidComponentNames_from fuel names [].

End Allocator.

End DS.

(* ===================================================================== *)
(** ** Concrete files and data sources used by the examples *)
(* ===================================================================== *)

(** A palette file of 8-bit pixels whose colour 0 is (0x1234, 0x5678, 0x9abc). *)
Definition palette_tif : Tiff.TIFF :=
  {| Tiff.ImageWidth := 1; Tiff.ImageLength := 1; Tiff.Directories := 1;
     Tiff.IsTiled := false; Tiff.TileWidthTag := 0; Tiff.TileLengthTag := 0;
     Tiff.SamplesPerPixelTag := 1; Tiff.BitsPerSampleTag := 8;
     Tiff.PhotometricTag := Some Tiff.PHOTOMETRIC_PALETTE;
     Tiff.OrientationTag := Some Tiff.ORIENTATION_TOPLEFT;
     Tiff.PlanarConfigTag := Tiff.PLANARCONFIG_CONTIG;
     Tiff.CompressionTag := Tiff.COMPRESSION_NONE; Tiff.RowsPerStripTag := 1;
     Tiff.ColorMapTag := Some {| Tiff.cm_red := fun _ => 0x1234;
                                 Tiff.cm_green := fun _ => 0x5678;
                                 Tiff.cm_blue := fun _ => 0x9abc |};
     Tiff.Raster := fun _ _ => 0 |}.



Definition palette_reader (dst : Tiff.ScalarType) : Tiff.Reader :=
  {| Tiff.Internals := Tiff.Initialize palette_tif;
     Tiff.DataScalarType := dst;
     Tiff.OutputExtent := [0; 0; 0; 0; 0; 0];
     Tiff.OutputIncrements := [3; 3; 3] |}.

Definition no_field_data : DS.vtkFieldData :=
  {| DS.tomviz_data_source_type := None; DS.tilt_angles := None; DS.units := None;
     DS.was_subsampled := None; DS.subsample_strides := None;
     DS.subsample_volume_bounds := None |}.

(** An array of one-byte, one-component tuples, all holding [v]. *)
Definition byte_array (name : string) (n v : Z) : DS.vtkDataArray :=
  {| DS.Name := name; DS.ElemSize := 1; DS.NumberOfComponents := 1;
     DS.NumberOfTuples := n; DS.Values := fun _ => v |}.

(** A volume of [nx] x [ny] x [nz] voxels with one scalars array. *)
Definition volume (nx ny nz v : Z) (fd : DS.vtkFieldData) : DS.vtkImageData :=
  {| DS.Extent := [0; nx - 1; 0; ny - 1; 0; nz - 1];
     DS.Spacing := [0; 0; 0];
     DS.PointData := [byte_array "ImageScalars" (nx * ny * nz) v];
     DS.ActiveScalars := Some O;
     DS.FieldData := fd |}.

Definition env0 : DS.Env :=
  {| DS.env_colorOpacityMap := ""; DS.env_gradientOpacityMap := "";
     DS.env_modules := []; DS.env_id := "0x0"; DS.env_active := false |}.

(** A source with two time steps, showing the first. *)
Definition two_steps : DS.DataSource :=
  DS.addTimeSeriesStep {| DS.image := volume 2 2 1 2 no_field_data |}
    (DS.addTimeSeriesStep {| DS.image := volume 2 2 1 1 no_field_data |}
       (DS.init (Some (volume 2 2 1 1 no_field_data)) DS.Volume)).

(** A 1024 x 1024 x 1024 volume of 4-byte voxels (4 GiB), all bytes 7, and
    a matching 1024 x 1024 x 1 slice, all bytes 9. *)
Definition word_array (name : string) (n v : Z) : DS.vtkDataArray :=
  {| DS.Name := name; DS.ElemSize := 4; DS.NumberOfComponents := 1;
     DS.NumberOfTuples := n; DS.Values := fun _ => v |}.

Definition big_volume (nz v : Z) : DS.vtkImageData :=
  {| DS.Extent := [0; 1023; 0; 1023; 0; nz - 1];
     DS.Spacing := [0; 0; 0];
     DS.PointData := [word_array "ImageScalars" (1024 * 1024 * nz) v];
     DS.ActiveScalars := Some O;
     DS.FieldData := no_field_data |}.

Definition big_source : DS.DataSource :=
  DS.init (Some (big_volume 1024 7)) DS.Volume.

(** A 2 x 2 x 1 tilt series with its one tilt angle. *)
Definition tilt_field_data : DS.vtkFieldData :=
  {| DS.tomviz_data_source_type := Some DS.TiltSeries; DS.tilt_angles := Some [DS.dzero];
     DS.units := None; DS.was_subsampled := None; DS.subsample_strides := None;
     DS.subsample_volume_bounds := None |}.

Definition tilt_source : DS.DataSource :=
  DS.init (Some (volume 2 2 1 1 tilt_field_data)) DS.TiltSeries.


Definition small_source : DS.DataSource :=
  DS.init (Some (volume 2 2 1 1 no_field_data)) DS.Volume.

(** A single-directory grey-scale file of [w] x [h] pixels of [bits] bits,
    tiled in [tw] x [th] tiles or stored in rows; byte [k] of file row [r]
    is [(31 r + k) mod 256]. *)
Definition grey_tif (tiled : bool) (w h tw th bits orientation : Z) : Tiff.TIFF :=
  {| Tiff.ImageWidth := w; Tiff.ImageLength := h; Tiff.Directories := 1;
     Tiff.IsTiled := tiled; Tiff.TileWidthTag := tw; Tiff.TileLengthTag := th;
     Tiff.SamplesPerPixelTag := 1; Tiff.BitsPerSampleTag := bits;
     Tiff.PhotometricTag := Some Tiff.PHOTOMETRIC_MINISBLACK;
     Tiff.OrientationTag := Some orientation;
     Tiff.PlanarConfigTag := Tiff.PLANARCONFIG_CONTIG;
     Tiff.CompressionTag := Tiff.COMPRESSION_NONE; Tiff.RowsPerStripTag := 1;
     Tiff.ColorMapTag := None;
     Tiff.Raster := fun r k => (31 * r + k) mod 256 |}.

(** The reader set up for the whole image of a file. *)
Definition whole_image_reader (tif : Tiff.TIFF) (T : Tiff.ScalarType) : Tiff.Reader :=
  {| Tiff.Internals := Tiff.Initialize tif;
     Tiff.DataScalarType := T;
     Tiff.OutputExtent := [0; Tiff.ImageWidth tif - 1; 0; Tiff.ImageLength tif - 1; 0; 0];
     Tiff.OutputIncrements :=
       [1; Tiff.ImageWidth tif; Tiff.ImageWidth tif * Tiff.ImageLength tif] |}.

(** The reader set up for the whole image of a file, with an output of
    [n] components per pixel (the increments [vtkImageData] computes). *)
Definition component_reader (tif : Tiff.TIFF) (T : Tiff.ScalarType) (n : Z)
  : Tiff.Reader :=
  {| Tiff.Internals := Tiff.Initialize tif;
     Tiff.DataScalarType := T;
     Tiff.OutputExtent := [0; Tiff.ImageWidth tif - 1; 0; Tiff.ImageLength tif - 1; 0; 0];
     Tiff.OutputIncrements :=
       [n; n * Tiff.ImageWidth tif; n * Tiff.ImageWidth tif * Tiff.ImageLength tif] |}.

(** An untiled min-is-white grey-scale file of 16-bit samples. *)
Definition white_tif : Tiff.TIFF :=
  {| Tiff.ImageWidth := 4; Tiff.ImageLength := 4; Tiff.Directories := 1;
     Tiff.IsTiled := false; Tiff.TileWidthTag := 0; Tiff.TileLengthTag := 0;
     Tiff.SamplesPerPixelTag := 1; Tiff.BitsPerSampleTag := 16;
     Tiff.PhotometricTag := Some Tiff.PHOTOMETRIC_MINISWHITE;
     Tiff.OrientationTag := Some Tiff.ORIENTATION_TOPLEFT;
     Tiff.PlanarConfigTag := Tiff.PLANARCONFIG_CONTIG;
     Tiff.CompressionTag := Tiff.COMPRESSION_NONE; Tiff.RowsPerStripTag := 1;
     Tiff.ColorMapTag := None;
     Tiff.Raster := fun r k => (31 * r + k) mod 256 |}.

(** An untiled RGB file of 8-bit samples, 5 x 4 pixels. *)
Definition rgb_tif (orientation : Z) : Tiff.TIFF :=
  {| Tiff.ImageWidth := 5; Tiff.ImageLength := 4; Tiff.Directories := 1;
     Tiff.IsTiled := false; Tiff.TileWidthTag := 0; Tiff.TileLengthTag := 0;
     Tiff.SamplesPerPixelTag := 3; Tiff.BitsPerSampleTag := 8;
     Tiff.PhotometricTag := Some Tiff.PHOTOMETRIC_RGB;
     Tiff.OrientationTag := Some orientation;
     Tiff.PlanarConfigTag := Tiff.PLANARCONFIG_CONTIG;
     Tiff.CompressionTag := Tiff.COMPRESSION_NONE; Tiff.RowsPerStripTag := 1;
     Tiff.ColorMapTag := None;
     Tiff.Raster := fun r k => (31 * r + k) mod 256 |}.

(** Whether a decode ran to its end, and the bytes of the plane; [None]
    when the loops were given too little fuel. *)
Definition outcome_bytes : Type := option (bool * list Z).

(** The scanline decode of the untiled file and the tile decode of the
    tiled one, into memory that holds 0xEE everywhere. *)
Definition scanline_decode (T : Tiff.ScalarType) (tif : Tiff.TIFF) : outcome_bytes :=
  match Tiff.ReadGenericImage 64 T (whole_image_reader tif T) Tiff.InitCache
          (fun _ => 0xEE) 0 (Tiff.ImageLength tif) with
  | Tiff.Done (mem, _) => Some (true, bytes_of mem 0 (Tiff.TIFFScanlineSize tif * Tiff.ImageLength tif))
  | Tiff.Failed (mem, _) => Some (false, bytes_of mem 0 (Tiff.TIFFScanlineSize tif * Tiff.ImageLength tif))
  | Tiff.OutOfFuel => None
  end.

Definition tile_decode (tif : Tiff.TIFF) : outcome_bytes :=
  match Tiff.ReadTiles 64 (Tiff.Initialize tif) (fun _ => 0xEE) with
  | Tiff.Done mem => Some (true, bytes_of mem 0 (Tiff.TIFFScanlineSize tif * Tiff.ImageLength tif))
  | Tiff.Failed mem => Some (false, bytes_of mem 0 (Tiff.TIFFScanlineSize tif * Tiff.ImageLength tif))
  | Tiff.OutOfFuel => None
  end.

(** The rows of a plane of [h] rows of [n] bytes, last row first. *)
Definition mirror_rows (n h : Z) (l : list Z) : list Z :=
  concat (map (fun r => firstn (Z.to_nat n) (skipn (Z.to_nat (n * (h - 1 - Z.of_nat r))) l))
              (seq 0 (Z.to_nat h))).

(** The pixel bytes of a file, row after row as stored. *)
Definition file_bytes (tif : Tiff.TIFF) : list Z :=
  concat (map (fun r => map (fun k => Tiff.Raster tif (Z.of_nat r) (Z.of_nat k))
                            (seq 0 (Z.to_nat (Tiff.TIFFScanlineSize tif))))
              (seq 0 (Z.to_nat (Tiff.ImageLength tif)))).

(** 24 x 24 pixels of 16 bits in 16 x 16 tiles, and the same pixels in rows. *)
Definition tiled16 : Tiff.TIFF := grey_tif true 24 24 16 16 16 Tiff.ORIENTATION_TOPLEFT.
Definition rows16 : Tiff.TIFF := grey_tif false 24 24 16 16 16 Tiff.ORIENTATION_TOPLEFT.

(** 24 x 32 pixels of 8 bits in 16 x 16 tiles (the height is a multiple of
    the tile height, the width is not), stored top-down and bottom-up. *)
Definition tiled_top : Tiff.TIFF := grey_tif true 24 32 16 16 8 Tiff.ORIENTATION_TOPLEFT.
Definition tiled_bot : Tiff.TIFF := grey_tif true 24 32 16 16 8 Tiff.ORIENTATION_BOTLEFT.

(** Both dimensions not a multiple of the tile size, as in the spec's
    example: 24 x 24 pixels of 8 bits in 16 x 16 tiles. *)
Definition tiled8 (orientation : Z) : Tiff.TIFF :=
  grey_tif true 24 24 16 16 8 orientation.
Definition rows8 (orientation : Z) : Tiff.TIFF :=
  grey_tif false 24 24 16 16 8 orientation.

(** 32 x 32 pixels of 8 bits in 16 x 16 tiles, stored bottom-up: both
    dimensions are multiples of the tile size. *)
Definition tiled_even : Tiff.TIFF := grey_tif true 32 32 16 16 8 Tiff.ORIENTATION_BOTLEFT.

(** A 2 x 2 x 1 volume of two arrays, [a] (the active one) and [b], and the
    source made of it. *)
Definition ab_image : DS.vtkImageData :=
  {| DS.Extent := [0; 1; 0; 1; 0; 0];
     DS.Spacing := [0; 0; 0];
     DS.PointData := [byte_array "a" 4 1; byte_array "b" 4 2];
     DS.ActiveScalars := Some O;
     DS.FieldData := no_field_data |}.

Definition ab_source : DS.DataSource := DS.init (Some ab_image) DS.Volume.

(** [small_source] after its unit was set to micrometres. *)
Definition um_source : DS.DataSource := DS.setUnits "um" true small_source.
Definition um_image : DS.vtkImageData :=
  DS.set_FieldData (volume 2 2 1 1 no_field_data)
    (DS.set_units no_field_data (Some ["um"; "um"; "um"]%string)).

(** [small_source] after its array was renamed to [density]. *)
Definition renamed_source : DS.DataSource :=
  DS.set_CurrentToOriginal
    (DS.set_data small_source
       (Some {| DS.Extent := [0; 1; 0; 1; 0; 0];
                DS.Spacing := [0; 0; 0];
                DS.PointData := [byte_array "density" 4 1];
                DS.ActiveScalars := Some O;
                DS.FieldData := no_field_data |}))
    {["density"%string := "ImageScalars"%string]}.

(* ===================================================================== *)
(** ** Vocabulary of the statements *)
(* ===================================================================== *)

(** The tilt-angle invariant of a tilt series: a [tilt_angles] array of as
    many tuples as the image has z-slices. *)
Definition tilt_length_ok (d : DS.vtkImageData) : Prop :=
  exists l, DS.tilt_angles (DS.FieldData d) = Some l
            /\ Z.of_nat (length l) = DS.ext d 5 - DS.ext d 4 + 1.

(** The z-extent is one an [int] count of slices can express. *)
Definition z_extent_ok (d : DS.vtkImageData) : Prop :=
  0 <= DS.ext d 5 - DS.ext d 4 + 1 <= INT_MAX.

(** The state [init] leaves a source with an image in: array names are
    distinct, the rename map tracks the arrays and no other name, and an
    array is active. *)
Definition well_formed (s : DS.DataSource) : Prop :=
  exists d, DS.data s = Some d
            /\ NoDup (DS.names d)
            /\ (forall n, is_Some (DS.CurrentToOriginal s !! n) <-> n ∈ DS.names d)
            /\ is_Some (DS.GetScalars d).

(** Distinct current names have distinct original names. *)
Definition map_injective (m : gmap string string) : Prop :=
  forall c1 c2 o, m !! c1 = Some o -> m !! c2 = Some o -> c1 = c2.

(** Two states with the same document base, rename map, arrays and active
    array. *)
Definition same_arrays (a b : DS.DataSource) : Prop :=
  DS.m_json b = DS.m_json a
  /\ DS.CurrentToOriginal b = DS.CurrentToOriginal a
  /\ option_map DS.PointData (DS.data b) = option_map DS.PointData (DS.data a)
  /\ option_map DS.ActiveScalars (DS.data b) = option_map DS.ActiveScalars (DS.data a).

(** The file row that image row [y] shows: the row itself for a file stored
    top-down, its mirror image otherwise. *)
Definition file_row (tif : Tiff.TIFF) (y : Z) : Z :=
  if default Tiff.ORIENTATION_BOTLEFT (Tiff.OrientationTag tif) =? Tiff.ORIENTATION_TOPLEFT
  then y else Tiff.ImageLength tif - 1 - y.

(** Bytes in one row of the plane, for samples of one byte. *)
Definition row_bytes (tif : Tiff.TIFF) : Z :=
  Tiff.ImageWidth tif * Tiff.SamplesPerPixelTag tif.

(** The byte the decoded plane holds at offset [a]. *)
Definition plane_byte (tif : Tiff.TIFF) (a : Z) : Z :=
  Tiff.Raster tif (file_row tif (a / row_bytes tif)) (a mod row_bytes tif).

(** [vol] holds the decoded byte at every offset that satisfies [S]. *)
Definition correct_on (tif : Tiff.TIFF) (S : Z -> Prop) (vol : buf) : Prop :=
  forall a, S a -> vol a = plane_byte tif a.

(** The offsets of the rows [ylo, yhi), bytes [xlo, xhi) of each. *)
Definition rect (tif : Tiff.TIFF) (ylo yhi xlo xhi : Z) (a : Z) : Prop :=
  0 <= a /\ ylo <= a / row_bytes tif < yhi /\ xlo <= a mod row_bytes tif < xhi.

(** [vol] holds the whole plane of the file, row by row. *)
Definition decoded (tif : Tiff.TIFF) (vol : buf) : Prop :=
  forall y x, 0 <= y < Tiff.ImageLength tif -> 0 <= x < row_bytes tif ->
    vol (y * row_bytes tif + x) = Tiff.Raster tif (file_row tif y) x.

(** The same pixels stored in rows instead of tiles. *)
Definition untiled_twin (tif : Tiff.TIFF) : Tiff.TIFF :=
  {| Tiff.ImageWidth := Tiff.ImageWidth tif;
     Tiff.ImageLength := Tiff.ImageLength tif;
     Tiff.Directories := Tiff.Directories tif;
     Tiff.IsTiled := false;
     Tiff.TileWidthTag := Tiff.TileWidthTag tif;
     Tiff.TileLengthTag := Tiff.TileLengthTag tif;
     Tiff.SamplesPerPixelTag := Tiff.SamplesPerPixelTag tif;
     Tiff.BitsPerSampleTag := Tiff.BitsPerSampleTag tif;
     Tiff.PhotometricTag := Tiff.PhotometricTag tif;
     Tiff.OrientationTag := Tiff.OrientationTag tif;
     Tiff.PlanarConfigTag := Tiff.PlanarConfigTag tif;
     Tiff.CompressionTag := Tiff.CompressionTag tif;
     Tiff.RowsPerStripTag := Tiff.RowsPerStripTag tif;
     Tiff.ColorMapTag := Tiff.ColorMapTag tif;
     Tiff.Raster := Tiff.Raster tif |}.

(** The same file with another orientation tag. *)
Definition reoriented (tif : Tiff.TIFF) (orientation : Z) : Tiff.TIFF :=
  {| Tiff.ImageWidth := Tiff.ImageWidth tif;
     Tiff.ImageLength := Tiff.ImageLength tif;
     Tiff.Directories := Tiff.Directories tif;
     Tiff.IsTiled := Tiff.IsTiled tif;
     Tiff.TileWidthTag := Tiff.TileWidthTag tif;
     Tiff.TileLengthTag := Tiff.TileLengthTag tif;
     Tiff.SamplesPerPixelTag := Tiff.SamplesPerPixelTag tif;
     Tiff.BitsPerSampleTag := Tiff.BitsPerSampleTag tif;
     Tiff.PhotometricTag := Tiff.PhotometricTag tif;
     Tiff.OrientationTag := Some orientation;
     Tiff.PlanarConfigTag := Tiff.PlanarConfigTag tif;
     Tiff.CompressionTag := Tiff.CompressionTag tif;
     Tiff.RowsPerStripTag := Tiff.RowsPerStripTag tif;
     Tiff.ColorMapTag := Tiff.ColorMapTag tif;
     Tiff.Raster := Tiff.Raster tif |}.

(** Whether the orientation tag asks for the rows to be flipped. *)
Definition flipped (tif : Tiff.TIFF) : bool :=
  negb (default Tiff.ORIENTATION_BOTLEFT (Tiff.OrientationTag tif)
        =? Tiff.ORIENTATION_TOPLEFT).



(* ===================================================================== *)
(** * Theorems *)
(* ===================================================================== *)

(** ** Proof steps used throughout *)

(** Projections of the record setters. *)
Ltac ds_simpl :=
  cbn [DS.data DS.Type_ DS.Units DS.UnitsModified DS.DisplayPosition
       DS.DisplayOrientation DS.CurrentToOriginal DS.timeSeriesSteps
       DS.currentTimeStep DS.Operators DS.m_json DS.m_changingTimeStep
       DS.m_transferFunction2DBox
       DS.set_data DS.set_Type DS.set_Units DS.set_Display DS.set_CurrentToOriginal
       DS.set_timeSeries DS.set_json DS.set_box
       DS.Extent DS.Spacing DS.PointData DS.ActiveScalars DS.FieldData
       DS.set_Extent DS.set_Spacing DS.set_PointData DS.set_ActiveScalars
       DS.set_FieldData
       DS.tomviz_data_source_type DS.tilt_angles DS.units
       DS.set_type_tag DS.set_tilt_angles DS.set_units
       option_map option_bind] in *.



(** ** Machine integers and memory *)

Lemma wrap_int_id (x : Z) : - 2 ^ 31 <= x <= INT_MAX -> wrap_int x = x.
Proof.
  unfold wrap_int, wrap_signed, INT_MAX. intros H.
  change (2 ^ (32 - 1)) with 2147483648. change (2 ^ 32) with 4294967296.
  change (2 ^ 31) with 2147483648 in H.
  rewrite Z.mod_small; lia.
Qed.

Lemma u32_id (x : Z) : 0 <= x < 2 ^ 32 -> u32 x = x.
Proof. intros H. unfold u32. apply Z.mod_small. exact H. Qed.

Lemma memcpy_in (dst src : buf) (doff soff n a : Z) :
  doff <= a < doff + n -> memcpy dst doff src soff n a = src (soff + (a - doff)).
Proof.
  intros H. unfold memcpy.
  destruct (Z.leb_spec doff a); destruct (Z.ltb_spec a (doff + n)); simpl; trivial; lia.
Qed.

Lemma memcpy_out (dst src : buf) (doff soff n a : Z) :
  a < doff \/ doff + n <= a -> memcpy dst doff src soff n a = dst a.
Proof.
  intros H. unfold memcpy.
  destruct (Z.leb_spec doff a); destruct (Z.ltb_spec a (doff + n)); simpl; trivial; lia.
Qed.

(** ** C10: the row mapping *)

Lemma GetFileRow_flip (row height : Z) :
  0 <= row < height -> height <= INT_MAX ->
  Tiff.GetFileRow row height Tiff.FlipTrue = height - row - 1.
Proof.
  intros Hr Hh. unfold Tiff.GetFileRow, INT_MAX in *.
  rewrite (wrap_int_id (height - row)) by (unfold INT_MAX; lia).
  apply wrap_int_id. unfold INT_MAX. lia.
Qed.

(** C10. For every row of an image of [height] rows and either flip
    setting, mapping the row to its file row and back gives the row again,
    the file row lies in [0, height), and every row of [0, height) is the
    file row of some row: the mapping is a bijection of [0, height). *)
Theorem GetImageRow_GetFileRow_involution (row height : Z) (flip : Tiff.Flip) :
  0 <= row < height -> height <= INT_MAX ->
  Tiff.GetImageRow (Tiff.GetFileRow row height flip) height flip = row
  /\ 0 <= Tiff.GetFileRow row height flip < height
  /\ (forall r1 r2, 0 <= r1 < height -> 0 <= r2 < height ->
        Tiff.GetFileRow r1 height flip = Tiff.GetFileRow r2 height flip -> r1 = r2)
  /\ exists r, 0 <= r < height /\ Tiff.GetFileRow r height flip = row.
Proof.
  intros Hr Hh. unfold Tiff.GetImageRow. destruct flip.
  - rewrite (GetFileRow_flip row height Hr Hh).
    split; [|split; [|split]].
    + rewrite GetFileRow_flip by lia. lia.
    + lia.
    + intros r1 r2 H1 H2. rewrite !GetFileRow_flip by lia. lia.
    + exists (height - row - 1). split; [lia|]. rewrite GetFileRow_flip by lia. lia.
  - simpl. split; [|split; [|split]].
    + reflexivity.
    + lia.
    + intros r1 r2 _ _ E. exact E.
    + exists row. split; [lia | reflexivity].
Qed.

Lemma GetImageRow_GetFileRow_involution_witness :
  Tiff.GetImageRow (Tiff.GetFileRow 3 100 Tiff.FlipTrue) 100 Tiff.FlipTrue = 3.
Proof.
  refine (proj1 (GetImageRow_GetFileRow_involution 3 100 Tiff.FlipTrue _ _));
    unfold INT_MAX; lia.
Defined.

(** ** C9: EvaluateImageAt on palette colour *)



Lemma sizeof_pos (T : Tiff.ScalarType) : 0 < Tiff.sizeof T.
Proof. destruct T; simpl; lia. Qed.



Lemma store_out (T : Tiff.ScalarType) (mem : buf) (off v a : Z) :
  a < off \/ off + Tiff.sizeof T <= a -> Tiff.store T mem off v a = mem a.
Proof.
  intros H. unfold Tiff.store.
  destruct (Z.leb_spec off a); destruct (Z.ltb_spec a (off + Tiff.sizeof T));
    simpl; trivial; lia.
Qed.





Lemma palette_scan_format (I : Tiff.Internal) (n : nat) : forall (cc : Z) (c : Tiff.Cache),
  Tiff.ImageFormat (snd (Tiff.palette_scan I n cc c)) = fst (Tiff.palette_scan I n cc c)
  /\ (fst (Tiff.palette_scan I n cc c) = Tiff.PALETTE_RGB
      \/ fst (Tiff.palette_scan I n cc c) = Tiff.PALETTE_GRAYSCALE).
Proof.
  induction n as [|n IH]; intros cc c; cbn [Tiff.palette_scan].
  - split; [reflexivity | right; reflexivity].
  - destruct (Tiff.GetColor I c cc) as [[[red green] blue] c1].
    destruct (negb (red =? green) || negb (red =? blue)).
    + split; [reflexivity | left; reflexivity].
    + apply IH.
Qed.

Lemma GetFormat_sets_cache (I : Tiff.Internal) (c : Tiff.Cache) :
  Tiff.ImageFormat (snd (Tiff.GetFormat I c)) = fst (Tiff.GetFormat I c)
  /\ fst (Tiff.GetFormat I c) <> Tiff.NOFORMAT.
Proof.
  unfold Tiff.GetFormat.
  destruct (Tiff.ImageFormat c) eqn:Hf; cbn [Tiff.Format_eqb negb fst snd];
    try (split; [exact Hf | discriminate]).
  destruct (_ || _); [split; [reflexivity | discriminate]|].
  destruct (_ || _); [split; [reflexivity | discriminate]|].
  destruct (_ =? _); [|split; [reflexivity | discriminate]].
  destruct (palette_scan_format I 256 0 c) as [H1 [H2|H2]];
    (split; [exact H1 | rewrite H2; discriminate]).
Qed.







(** ** C8: what serialize writes *)

(** C8 (as amended). serialize puts [spacing] in the document exactly when
    the units were explicitly modified, and [units] exactly when they were
    modified and the source has a units array (the base document holding
    neither key); [origin] and [orientation] are in every document it
    produces. *)
Theorem serialize_spacing_origin_orientation (env : DS.Env) (s : DS.DataSource) :
  DS.m_json s !! "spacing"%string = None ->
  (DS.UnitsModified s = true -> is_Some (DS.data s)) ->
  exists doc,
    DS.serialize env s = Some doc
    /\ (is_Some (doc !! "spacing"%string) <-> DS.UnitsModified s = true)
    /\ doc !! "origin"%string = Some (DS.JDoubles (take 3 (DS.DisplayPosition s)))
    /\ doc !! "orientation"%string
       = Some (DS.JDoubles (take 3 (DS.DisplayOrientation s)))
    /\ (DS.m_json s !! "units"%string = None ->
        (is_Some (doc !! "units"%string)
         <-> DS.UnitsModified s = true /\ is_Some (DS.Units s))).
Proof.
  intros Hj Hd. unfold DS.serialize.
  destruct (DS.UnitsModified s) eqn:Hu.
  - destruct (Hd eq_refl) as [d Hdat]. rewrite Hdat.
    eexists. split; [reflexivity|].
    unfold DS.when.
    repeat match goal with |- context [if ?b then _ else _] => destruct b end;
      destruct (DS.Units s); simplify_map_eq;
      repeat split; try reflexivity; intros;
      try (eexists; reflexivity);
      try (match goal with H : is_Some None |- _ => destruct H; discriminate end);
      try (match goal with H : _ /\ is_Some None |- _ =>
             destruct H as [_ [? ?]]; discriminate end);
      try (match goal with H1 : ?x = None, H2 : is_Some ?x |- _ =>
             rewrite H1 in H2; destruct H2; discriminate end).
  - eexists. split; [reflexivity|].
    unfold DS.when.
    repeat match goal with |- context [if ?b then _ else _] => destruct b end;
      simplify_map_eq; repeat split; try reflexivity;
      try (intros [? ?]; congruence); intros; try congruence;
      try (match goal with H : is_Some None |- _ => destruct H; discriminate end);
      try (match goal with H : false = true /\ _ |- _ => destruct H; discriminate end);
      try (match goal with H1 : ?x = None, H2 : is_Some ?x |- _ =>
             rewrite H1 in H2; destruct H2; discriminate end).
Qed.

Lemma serialize_spacing_origin_orientation_witness :
  exists doc,
    DS.serialize env0 (DS.init (Some (volume 2 2 1 1 no_field_data)) DS.Volume) = Some doc
    /\ doc !! "spacing"%string = None
    /\ is_Some (doc !! "origin"%string).
Proof.
  destruct (serialize_spacing_origin_orientation env0
              (DS.init (Some (volume 2 2 1 1 no_field_data)) DS.Volume)
              eq_refl (fun _ => ltac:(eexists; reflexivity)))
    as (doc & E & [Hs _] & Ho & _).
  exists doc. split; [exact E|]. split.
  - destruct (doc !! "spacing"%string) eqn:F; [|reflexivity].
    specialize (Hs ltac:(eexists; reflexivity)). discriminate Hs.
  - rewrite Ho. eexists; reflexivity.
Defined.

(** C8, as stated, fails: a source whose units were never modified still
    serializes its [origin] and [orientation]. *)
Lemma serialize_origin_counterexample :
  ~ (forall (env : DS.Env) (s : DS.DataSource) (doc : gmap string DS.QJsonValue),
       DS.UnitsModified s = false ->
       DS.serialize env s = Some doc ->
       doc !! "spacing"%string = None /\ doc !! "origin"%string = None
       /\ doc !! "orientation"%string = None).
Proof.
  intros H.
  destruct (H env0 (DS.init None DS.Volume) _ eq_refl eq_refl) as (_ & Hn & _).
  vm_compute in Hn. discriminate Hn.
Qed.

(** ** C3: switchTimeSeriesStep out of range *)

(** An index at or beyond the number of steps is rejected: the state is
    returned as it was, with an IndexOutOfRange diagnostic. *)
Lemma switchTimeSeriesStep_too_large (fresh : list DS.double) (i : Z) (s : DS.DataSource) :
  DS.numTimeSeriesSteps s <= i ->
  DS.switchTimeSeriesStep fresh i s
  = (DS.Ok s, [DS.IndexOutOfRange i (DS.numTimeSeriesSteps s)]).
Proof.
  intros H. unfold DS.switchTimeSeriesStep, DS.numTimeSeriesSteps in *.
  destruct (Z.leb_spec (Z.of_nat (length (DS.timeSeriesSteps s))) i); [reflexivity | lia].
Qed.

(** A negative index passes the range test: the current index is
    overwritten before the list of steps is indexed out of range. *)
Lemma switchTimeSeriesStep_negative (fresh : list DS.double) (i : Z) (s : DS.DataSource) :
  i < 0 ->
  DS.switchTimeSeriesStep fresh i s
  = (DS.Fault (DS.set_timeSeries s (DS.timeSeriesSteps s) i true), []).
Proof.
  intros H. unfold DS.switchTimeSeriesStep.
  destruct (Z.leb_spec (Z.of_nat (length (DS.timeSeriesSteps s))) i); [lia|].
  cbn [DS.timeSeriesSteps DS.set_timeSeries]. unfold DS.QList_at.
  destruct (Z.ltb_spec i 0); [reflexivity | lia].
Qed.

(** C3 at i = -1, on a source with two time steps showing step 0: no
    diagnostic is reported, the current index becomes -1 and the
    time-step flag stays set when the steps are indexed out of range. *)
Theorem switchTimeSeriesStep_minus_one (fresh : list DS.double) :
  DS.currentTimeSeriesIndex two_steps = 0
  /\ DS.numTimeSeriesSteps two_steps = 2
  /\ exists s',
       DS.switchTimeSeriesStep fresh (-1) two_steps = (DS.Fault s', [])
       /\ DS.currentTimeSeriesIndex s' = -1
       /\ DS.m_changingTimeStep s' = true.
Proof.
  split; [reflexivity|]. split; [reflexivity|].
  eexists. split.
  - apply switchTimeSeriesStep_negative. lia.
  - split; reflexivity.
Qed.

(** ** C4: appendSlice *)

(** A slice whose x/y extent differs is rejected: [false] is returned, the
    source is as it was, and the mismatch is reported. *)
Lemma appendSlice_mismatch (fresh_scalars : buf) (slice d : DS.vtkImageData)
    (s : DS.DataSource) (a b : Z) :
  DS.data s = Some d ->
  DS.first_mismatch (DS.Extent d) (DS.Extent slice) = Some (a, b) ->
  DS.appendSlice fresh_scalars (Some slice) s
  = (DS.Ok (false, s), [DS.ExtentMismatch a b]).
Proof.
  intros Hd Hm. unfold DS.appendSlice. rewrite Hd, Hm. reflexivity.
Qed.

(** C4 on a 4 GiB volume (1024^3 voxels of 4 bytes) and a matching slice:
    the byte count of the old voxels, kept in an [int], is 0, so none of
    them is copied into the reallocated scalars; the first old voxel byte
    is whatever the allocator left there. *)
Theorem appendSlice_large_volume (fresh_scalars : buf) :
  match DS.appendSlice fresh_scalars (Some (big_volume 1 9)) big_source with
  | (DS.Ok (true, s'), []) =>
      match DS.data big_source, DS.data s' with
      | Some d, Some d' =>
          DS.Extent d = [0; 1023; 0; 1023; 0; 1023]
          /\ DS.Extent d' = [0; 1023; 0; 1023; 0; 1024]
          /\ option_map (fun a => DS.Values a 0) (DS.GetScalars d) = Some 7
          /\ option_map (fun a => DS.Values a 0) (DS.GetScalars d')
             = Some (fresh_scalars 0)
      | _, _ => False
      end
  | _ => False
  end.
Proof. vm_compute. repeat split; reflexivity. Qed.

(** X12. For a volume anchored at x = 0, y = 0 whose voxel data stay below 2 GiB
    and a one-layer slice of the same x/y extent and scalar layout,
    appendSlice returns true, grows the z-extent by one, keeps every old
    voxel byte and puts the bytes of the slice after them. *)
Lemma appendSlice_appends (fresh_scalars : buf) (s : DS.DataSource)
    (d slice : DS.vtkImageData) (a sa : DS.vtkDataArray) (idx : nat)
    (x1 y1 z0 z1 sz : Z) :
  DS.data s = Some d ->
  DS.ActiveScalars d = Some idx -> DS.PointData d !! idx = Some a ->
  DS.Extent d = [0; x1; 0; y1; z0; z1] ->
  0 <= x1 -> 0 <= y1 -> - 2 ^ 31 <= z0 <= z1 -> z1 < INT_MAX ->
  DS.NumberOfTuples a = DS.voxel_count (DS.Extent d) ->
  0 < DS.NumberOfComponents a -> 0 < DS.ElemSize a ->
  DS.Extent slice = [0; x1; 0; y1; sz; sz] ->
  DS.GetScalars slice = Some sa ->
  DS.NumberOfTuples sa = (x1 + 1) * (y1 + 1) ->
  DS.NumberOfComponents sa = DS.NumberOfComponents a ->
  DS.ElemSize sa = DS.ElemSize a ->
  DS.array_bytes a + DS.array_bytes sa < 2 ^ 31 ->
  exists d' a',
    DS.appendSlice fresh_scalars (Some slice) s
    = (DS.Ok (true, DS.set_data s (Some d')), [])
    /\ DS.Extent d' = [0; x1; 0; y1; z0; z1 + 1]
    /\ DS.ActiveScalars d' = Some idx
    /\ DS.PointData d' !! idx = Some a'
    /\ DS.Name a' = DS.Name a
    /\ DS.NumberOfTuples a' = DS.voxel_count (DS.Extent d')
    /\ (forall k, 0 <= k < DS.array_bytes a -> DS.Values a' k = DS.Values a k)
    /\ (forall k, 0 <= k < DS.array_bytes sa ->
          DS.Values a' (DS.array_bytes a + k) = DS.Values sa k).
Proof.
  intros Hd Hact Ha He Hx Hy Hz Hmax Hn Hc Hs Hse Hsa Hsn Hsc Hss Hsmall.
  unfold INT_MAX in Hmax.
  set (N := (x1 + 1) * (y1 + 1)) in *.
  set (L := z1 - z0 + 1).
  set (c := DS.NumberOfComponents a) in *. set (e := DS.ElemSize a) in *.
  assert (HN : 0 < N) by (subst N; apply Z.mul_pos_pos; lia).
  assert (Hvc : DS.voxel_count (DS.Extent d) = N * L).
  { rewrite He. unfold DS.voxel_count. cbn [nth].
    destruct (Z.leb_spec (x1 - 0 + 1) 0); [lia|].
    destruct (Z.leb_spec (y1 - 0 + 1) 0); [lia|].
    destruct (Z.leb_spec (z1 - z0 + 1) 0); [lia|]. cbn [orb]. subst N L. ring. }
  assert (Hvc' : DS.voxel_count [0; x1; 0; y1; z0; z1 + 1] = N * (L + 1)).
  { unfold DS.voxel_count. cbn [nth].
    destruct (Z.leb_spec (x1 - 0 + 1) 0); [lia|].
    destruct (Z.leb_spec (y1 - 0 + 1) 0); [lia|].
    destruct (Z.leb_spec (z1 + 1 - z0 + 1) 0); [lia|]. cbn [orb]. subst N L. ring. }
  assert (Hab : DS.array_bytes a = N * L * c * e).
  { unfold DS.array_bytes. rewrite Hn, Hvc. reflexivity. }
  assert (Hsb : DS.array_bytes sa = N * c * e).
  { unfold DS.array_bytes. rewrite Hsn, Hsc, Hss. reflexivity. }
  assert (HL : 0 < L) by (subst L; lia).
  assert (Hab0 : 0 < N * L * c * e) by (repeat apply Z.mul_pos_pos; lia).
  assert (Hsb0 : 0 < N * c * e) by (repeat apply Z.mul_pos_pos; lia).
  assert (Hsum : N * (L + 1) * c * e = N * L * c * e + N * c * e) by ring.
  rewrite Hab, Hsb in Hsmall.
  unfold DS.appendSlice. rewrite Hd.
  assert (Hfm : DS.first_mismatch (DS.Extent d) (DS.Extent slice) = None).
  { rewrite He, Hse. unfold DS.first_mismatch. cbn [seq map nth fst snd].
    cbn [filter list_filter]. rewrite !Z.eqb_refl. reflexivity. }
  rewrite Hfm.
  unfold DS.appendImageData, DS.GetScalars at 1. rewrite Hact, Ha.
  fold c e. rewrite Hn, Hvc.
  rewrite (wrap_int_id (N * L * c * e)) by (unfold INT_MAX; lia).
  destruct (Z.ltb_spec (N * L * c * e) 0); [lia|].
  rewrite He. cbn [nth]. rewrite (wrap_int_id (z1 + 1)) by (unfold INT_MAX; lia).
  change (<[5%nat := z1 + 1]> [0; x1; 0; y1; z0; z1]) with [0; x1; 0; y1; z0; z1 + 1].
  ds_simpl. cbn [DS.set_Values DS.NumberOfTuples DS.NumberOfComponents DS.ElemSize].
  unfold DS.array_bytes at 1.
  cbn [DS.set_Values DS.NumberOfTuples DS.NumberOfComponents DS.ElemSize].
  rewrite Hvc'. fold c e.
  destruct (Z.ltb_spec (N * (L + 1) * c * e) (N * L * c * e)); [lia|].
  unfold DS.GetScalarPointer. ds_simpl. cbn [nth].
  cbn [DS.set_Values DS.NumberOfTuples DS.NumberOfComponents DS.ElemSize].
  replace ((0 <=? 0) && (0 <=? x1) && (0 <=? 0) && (0 <=? y1)
           && (z0 <=? z1 + 1) && (z1 + 1 <=? z1 + 1)) with true.
  2:{ symmetry. repeat (apply andb_true_iff; split); apply Z.leb_le; lia. }
  rewrite Hsa. rewrite ?Hsn, ?Hsc, ?Hss. fold N c e.
  rewrite (wrap_int_id (N * c * e)) by (unfold INT_MAX; lia).
  unfold DS.array_bytes.
  cbn [DS.set_Values DS.NumberOfTuples DS.NumberOfComponents DS.ElemSize].
  rewrite ?Hsn, ?Hsc, ?Hss. fold N c e.
  set (ptr := ((z1 + 1 - z0) * (y1 - 0 + 1) + (0 - 0)) * (x1 - 0 + 1) + (0 - 0)).
  assert (Hptr : ptr * c * e = N * L * c * e).
  { subst ptr N L. ring. }
  rewrite Hptr.
  destruct (Z.ltb_spec (N * c * e) 0); [lia|].
  destruct (Z.ltb_spec (N * c * e) (N * c * e)); [lia|].
  destruct (Z.ltb_spec (N * (L + 1) * c * e) (N * L * c * e + N * c * e)); [lia|].
  cbn [orb].
  eexists. eexists. split; [reflexivity|]. ds_simpl.
  split; [reflexivity|]. split; [exact Hact|].
  assert (Hi : (idx < length (DS.PointData d))%nat) by (eapply lookup_lt_Some; exact Ha).
  split.
  { rewrite !list_insert_insert_eq. apply list_lookup_insert_eq. exact Hi. }
  cbn [DS.set_Values DS.Name DS.NumberOfTuples DS.Values].
  split; [reflexivity|]. split; [symmetry; exact Hvc'|]. split.
  - intros k Hk. rewrite memcpy_out by lia. rewrite memcpy_in by lia.
    rewrite memcpy_in by lia. f_equal. lia.
  - intros k Hk. rewrite memcpy_in by lia. f_equal. lia.
Qed.

(** ** C7: the tilt-angle array and the z-extent *)

Lemma SetNumberOfTuples_length (fresh : list DS.double) (n : Z) (l : list DS.double) :
  length (DS.SetNumberOfTuples fresh n l) = Z.to_nat n.
Proof.
  unfold DS.SetNumberOfTuples.
  destruct (Nat.leb_spec (Z.to_nat n) (length l)).
  - rewrite length_take. lia.
  - rewrite length_take, length_app, repeat_length. lia.
Qed.

(** A shrinking array keeps its leading values. *)
Lemma SetNumberOfTuples_shrink (fresh : list DS.double) (n : Z) (l : list DS.double) :
  (Z.to_nat n <= length l)%nat ->
  DS.SetNumberOfTuples fresh n l = take (Z.to_nat n) l.
Proof.
  intros H. unfold DS.SetNumberOfTuples.
  destruct (Nat.leb_spec (Z.to_nat n) (length l)); [reflexivity | lia].
Qed.

Lemma createOrResize_Extent (fresh : list DS.double) (d : DS.vtkImageData) :
  DS.Extent (DS.createOrResizeTiltAnglesArray fresh d) = DS.Extent d.
Proof.
  unfold DS.createOrResizeTiltAnglesArray.
  destruct (DS.tilt_angles (DS.FieldData d)); [|reflexivity].
  destruct (negb _); reflexivity.
Qed.

Lemma createOrResize_tilt_length (fresh : list DS.double) (d : DS.vtkImageData) :
  z_extent_ok d -> tilt_length_ok (DS.createOrResizeTiltAnglesArray fresh d).
Proof.
  unfold z_extent_ok, tilt_length_ok. intros Hz.
  unfold DS.ext. rewrite createOrResize_Extent. fold (DS.ext d 5) (DS.ext d 4).
  unfold DS.createOrResizeTiltAnglesArray.
  rewrite (wrap_int_id (DS.ext d 5 - DS.ext d 4 + 1)) by (unfold INT_MAX in *; lia).
  destruct (DS.tilt_angles (DS.FieldData d)) as [array|] eqn:Ht.
  - destruct (Z.eqb_spec (DS.ext d 5 - DS.ext d 4 + 1) (Z.of_nat (length array))); cbn [negb].
    + exists array. split; [exact Ht | lia].
    + eexists. split; [reflexivity|]. rewrite SetNumberOfTuples_length. lia.
  - eexists. split; [reflexivity|]. rewrite repeat_length. lia.
Qed.

(** setType(TiltSeries) leaves a tilt-angle array of the length of the
    z-extent, and the type TiltSeries. *)
Lemma setType_TiltSeries_invariant (fresh : list DS.double) (s : DS.DataSource)
    (d : DS.vtkImageData) :
  DS.data s = Some d -> z_extent_ok d ->
  exists s' d',
    DS.setType fresh DS.TiltSeries s = DS.Ok s'
    /\ DS.data s' = Some d' /\ DS.Extent d' = DS.Extent d
    /\ DS.Type_ s' = DS.TiltSeries /\ tilt_length_ok d'.
Proof.
  intros Hd Hz. unfold DS.setType. cbn [Z.eqb DS.TiltSeries Pos.eqb].
  unfold DS.ensureTiltAnglesArrayExists. cbn [DS.data DS.set_data DS.set_Type].
  rewrite Hd. cbn [DS.setType_image Z.eqb DS.TiltSeries Pos.eqb negb].
  eexists. eexists. split; [reflexivity|]. cbn [DS.data DS.set_data].
  split; [reflexivity|]. split; [rewrite createOrResize_Extent; reflexivity|].
  split; [reflexivity|].
  apply createOrResize_tilt_length. exact Hz.
Qed.

Lemma overwrite_prefix_length (angles l : list DS.double) :
  length (DS.overwrite_prefix angles l) = length l.
Proof.
  revert l. induction angles as [|a angles IH]; intros [|x l]; simpl; auto.
Qed.

(** setTiltAngles leaves a tilt-angle array of the length of the z-extent. *)
Lemma setTiltAngles_invariant (fresh angles : list DS.double) (s : DS.DataSource)
    (d : DS.vtkImageData) :
  DS.data s = Some d -> z_extent_ok d ->
  exists s' d',
    DS.setTiltAngles fresh angles s = DS.Ok s'
    /\ DS.data s' = Some d' /\ DS.Extent d' = DS.Extent d /\ tilt_length_ok d'.
Proof.
  intros Hd Hz. unfold DS.setTiltAngles. rewrite Hd.
  eexists. eexists. split; [reflexivity|]. cbn [DS.data DS.set_data].
  split; [reflexivity|].
  unfold DS.setTiltAngles_image.
  destruct (createOrResize_tilt_length fresh d Hz) as (l & Hl & Hlen).
  rewrite Hl. split.
  - cbn [DS.Extent DS.set_FieldData]. apply createOrResize_Extent.
  - exists (DS.overwrite_prefix angles l). split; [reflexivity|].
    rewrite overwrite_prefix_length.
    unfold DS.ext in *. cbn [DS.Extent DS.set_FieldData]. exact Hlen.
Qed.

(** setData with an image tagged TiltSeries leaves the type TiltSeries and
    a tilt-angle array of the length of the z-extent. *)
Lemma setData_TiltSeries_invariant (fresh : list DS.double) (s : DS.DataSource)
    (newData : DS.vtkImageData) :
  DS.tomviz_data_source_type (DS.FieldData newData) = Some DS.TiltSeries ->
  z_extent_ok newData ->
  exists s' d',
    DS.setData fresh newData s = DS.Ok s'
    /\ DS.data s' = Some d' /\ DS.Extent d' = DS.Extent newData
    /\ DS.Type_ s' = DS.TiltSeries /\ tilt_length_ok d'.
Proof.
  intros Ht Hz. unfold DS.setData. cbn [DS.data DS.set_data]. rewrite Ht.
  cbn [Z.eqb DS.TiltSeries Pos.eqb].
  unfold DS.ensureTiltAnglesArrayExists at 1. cbn [DS.data DS.set_data DS.rbind].
  set (d1 := DS.createOrResizeTiltAnglesArray fresh newData).
  assert (He1 : DS.Extent d1 = DS.Extent newData) by apply createOrResize_Extent.
  set (s1 := match _ with Some u => _ | None => _ end).
  set (s2 := DS.set_CurrentToOriginal _ _).
  assert (exists d2, DS.data s2 = Some d2 /\ DS.Extent d2 = DS.Extent newData
                     /\ DS.tomviz_data_source_type (DS.FieldData d2) = Some DS.TiltSeries)
    as (d2 & Hd2 & He2 & Ht2).
  { subst s2 s1. ds_simpl.
    destruct (DS.units (DS.FieldData d1)); [|destruct (DS.Units s)]; ds_simpl;
      (eexists; split; [reflexivity|]; split; [exact He1 | reflexivity]). }
  unfold DS.dataModified. rewrite Hd2, Ht2.
  destruct (setType_TiltSeries_invariant fresh s2 d2 Hd2) as (s' & d' & E & Hd' & He' & Ty & Hl).
  { unfold z_extent_ok, DS.ext in *. rewrite He2. exact Hz. }
  exists s', d'. split; [exact E|]. split; [exact Hd'|].
  split; [congruence|]. split; assumption.
Qed.

(** C7 on a 2 x 2 x 1 tilt series with one tilt angle: after a matching
    slice is appended the source is still a tilt series, its z-extent has
    two slices, and its tilt-angle array still has one tuple. *)
Theorem appendSlice_breaks_tilt_invariant (fresh_scalars : buf) :
  match DS.appendSlice fresh_scalars (Some (volume 2 2 1 5 no_field_data)) tilt_source with
  | (DS.Ok (true, s'), []) =>
      match DS.data s' with
      | Some d' =>
          DS.Type_ s' = DS.TiltSeries
          /\ DS.ext d' 5 - DS.ext d' 4 + 1 = 2
          /\ option_map (@length DS.double) (DS.tilt_angles (DS.FieldData d')) = Some 1%nat
      | None => False
      end
  | _ => False
  end.
Proof. vm_compute. repeat split; reflexivity. Qed.

(** ** C6: renaming a scalars array and renaming it back *)

Lemma find_array_Some (n : string) (l : list DS.vtkDataArray) (i : nat) :
  DS.find_array n l = Some i -> exists x, l !! i = Some x /\ DS.Name x = n.
Proof.
  revert i. induction l as [|x l IH]; intros i H; [discriminate|].
  cbn [DS.find_array] in H.
  destruct (String.eqb_spec (DS.Name x) n) as [E|E].
  - inversion H; subst. exists x. split; reflexivity.
  - destruct (DS.find_array n l) as [j|]; [|discriminate].
    inversion H; subst. destruct (IH j eq_refl) as (y & Hy & Hn).
    exists y. split; assumption.
Qed.

Lemma find_array_None (n : string) (l : list DS.vtkDataArray) :
  DS.find_array n l = None <-> n ∉ map DS.Name l.
Proof.
  induction l as [|x l IH]; cbn [DS.find_array map].
  - split; [intros _; apply not_elem_of_nil | reflexivity].
  - destruct (String.eqb_spec (DS.Name x) n) as [E|E].
    + split; [discriminate|]. intros H. exfalso. apply H. subst. apply elem_of_cons. auto.
    + rewrite not_elem_of_cons. destruct (DS.find_array n l); cbn [option_map].
      * split; [discriminate|]. intros [_ H]. apply IH in H. discriminate.
      * split; [|reflexivity]. intros _. split; [congruence|]. apply IH. reflexivity.
Qed.

Lemma find_array_elem (n : string) (l : list DS.vtkDataArray) :
  n ∈ map DS.Name l -> exists i, DS.find_array n l = Some i.
Proof.
  intros H. destruct (DS.find_array n l) as [i|] eqn:E; [eauto|].
  apply find_array_None in E. contradiction.
Qed.

Lemma find_array_NoDup (l : list DS.vtkDataArray) (i : nat) (x : DS.vtkDataArray) :
  NoDup (map DS.Name l) -> l !! i = Some x -> DS.find_array (DS.Name x) l = Some i.
Proof.
  revert i. induction l as [|y l IH]; intros i Hnd Hi; [discriminate|].
  cbn [map] in Hnd. apply NoDup_cons in Hnd as [Hy Hnd].
  cbn [DS.find_array]. destruct i as [|i]; cbn in Hi.
  - inversion Hi; subst. rewrite String.eqb_refl. reflexivity.
  - destruct (String.eqb_spec (DS.Name y) (DS.Name x)) as [E|E].
    + exfalso. apply Hy. rewrite E. apply list_elem_of_fmap. exists x.
      split; [reflexivity|]. eapply list_elem_of_lookup_2. exact Hi.
    + rewrite (IH i Hnd Hi). reflexivity.
Qed.

Lemma names_alter (b : string) (i : nat) (l : list DS.vtkDataArray) :
  map DS.Name (alter (fun a => DS.rename_array a b) i l)
  = alter (fun _ => b) i (map DS.Name l).
Proof.
  revert i. induction l as [|x l IH]; intros [|i]; cbn; try reflexivity.
  f_equal. apply IH.
Qed.

(** Renaming position [i] to a name nobody has makes [i] the array of that
    name. *)
Lemma find_array_alter_new (b : string) (i : nat) (l : list DS.vtkDataArray) :
  DS.find_array b l = None -> (i < length l)%nat ->
  DS.find_array b (alter (fun a => DS.rename_array a b) i l) = Some i.
Proof.
  revert i. induction l as [|x l IH]; intros i Hn Hi; [cbn in Hi; lia|].
  cbn [DS.find_array] in Hn.
  destruct (String.eqb_spec (DS.Name x) b) as [E|E]; [discriminate|].
  destruct (DS.find_array b l) eqn:F; [discriminate|].
  destruct i as [|i]; cbn.
  - rewrite String.eqb_refl. reflexivity.
  - destruct (String.eqb_spec (DS.Name x) b); [contradiction|].
    change (list_alter ?f i l) with (alter f i l).
    rewrite IH; [reflexivity | reflexivity | cbn in Hi; lia].
Qed.


(** dataModified touches the field data and the type only. *)
Lemma dataModified_frame (fresh : list DS.double) (s : DS.DataSource)
    (d : DS.vtkImageData) :
  DS.data s = Some d ->
  exists s' d',
    DS.dataModified fresh s = DS.Ok s'
    /\ DS.data s' = Some d'
    /\ DS.PointData d' = DS.PointData d
    /\ DS.ActiveScalars d' = DS.ActiveScalars d
    /\ DS.Extent d' = DS.Extent d
    /\ DS.CurrentToOriginal s' = DS.CurrentToOriginal s
    /\ DS.m_json s' = DS.m_json s.
Proof.
  intros Hd. unfold DS.dataModified. rewrite Hd.
  destruct (DS.tomviz_data_source_type (DS.FieldData d)) as [t|].
  - unfold DS.setType, DS.ensureTiltAnglesArrayExists. ds_simpl. rewrite Hd.
    unfold DS.setType_image, DS.clearTiltAngles.
    destruct (t =? DS.TiltSeries); cbn [negb]; ds_simpl.
    + eexists. eexists. split; [reflexivity|]. ds_simpl. split; [reflexivity|].
      unfold DS.createOrResizeTiltAnglesArray. ds_simpl.
      destruct (DS.tilt_angles (DS.FieldData d)); [destruct (negb _)|];
        repeat split; reflexivity.
    + eexists. eexists. split; [reflexivity|]. ds_simpl. repeat split; reflexivity.
  - eexists. eexists. split; [reflexivity|]. ds_simpl. repeat split; reflexivity.
Qed.

(** What one accepted rename does. *)
Lemma renameScalarsArray_step (fresh : list DS.double) (s : DS.DataSource)
    (d : DS.vtkImageData) (a b : string) (i : nat) :
  DS.data s = Some d -> a <> b ->
  DS.find_array a (DS.PointData d) = Some i ->
  DS.find_array b (DS.PointData d) = None ->
  exists s1 d1,
    DS.renameScalarsArray fresh a b s = DS.Ok s1
    /\ DS.data s1 = Some d1
    /\ DS.PointData d1 = alter (fun x => DS.rename_array x b) i (DS.PointData d)
    /\ DS.ActiveScalars d1
       = (if String.eqb a (DS.activeScalars s) then Some i else DS.ActiveScalars d)
    /\ DS.CurrentToOriginal s1
       = <[b := default EmptyString (DS.CurrentToOriginal s !! a)]>
           (delete a (DS.CurrentToOriginal s))
    /\ DS.m_json s1 = DS.m_json s.
Proof.
  intros Hd Hab Ha Hb. unfold DS.renameScalarsArray.
  destruct (String.eqb_spec a b) as [E|_]; [contradiction|].
  unfold DS.getScalarsArray. rewrite Hd, Ha, Hb. ds_simpl.
  assert (Hi : (i < length (DS.PointData d))%nat).
  { destruct (find_array_Some _ _ _ Ha) as (x & Hx & _).
    eapply lookup_lt_Some. exact Hx. }
  destruct (String.eqb a (DS.activeScalars s)).
  - unfold DS.setActiveScalars, DS.getScalarsArray. ds_simpl.
    rewrite (find_array_alter_new b i _ Hb Hi). ds_simpl. cbn [fst].
    match goal with
    | |- context [DS.dataModified fresh ?st] =>
        destruct (dataModified_frame fresh st _ eq_refl)
          as (s' & d' & E & Hd' & Hp & Hact & _ & Hm & Hj)
    end.
    rewrite E. cbn [DS.rbind]. ds_simpl.
    eexists. eexists. split; [reflexivity|]. ds_simpl.
    split; [exact Hd'|]. split; [exact Hp|]. split; [exact Hact|].
    rewrite Hm. split; [reflexivity | exact Hj].
  - match goal with
    | |- context [DS.dataModified fresh ?st] =>
        destruct (dataModified_frame fresh st _ eq_refl)
          as (s' & d' & E & Hd' & Hp & Hact & _ & Hm & Hj)
    end.
    rewrite E. cbn [DS.rbind]. ds_simpl.
    eexists. eexists. split; [reflexivity|]. ds_simpl.
    split; [exact Hd'|]. split; [exact Hp|]. split; [exact Hact|].
    rewrite Hm. split; [reflexivity | exact Hj].
Qed.



Lemma track_names_lookup (l : list string) : forall (m : gmap string string) (k : string),
  foldl (fun m name => <[name := name]> m) m l !! k
  = if decide (k ∈ l) then Some k else m !! k.
Proof.
  induction l as [|n l IH]; intros m k; cbn [foldl].
  - destruct (decide (k ∈ [])) as [H|_]; [|reflexivity]. inversion H.
  - rewrite IH. destruct (decide (k ∈ l)) as [H|H].
    + rewrite decide_True; [reflexivity | apply elem_of_cons; auto].
    + destruct (decide (n = k)) as [->|Hn].
      * rewrite lookup_insert_eq. rewrite decide_True; [reflexivity | apply elem_of_cons; auto].
      * rewrite lookup_insert_ne by exact Hn.
        rewrite decide_False; [reflexivity|].
        rewrite elem_of_cons. intros [E|E]; [congruence | contradiction].
Qed.

(** [init] on an image with distinctly named arrays gives a well-formed
    source. *)
Lemma init_well_formed (img : DS.vtkImageData) (t : Z) :
  NoDup (DS.names img) -> DS.PointData img <> [] ->
  (forall i, DS.ActiveScalars img = Some i -> (i < length (DS.PointData img))%nat) ->
  well_formed (DS.init (Some img) t).
Proof.
  intros Hnd Hne Hact. unfold DS.init, DS.ensureActiveArray. ds_simpl.
  destruct (DS.GetScalars img) as [x|] eqn:Hg.
  - exists img. ds_simpl. split; [reflexivity|]. split; [exact Hnd|].
    split; [|rewrite Hg; eexists; reflexivity].
    intros n. unfold DS.listScalars, DS.track_names. ds_simpl.
    rewrite track_names_lookup, lookup_empty.
    destruct (decide (n ∈ DS.names img)); split; intros H; auto.
    + destruct H; discriminate.
    + contradiction.
  - destruct (DS.PointData img) as [|y pd] eqn:Hp; [contradiction|].
    eexists. ds_simpl. split; [reflexivity|].
    unfold DS.names. ds_simpl. rewrite Hp.
    split; [unfold DS.names in Hnd; rewrite Hp in Hnd; exact Hnd|].
    split; [|unfold DS.GetScalars; ds_simpl; rewrite Hp; eexists; reflexivity].
    intros n. unfold DS.listScalars, DS.track_names, DS.names. ds_simpl. rewrite Hp.
    rewrite track_names_lookup, lookup_empty.
    destruct (decide (n ∈ map DS.Name (y :: pd))); split; intros H; auto.
    + destruct H; discriminate.
    + contradiction.
Qed.



(** ** C5: serialize, then deserialize *)

Lemma insert_sorted_perm (kv : string * string) (l : list (string * string)) :
  DS.insert_sorted kv l ≡ₚ kv :: l.
Proof.
  induction l as [|x l IH]; cbn [DS.insert_sorted]; [reflexivity|].
  destruct (String.leb (fst kv) (fst x)); [reflexivity|].
  rewrite IH. apply Permutation_swap.
Qed.

Lemma sort_by_key_perm (l : list (string * string)) : DS.sort_by_key l ≡ₚ l.
Proof.
  induction l as [|x l IH]; cbn; [reflexivity|].
  rewrite insert_sorted_perm. fold (DS.sort_by_key l). rewrite IH. reflexivity.
Qed.

Lemma elem_of_items (m : gmap string string) (k v : string) :
  (k, v) ∈ DS.items m <-> m !! k = Some v.
Proof.
  unfold DS.items. rewrite sort_by_key_perm. apply elem_of_map_to_list.
Qed.

Lemma NoDup_items_fst (m : gmap string string) : NoDup (DS.items m).*1.
Proof.
  unfold DS.items. rewrite sort_by_key_perm. apply NoDup_fst_map_to_list.
Qed.

(** Inserting the swapped pairs of a list, one after the other. *)
Lemma foldl_invert (l : list (string * string)) :
  forall (acc : gmap string string) (o c : string),
  NoDup l.*2 ->
  foldl (fun (a : gmap string string) (kv : string * string) => <[snd kv := fst kv]> a)
        acc l !! o = Some c
  <-> ((c, o) ∈ l \/ (~ o ∈ l.*2 /\ acc !! o = Some c)).
Proof.
  induction l as [|[k v] l IH]; intros acc o c Hnd; cbn [foldl fmap list_fmap fst snd].
  - split; [intros H; right; split; [apply not_elem_of_nil | exact H]|].
    intros [H|[_ H]]; [inversion H | exact H].
  - cbn in Hnd. apply NoDup_cons in Hnd as [Hv Hnd].
    rewrite IH by exact Hnd. rewrite elem_of_cons, not_elem_of_cons.
    destruct (decide (v = o)) as [->|Hvo].
    + rewrite lookup_insert_eq. split.
      * intros [H|[_ H]].
        -- exfalso. apply Hv. apply list_elem_of_fmap. exists (c, o). auto.
        -- inversion H; subst. left. left. reflexivity.
      * intros [[H|H]|[[H _] _]].
        -- inversion H; subst. right. split; [exact Hv | reflexivity].
        -- exfalso. apply Hv. apply list_elem_of_fmap. exists (c, o). auto.
        -- congruence.
    + rewrite lookup_insert_ne by exact Hvo. split.
      * intros [H|[H1 H2]]; [left; right; exact H | right; split; [split|]; auto].
      * intros [[H|H]|[[_ H1] H2]]; [inversion H; congruence | left; exact H | right; auto].
Qed.

Lemma NoDup_items_snd (m : gmap string string) :
  map_injective m -> NoDup (DS.items m).*2.
Proof.
  intros Hinj. apply NoDup_fmap_2_strong; [|eapply NoDup_fmap_1; apply NoDup_items_fst].
  intros [k1 v1] [k2 v2] H1 H2 E. cbn in E. subst v2.
  apply elem_of_items in H1, H2. f_equal. eapply Hinj; eauto.
Qed.

Lemma elem_of_alter_const (c o : string) (l : list string) (i : nat) :
  NoDup l -> l !! i = Some o ->
  forall n, n ∈ alter (fun _ => c) i l <-> n = c \/ (n ∈ l /\ n <> o).
Proof.
  revert i. induction l as [|x l IH]; intros i Hnd Hi n; [discriminate|].
  apply NoDup_cons in Hnd as [Hx Hnd].
  destruct i as [|i]; cbn in Hi |- *.
  - inversion Hi; subst x. rewrite !elem_of_cons. split.
    + intros [H|H]; [left; exact H | right; split; [right; exact H|]].
      intros ->. contradiction.
    + intros [H|[[H|H] Hn]]; [left; exact H | contradiction | right; exact H].
  - change (list_alter ?f i l) with (alter f i l).
    rewrite !elem_of_cons, (IH i Hnd Hi). split.
    + intros [H|[H|[H Hn]]]; [|left; exact H | right; split; [right; exact H | exact Hn]].
      right. split; [left; exact H|]. intros ->. subst x.
      apply Hx. eapply list_elem_of_lookup_2. exact Hi.
    + intros [H|[[H|H] Hn]]; [right; left; exact H | left; exact H | right; right; auto].
Qed.

Lemma NoDup_alter_const (c : string) (l : list string) (i : nat) :
  NoDup l -> ~ c ∈ l -> NoDup (alter (fun _ => c) i l).
Proof.
  revert i. induction l as [|x l IH]; intros i Hnd Hc; [constructor|].
  apply NoDup_cons in Hnd as [Hx Hnd]. apply not_elem_of_cons in Hc as [Hcx Hc].
  destruct i as [|i]; cbn.
  - apply NoDup_cons. split; assumption.
  - change (list_alter ?f i l) with (alter f i l).
    apply NoDup_cons. split; [|apply IH; assumption].
    intros Hin. apply list_elem_of_lookup in Hin as [j Hj].
    destruct (decide (i = j)) as [->|Hij].
    + rewrite list_lookup_alter_eq in Hj. destruct (l !! j); cbn in Hj; congruence.
    + rewrite list_lookup_alter_ne in Hj by exact Hij.
      apply Hx. eapply list_elem_of_lookup_2. exact Hj.
Qed.

(** An accepted rename keeps a source well formed, moves the name in the
    list of arrays and moves the entry of the rename map. *)
Lemma renameScalarsArray_well_formed (fresh : list DS.double) (t : DS.DataSource)
    (o c : string) :
  well_formed t -> o ∈ DS.listScalars t -> ~ c ∈ DS.listScalars t ->
  exists t1,
    DS.renameScalarsArray fresh o c t = DS.Ok t1
    /\ well_formed t1
    /\ (forall n, n ∈ DS.listScalars t1 <-> n = c \/ (n ∈ DS.listScalars t /\ n <> o))
    /\ DS.CurrentToOriginal t1
       = <[c := default EmptyString (DS.CurrentToOriginal t !! o)]>
           (delete o (DS.CurrentToOriginal t))
    /\ DS.m_json t1 = DS.m_json t.
Proof.
  intros (d & Hd & Hnd & Hdom & [act Hact]) Ho Hc.
  unfold DS.listScalars in *. rewrite Hd in *. unfold DS.names in *.
  assert (Hoc : o <> c) by (intros ->; contradiction).
  destruct (find_array_elem o _ Ho) as [i Hfo].
  pose proof (proj2 (find_array_None c _) Hc) as Hfc.
  destruct (find_array_Some _ _ _ Hfo) as (x & Hx & Hxo).
  destruct (renameScalarsArray_step fresh t d o c i Hd Hoc Hfo Hfc)
    as (t1 & d1 & E1 & Hd1 & Hp1 & Ha1 & Hm1 & Hj1).
  assert (Hio : map DS.Name (DS.PointData d) !! i = Some o).
  { rewrite list_lookup_fmap, Hx. cbn. congruence. }
  assert (Hn1 : map DS.Name (DS.PointData d1) = alter (fun _ => c) i (map DS.Name (DS.PointData d))).
  { rewrite Hp1. apply names_alter. }
  assert (Hmem : forall n, n ∈ map DS.Name (DS.PointData d1)
                           <-> n = c \/ (n ∈ map DS.Name (DS.PointData d) /\ n <> o)).
  { intros n. rewrite Hn1. apply elem_of_alter_const; assumption. }
  exists t1. split; [exact E1|]. rewrite Hd1. split; [|split; [exact Hmem|split; assumption]].
  exists d1. split; [exact Hd1|]. unfold DS.names. split; [|split].
  - rewrite Hn1. apply NoDup_alter_const; assumption.
  - intros n. rewrite Hmem, Hm1.
    destruct (decide (c = n)) as [->|Hcn].
    + rewrite lookup_insert_eq. split; [intros _; left; reflexivity | intros _; eexists; reflexivity].
    + rewrite lookup_insert_ne by exact Hcn.
      destruct (decide (o = n)) as [->|Hon].
      * rewrite lookup_delete_eq. split; [intros [? H]; discriminate H|].
        intros [H|[_ H]]; congruence.
      * rewrite lookup_delete_ne by exact Hon. rewrite Hdom.
        split; [intros H; right; split; [exact H | congruence]|].
        intros [H|[H _]]; [congruence | exact H].
  - unfold DS.GetScalars in *. rewrite Ha1.
    assert (Hlen : forall k y, DS.PointData d !! k = Some y ->
                               is_Some (DS.PointData d1 !! k)).
    { intros k y Hk. apply lookup_lt_is_Some. rewrite Hp1, length_alter.
      eapply lookup_lt_Some. exact Hk. }
    destruct (String.eqb o (DS.activeScalars t)); [eapply Hlen; exact Hx|].
    destruct (DS.ActiveScalars d) as [j|]; [|discriminate]. eapply Hlen. exact Hact.
Qed.

Lemma replay_renames_cons (fresh : list DS.double) (kv : string * string)
    (l : list (string * string)) (t t1 : DS.DataSource) :
  DS.renameScalarsArray fresh (fst kv) (snd kv) t = DS.Ok t1 ->
  DS.replay_renames fresh (kv :: l) t = DS.replay_renames fresh l t1.
Proof.
  intros H. unfold DS.replay_renames. cbn [foldl DS.rbind]. rewrite H. reflexivity.
Qed.

(** Replaying a list of renames (original name, current name) on a source
    that holds the original names, when no new name is one of the names
    still to be renamed or an array of the source. *)
Lemma replay_renames_spec (fresh : list DS.double) (l : list (string * string)) :
  forall t : DS.DataSource,
  well_formed t ->
  NoDup l.*1 -> NoDup l.*2 ->
  (forall o c, (o, c) ∈ l ->
     o ∈ DS.listScalars t /\ DS.CurrentToOriginal t !! o = Some o) ->
  (forall o c, (o, c) ∈ l -> c <> o -> ~ c ∈ DS.listScalars t /\ ~ c ∈ l.*1) ->
  exists r,
    DS.replay_renames fresh l t = DS.Ok r
    /\ well_formed r
    /\ DS.m_json r = DS.m_json t
    /\ (forall n, n ∈ DS.listScalars r
                  <-> n ∈ l.*2 \/ (n ∈ DS.listScalars t /\ ~ n ∈ l.*1))
    /\ (forall k v, DS.CurrentToOriginal r !! k = Some v
                    <-> (v, k) ∈ l
                        \/ (~ k ∈ l.*1 /\ ~ k ∈ l.*2
                            /\ DS.CurrentToOriginal t !! k = Some v)).
Proof.
  induction l as [|[o c] l IH]; intros t Hwf Hnd1 Hnd2 Horig Hnew.
  - exists t. split; [reflexivity|]. split; [exact Hwf|]. split; [reflexivity|].
    cbn. split.
    + intros n. split; [intros H; right; split; [exact H | apply not_elem_of_nil]|].
      intros [H|[H _]]; [inversion H | exact H].
    + intros k v. split.
      * intros H. right. repeat split; try apply not_elem_of_nil. exact H.
      * intros [H|(_ & _ & H)]; [inversion H | exact H].
  - cbn [fmap list_fmap fst snd] in Hnd1, Hnd2.
    apply NoDup_cons in Hnd1 as [Ho1 Hnd1]. apply NoDup_cons in Hnd2 as [Hc2 Hnd2].
    destruct (Horig o c ltac:(apply elem_of_cons; auto)) as [Hot Hmo].
    destruct (decide (c = o)) as [->|Hco].
    + (* a pair that renames nothing *)
      assert (E : DS.renameScalarsArray fresh o o t = DS.Ok t).
      { unfold DS.renameScalarsArray. rewrite String.eqb_refl. reflexivity. }
      rewrite (replay_renames_cons fresh (o, o) l t t E).
      destruct (IH t Hwf Hnd1 Hnd2) as (r & Er & Hwr & Hj & Hnames & Hmap).
      { intros o' c' H. apply (Horig o' c'). apply elem_of_cons. auto. }
      { intros o' c' H Hne.
        destruct (Hnew o' c' ltac:(apply elem_of_cons; auto) Hne) as [H1 H2].
        split; [exact H1|]. intros F. apply H2. cbn. apply elem_of_cons. auto. }
      exists r. split; [exact Er|]. split; [exact Hwr|]. split; [exact Hj|].
      cbn [fmap list_fmap fst snd]. split.
      * intros n. rewrite Hnames, !not_elem_of_cons, !elem_of_cons.
        destruct (decide (n = o)) as [->|Hn]; [|tauto].
        split; [auto|]. intros _. right. split; assumption.
      * intros k v. rewrite Hmap, !not_elem_of_cons, !elem_of_cons.
        destruct (decide (k = o)) as [->|Hk].
        -- split.
           ++ intros [H|(_ & _ & H)].
              ** exfalso. apply Hc2. apply list_elem_of_fmap. exists (v, o). auto.
              ** left. left. congruence.
           ++ intros [[H|H]|((F & _) & _)]; [|left; exact H | congruence].
              inversion H; subst. right. repeat split; assumption.
        -- split.
           ++ intros [H|(H1 & H2 & H3)]; [left; right; exact H|].
              right. repeat split; assumption.
           ++ intros [[H|H]|((_ & H1) & (_ & H2) & H3)];
                [inversion H; congruence | left; exact H | right; repeat split; assumption].
    + (* a pair that renames o to c *)
      destruct (Hnew o c ltac:(apply elem_of_cons; auto) Hco) as [Hct Hcl].
      cbn in Hcl. apply not_elem_of_cons in Hcl as [_ Hcl].
      destruct (renameScalarsArray_well_formed fresh t o c Hwf Hot Hct)
        as (t1 & E & Hwf1 & Hn1 & Hm1 & Hj1).
      rewrite Hmo in Hm1. cbn [default] in Hm1.
      rewrite (replay_renames_cons fresh (o, c) l t t1 E).
      destruct (IH t1 Hwf1 Hnd1 Hnd2) as (r & Er & Hwr & Hj & Hnames & Hmap).
      { intros o' c' H.
        destruct (Horig o' c' ltac:(apply elem_of_cons; auto)) as [H1 H2].
        assert (o' <> o).
        { intros ->. apply Ho1. apply list_elem_of_fmap. exists (o, c'). auto. }
        assert (o' <> c).
        { intros ->. apply Hcl. apply list_elem_of_fmap. exists (c, c'). auto. }
        split; [apply Hn1; right; split; assumption|].
        rewrite Hm1, lookup_insert_ne, lookup_delete_ne by congruence. exact H2. }
      { intros o' c' H Hne.
        destruct (Hnew o' c' ltac:(apply elem_of_cons; auto) Hne) as [H1 H2].
        cbn in H2. apply not_elem_of_cons in H2 as [_ H2].
        split; [|exact H2]. rewrite Hn1. intros [F|[F _]]; [|contradiction].
        subst c'. apply Hc2. apply list_elem_of_fmap. exists (o', c). auto. }
      exists r. split; [exact Er|]. split; [exact Hwr|]. split; [congruence|].
      cbn [fmap list_fmap fst snd]. split.
      * intros n. rewrite Hnames, Hn1, !not_elem_of_cons, !elem_of_cons.
        destruct (decide (n = c)) as [->|Hnc]; [tauto|]. tauto.
      * intros k v. rewrite Hmap, Hm1, !not_elem_of_cons, !elem_of_cons.
        destruct (decide (k = c)) as [->|Hkc].
        -- rewrite lookup_insert_eq. split.
           ++ intros [H|(_ & _ & H)]; [left; right; exact H|].
              inversion H; subst. left. left. reflexivity.
           ++ intros [[H|H]|((_ & _) & (F & _) & _)]; [| left; exact H | congruence].
              inversion H; subst. right. repeat split; assumption.
        -- rewrite lookup_insert_ne by congruence.
           destruct (decide (k = o)) as [->|Hko].
           ++ rewrite lookup_delete_eq. split.
              ** intros [H|(_ & _ & H)]; [left; right; exact H | discriminate H].
              ** intros [[H|H]|((F & _) & _)]; [inversion H; congruence | left; exact H | congruence].
           ++ rewrite lookup_delete_ne by congruence. split.
              ** intros [H|(H1 & H2 & H3)]; [left; right; exact H|].
                 right. repeat split; assumption.
              ** intros [[H|H]|((_ & H1) & (_ & H2) & H3)];
                   [inversion H; congruence | left; exact H | right; repeat split; assumption].
Qed.

Lemma lookup_when_ne (b : bool) (k k' : string) (v : DS.QJsonValue)
    (m : gmap string DS.QJsonValue) :
  k <> k' -> DS.when b (fun j => <[k := v]> j) m !! k' = m !! k'.
Proof.
  intros H. destruct b; cbn [DS.when]; [apply lookup_insert_ne; exact H | reflexivity].
Qed.

Lemma when_false {A : Type} (f : A -> A) (a : A) : DS.when false f a = a.
Proof. reflexivity. Qed.

(** Look a key up in a document built by a chain of insertions. *)
Ltac doc_lookup :=
  repeat first
    [ rewrite lookup_insert_eq
    | rewrite lookup_insert_ne by discriminate
    | rewrite lookup_when_ne by discriminate ].

(** The fields of a serialized source that deserialize replays. *)
Lemma serialize_fields (env : DS.Env) (s : DS.DataSource) :
  (DS.UnitsModified s = true -> is_Some (DS.data s)) ->
  DS.Operators s = [] -> DS.env_modules env = [] ->
  DS.m_json s !! "modules"%string = None ->
  DS.m_json s !! "operators"%string = None ->
  exists doc,
    DS.serialize env s = Some doc
    /\ doc !! "label"%string = Some (DS.JString (DS.label s))
    /\ doc !! "activeScalars"%string = Some (DS.JString (DS.activeScalars s))
    /\ doc !! "scalarsRename"%string
       = Some (DS.JStringObject
                 (DS.items
                    (foldl (fun (o : gmap string string) (kv : string * string) =>
                              <[snd kv := fst kv]> o)
                           ∅ (DS.items (DS.CurrentToOriginal s)))))
    /\ doc !! "modules"%string = None
    /\ doc !! "operators"%string = None.
Proof.
  intros Hd Hops Hmods Hjm Hjo. unfold DS.serialize. rewrite Hops, Hmods.
  destruct (DS.UnitsModified s) eqn:Hu.
  - destruct (Hd eq_refl) as [d Hdat]. rewrite Hdat.
    eexists. split; [reflexivity|].
    rewrite !bool_decide_eq_true_2 by reflexivity. cbn [negb]. rewrite !when_false.
    destruct (DS.Units s); repeat split; doc_lookup; try reflexivity; assumption.
  - eexists. split; [reflexivity|].
    rewrite !bool_decide_eq_true_2 by reflexivity. cbn [negb]. rewrite !when_false.
    repeat split; doc_lookup; try reflexivity; assumption.
Qed.

(** The setters of the display state leave the label, the arrays and the
    rename map alone. *)
Lemma same_arrays_refl (a : DS.DataSource) : same_arrays a a.
Proof. repeat split. Qed.

Lemma same_arrays_trans (a b c : DS.DataSource) :
  same_arrays a b -> same_arrays b c -> same_arrays a c.
Proof.
  intros (H1 & H2 & H3 & H4) (G1 & G2 & G3 & G4).
  repeat split; congruence.
Qed.

Lemma same_arrays_set_box (b : list DS.double) (s : DS.DataSource) :
  same_arrays s (DS.set_box s b).
Proof. repeat split. Qed.

Lemma same_arrays_setSpacing (sp : list DS.double) (m : bool) (s : DS.DataSource) :
  same_arrays s (DS.setSpacing sp m s).
Proof.
  unfold DS.setSpacing, same_arrays.
  destruct m; destruct (DS.data s) eqn:Hd; ds_simpl; rewrite ?Hd; repeat split.
Qed.

Lemma same_arrays_setUnits (u : string) (m : bool) (s : DS.DataSource) :
  same_arrays s (DS.setUnits u m s).
Proof.
  unfold DS.setUnits, same_arrays.
  destruct m; ds_simpl; destruct (DS.Units s); ds_simpl;
    destruct (DS.data s) eqn:Hd; ds_simpl; rewrite ?Hd; repeat split.
Qed.

Lemma same_arrays_setDisplay (p o : list DS.double) (s : DS.DataSource) :
  same_arrays s (DS.set_Display s p o).
Proof. repeat split. Qed.

Lemma restore_geometry_same_arrays (mmd : bool) (doc : gmap string DS.QJsonValue)
    (r : DS.DataSource) :
  same_arrays r (DS.restore_geometry mmd doc r).
Proof.
  unfold DS.restore_geometry, DS.setDisplayOrientation, DS.setDisplayPosition.
  repeat match goal with
         | |- context [match doc !! ?k with _ => _ end] => destruct (doc !! k)
         end;
    repeat first
      [ apply same_arrays_refl
      | eapply same_arrays_trans; [|apply same_arrays_setDisplay]
      | eapply same_arrays_trans; [|apply same_arrays_setUnits]
      | eapply same_arrays_trans; [|apply same_arrays_setSpacing]
      | eapply same_arrays_trans; [|apply same_arrays_set_box] ].
Qed.

Lemma same_arrays_observations (a b : DS.DataSource) :
  same_arrays a b ->
  DS.label b = DS.label a
  /\ DS.activeScalars b = DS.activeScalars a
  /\ DS.listScalars b = DS.listScalars a
  /\ DS.CurrentToOriginal b = DS.CurrentToOriginal a.
Proof.
  intros (H1 & H2 & H3 & H4).
  unfold DS.label, DS.fileName, DS.activeScalars, DS.listScalars, DS.GetScalars, DS.names.
  rewrite H1.
  destruct (DS.data a) as [da|], (DS.data b) as [db|]; cbn in H3, H4; try discriminate;
    [|repeat split; assumption].
  inversion H3 as [H3']. inversion H4 as [H4']. rewrite H3', H4'.
  repeat split; assumption.
Qed.

Section RoundTrip.

Variable fresh : list DS.double.
Variable markModifiedDefault : bool.
Variable env : DS.Env.

(** The serialized source: well formed, without operators and modules. *)
Variable s : DS.DataSource.
Hypothesis s_well_formed : well_formed s.
Hypothesis s_injective : map_injective (DS.CurrentToOriginal s).
Hypothesis s_no_operators : DS.Operators s = [].
Hypothesis s_no_modules : DS.env_modules env = [].
Hypothesis s_json_modules : DS.m_json s !! "modules"%string = None.
Hypothesis s_json_operators : DS.m_json s !! "operators"%string = None.

(** The receiver: a well-formed source that holds the arrays of [s] under
    their original names, none of which is a new name of a renamed array. *)
Variable t : DS.DataSource.
Hypothesis t_well_formed : well_formed t.
Hypothesis t_originals :
  forall o, o ∈ DS.listScalars t <-> exists c, DS.CurrentToOriginal s !! c = Some o.
Hypothesis t_identity :
  forall o, o ∈ DS.listScalars t -> DS.CurrentToOriginal t !! o = Some o.
Hypothesis s_new_names :
  forall c o, DS.CurrentToOriginal s !! c = Some o -> c <> o -> ~ c ∈ DS.listScalars t.

Lemma inverted_lookup (o c : string) :
  foldl (fun (a : gmap string string) (kv : string * string) => <[snd kv := fst kv]> a)
        ∅ (DS.items (DS.CurrentToOriginal s)) !! o = Some c
  <-> DS.CurrentToOriginal s !! c = Some o.
Proof.
  rewrite foldl_invert by (apply NoDup_items_snd; exact s_injective).
  rewrite elem_of_items, lookup_empty. split; [|auto].
  intros [H|[_ H]]; [exact H | discriminate H].
Qed.

Lemma setActiveScalars_named (r : DS.DataSource) (n : string) :
  well_formed r -> n ∈ DS.listScalars r ->
  exists r',
    fst (DS.setActiveScalars fresh n r) = DS.Ok r'
    /\ DS.activeScalars r' = n
    /\ DS.CurrentToOriginal r' = DS.CurrentToOriginal r
    /\ DS.m_json r' = DS.m_json r
    /\ DS.listScalars r' = DS.listScalars r.
Proof.
  intros (d & Hd & Hnd & _ & _) Hn.
  unfold DS.listScalars in Hn. rewrite Hd in Hn.
  destruct (find_array_elem n _ Hn) as [i Hi].
  destruct (find_array_Some _ _ _ Hi) as (x & Hx & Hxn).
  unfold DS.setActiveScalars, DS.getScalarsArray. rewrite Hd, Hi. cbn [fst]. ds_simpl.
  match goal with
  | |- context [DS.dataModified fresh ?st] =>
      destruct (dataModified_frame fresh st _ eq_refl)
        as (r' & d' & E & Hd' & Hp & Hact & _ & Hm & Hj)
  end.
  exists r'. split; [exact E|]. ds_simpl.
  unfold DS.activeScalars, DS.listScalars, DS.GetScalars, DS.names.
  rewrite Hd', Hd, Hact, Hp. ds_simpl. rewrite Hx.
  repeat split; assumption.
Qed.

(** Where the replay of the renames does work.  For a well-formed source
    [s] without operators and modules, whose arrays have distinct original
    names, and a well-formed receiver that holds those arrays under their
    original names, no new name of a renamed array being among them (all
    names plain), deserialize(serialize(s)) on the receiver succeeds and
    reproduces the label, the active-scalars name, the names of the arrays
    and the rename map of [s]. *)
Lemma deserialize_serialize :
  DS.plain_names s = true -> DS.plain_names t = true ->
  (DS.UnitsModified s = true -> is_Some (DS.data s)) ->
  exists doc r,
    DS.serialize env s = Some doc
    /\ DS.deserialize fresh markModifiedDefault doc t = Some (DS.Ok r)
    /\ DS.label r = DS.label s
    /\ DS.activeScalars r = DS.activeScalars s
    /\ (forall n, n ∈ DS.listScalars r <-> n ∈ DS.listScalars s)
    /\ DS.CurrentToOriginal r = DS.CurrentToOriginal s.
Proof.
  intros _ _ Hunits.
  destruct (serialize_fields env s Hunits s_no_operators s_no_modules
              s_json_modules s_json_operators)
    as (doc & Es & Hlabel & Hact & Hren & Hmods & Hops).
  exists doc.
  set (inv := foldl _ ∅ _) in Hren.
  assert (Hinv : forall o c, (o, c) ∈ DS.items inv <-> DS.CurrentToOriginal s !! c = Some o).
  { intros o c. rewrite elem_of_items. apply inverted_lookup. }
  destruct s_well_formed as (ds & Hds & Hnds & Hdoms & [acts Hacts]).
  assert (Hsnames : forall n, n ∈ DS.listScalars s <-> is_Some (DS.CurrentToOriginal s !! n)).
  { intros n. unfold DS.listScalars. rewrite Hds. symmetry. apply Hdoms. }
  (* replay the renames on the receiver, which now carries the label *)
  set (t0 := DS.setLabel (DS.label s) t).
  assert (Hwf0 : well_formed t0) by exact t_well_formed.
  destruct (replay_renames_spec fresh (DS.items inv) t0 Hwf0)
    as (r1 & E1 & Hwf1 & Hj1 & Hn1 & Hm1).
  { apply NoDup_items_fst. }
  { apply NoDup_fmap_2_strong; [|eapply NoDup_fmap_1; apply NoDup_items_fst].
    intros [o1 c1] [o2 c2] H1 H2 E. cbn in E. subst c2.
    apply Hinv in H1, H2. congruence. }
  { intros o c H. apply Hinv in H.
    assert (o ∈ DS.listScalars t) by (apply t_originals; eauto).
    split; [assumption | apply t_identity; assumption]. }
  { intros o c H Hne. apply Hinv in H. split; [exact (s_new_names c o H Hne)|].
    intros F. apply list_elem_of_fmap in F as ([o' c'] & Heq & F). cbn in Heq. subst o'.
    apply Hinv in F. apply (s_new_names c o H Hne). apply t_originals. eauto. }
  assert (Hnames1 : forall n, n ∈ DS.listScalars r1 <-> n ∈ DS.listScalars s).
  { intros n. rewrite Hn1, Hsnames. split.
    - intros [H|[H1 H2]].
      + apply list_elem_of_fmap in H as ([o c] & -> & H). cbn. apply Hinv in H. eauto.
      + exfalso. apply H2. apply t_originals in H1 as [c Hc].
        apply list_elem_of_fmap. exists (n, c). split; [reflexivity | apply Hinv; exact Hc].
    - intros [o Ho]. left. apply list_elem_of_fmap. exists (o, n).
      split; [reflexivity | apply Hinv; exact Ho]. }
  assert (Hmap1 : DS.CurrentToOriginal r1 = DS.CurrentToOriginal s).
  { apply map_eq. intros k. apply option_eq. intros v. rewrite Hm1, Hinv. split.
    - intros [H|(H1 & H2 & H3)]; [exact H|].
      exfalso. apply H1.
      assert (Hk : k ∈ DS.listScalars t).
      { destruct t_well_formed as (dt & Hdt & _ & Hdomt & _).
        unfold DS.listScalars. rewrite Hdt. apply Hdomt. eexists. exact H3. }
      apply t_originals in Hk as [c Hc].
      apply list_elem_of_fmap. exists (k, c). split; [reflexivity | apply Hinv; exact Hc].
    - intros H. left. exact H. }
  (* select the active scalars *)
  assert (Hin : DS.activeScalars s ∈ DS.listScalars r1).
  { apply Hnames1. unfold DS.activeScalars, DS.listScalars. rewrite Hds, Hacts.
    unfold DS.GetScalars in Hacts. destruct (DS.ActiveScalars ds); [|discriminate].
    apply list_elem_of_fmap. exists acts. split; [reflexivity|].
    eapply list_elem_of_lookup_2. exact Hacts. }
  destruct (setActiveScalars_named r1 (DS.activeScalars s) Hwf1 Hin)
    as (r2 & E2 & Ha2 & Hm2 & Hj2 & Hl2).
  eexists. split; [exact Es|]. split.
  - unfold DS.deserialize. rewrite Hmods, Hops, Hlabel, Hren, Hact.
    cbn [DS.toString]. fold t0. rewrite E1. cbn [DS.rbind]. rewrite E2. cbn [DS.rbind].
    reflexivity.
  - assert (Hl : DS.label r2 = DS.label s).
    { unfold DS.label at 1. rewrite Hj2, Hj1. subst t0. unfold DS.setLabel. ds_simpl.
      rewrite lookup_insert_eq. reflexivity. }
    destruct (same_arrays_observations _ _
                (restore_geometry_same_arrays markModifiedDefault doc r2))
      as (G1 & G2 & G3 & G4).
    rewrite G1, G2, G3, G4. split; [exact Hl|]. split; [exact Ha2|].
    split; [|congruence].
    intros n. rewrite Hl2. apply Hnames1.
Qed.

End RoundTrip.

Lemma deserialize_serialize_example :
  exists doc r,
    DS.serialize env0 renamed_source = Some doc
    /\ DS.deserialize [] true doc small_source = Some (DS.Ok r)
    /\ DS.activeScalars r = DS.activeScalars renamed_source
    /\ DS.CurrentToOriginal r = DS.CurrentToOriginal renamed_source.
Proof.
  assert (Hs : DS.CurrentToOriginal renamed_source
               = {["density"%string := "ImageScalars"%string]}) by reflexivity.
  assert (Ht : DS.CurrentToOriginal small_source
               = <["ImageScalars"%string := "ImageScalars"%string]> ∅) by reflexivity.
  destruct (deserialize_serialize [] true env0 renamed_source) with (t := small_source)
    as (doc & r & E1 & E2 & _ & Ha & _ & Hm).
  - (* the serialized source is well formed *)
    eexists. split; [reflexivity|]. split; [apply NoDup_singleton|]. split.
    + intros n. rewrite Hs. unfold DS.names. cbn [map DS.PointData DS.Name byte_array].
      rewrite list_elem_of_singleton. split.
      * intros [v Hv]. apply lookup_singleton_Some in Hv as [-> _]. reflexivity.
      * intros ->. rewrite lookup_singleton_eq. eexists; reflexivity.
    + eexists; reflexivity.
  - intros c1 c2 o H1 H2. rewrite Hs in H1, H2.
    apply lookup_singleton_Some in H1 as [<- _], H2 as [<- _]. reflexivity.
  - reflexivity.
  - reflexivity.
  - reflexivity.
  - reflexivity.
  - (* the receiver is well formed *)
    apply init_well_formed; [apply NoDup_singleton | discriminate |].
    intros i H. inversion H. cbn. lia.
  - intros o. rewrite Hs. cbn [DS.listScalars small_source DS.init]. 
    change (DS.listScalars small_source) with ["ImageScalars"%string].
    rewrite list_elem_of_singleton. split.
    + intros ->. exists "density"%string. apply lookup_singleton_eq.
    + intros [c Hc]. apply lookup_singleton_Some in Hc as [_ <-]. reflexivity.
  - intros o Ho. change (DS.listScalars small_source) with ["ImageScalars"%string] in Ho.
    apply list_elem_of_singleton in Ho as ->. rewrite Ht. apply lookup_insert_eq.
  - intros c o Hc _. rewrite Hs in Hc. apply lookup_singleton_Some in Hc as [<- _].
    change (DS.listScalars small_source) with ["ImageScalars"%string].
    intros F. apply list_elem_of_singleton in F. discriminate F.
  - reflexivity.
  - reflexivity.
  - intros F. discriminate F.
  - exists doc, r. auto.
Defined.

(** The document carries neither the dataset type nor the tilt angles.  A
    tilt series and a plain volume with the same arrays serialize to the
    same document, and deserializing it on a source freshly made from the
    volume leaves type Volume and no tilt angles. *)
Lemma deserialize_type_not_carried :
  DS.Operators tilt_source = []
  /\ DS.Type_ tilt_source = DS.TiltSeries
  /\ option_map DS.getTiltAngles (DS.data tilt_source) = Some [DS.dzero]
  /\ DS.serialize env0 tilt_source = DS.serialize env0 small_source
  /\ match DS.serialize env0 tilt_source with
     | Some doc =>
         match DS.deserialize [] true doc small_source with
         | Some (DS.Ok r) =>
             DS.Type_ r = DS.Volume
             /\ option_map DS.hasTiltAngles (DS.data r) = Some false
         | _ => False
         end
     | None => False
     end.
Proof.
  split; [reflexivity|]. split; [reflexivity|]. split; [reflexivity|].
  split; [vm_compute; reflexivity|].
  vm_compute. split; reflexivity.
Qed.

(** C5. A chain of renames that reuses a name is not restored.  The source
    made of the arrays [a] and [b], after b was renamed to c and a to b,
    shows [b; c] with b active and the map b -> a, c -> b.  Its document
    lists the renames by original name, a -> b before b -> c; replayed in
    that order on a fresh source of the same image the first is refused,
    b being taken, and the reload leaves [a; c] with a active and the map
    a -> a, c -> b. *)
Theorem deserialize_rename_chain :
  match DS.renameScalarsArray [] "b" "c" ab_source with
  | DS.Ok s1 =>
      match DS.renameScalarsArray [] "a" "b" s1 with
      | DS.Ok s =>
          DS.Operators s = []
          /\ DS.listScalars s = ["b"; "c"]%string
          /\ DS.activeScalars s = "b"%string
          /\ DS.items (DS.CurrentToOriginal s) = [("b", "a"); ("c", "b")]%string
          /\ match DS.serialize env0 s with
             | Some doc =>
                 doc !! "scalarsRename"%string
                 = Some (DS.JStringObject [("a", "b"); ("b", "c")]%string)
                 /\ match DS.deserialize [] true doc ab_source with
                    | Some (DS.Ok r) =>
                        DS.listScalars r = ["a"; "c"]%string
                        /\ DS.activeScalars r = "a"%string
                        /\ DS.items (DS.CurrentToOriginal r)
                           = [("a", "a"); ("c", "b")]%string
                    | _ => False
                    end
             | None => False
             end
      | _ => False
      end
  | _ => False
  end.
Proof. vm_compute. repeat split; reflexivity. Qed.

(** ** Loops *)

(** A loop whose [n] iterations visit [it 0], ..., [it (n-1)] and keep an
    invariant runs to its end, given more than [n] units of fuel. *)
Lemma for_loop_inv {A : Type} (P : nat -> A -> Prop) (n : nat) :
  forall (fuel : nat) (cond : Z -> bool) (next : Z -> Z)
         (body : Z -> A -> Tiff.outcome A) (it : nat -> Z) (a0 : A),
  (n < fuel)%nat ->
  P O a0 ->
  (forall k a, (k < n)%nat -> P k a ->
     cond (it k) = true /\ next (it k) = it (S k)
     /\ exists a', body (it k) a = Tiff.Done a' /\ P (S k) a') ->
  cond (it n) = false ->
  exists a, Tiff.for_loop fuel cond next body (it O) a0 = Tiff.Done a /\ P n a.
Proof.
  revert P. induction n as [|n IH]; intros P fuel cond next body it a0 Hf H0 Hstep Hend.
  - destruct fuel as [|fuel]; [lia|]. cbn [Tiff.for_loop]. rewrite Hend.
    exists a0. split; [reflexivity | exact H0].
  - destruct fuel as [|fuel]; [lia|]. cbn [Tiff.for_loop].
    destruct (Hstep O a0 ltac:(lia) H0) as (Hc & Hn & a1 & Hb & H1).
    rewrite Hc, Hb, Hn.
    apply (IH (fun k a => P (S k) a) fuel cond next body (fun k => it (S k)) a1).
    + lia.
    + exact H1.
    + intros k a Hk HP. apply (Hstep (S k) a); [lia | exact HP].
    + exact Hend.
Qed.

(** ** Offsets in the plane *)

Lemma div_mod_offset (y x n : Z) :
  0 <= x < n -> (y * n + x) / n = y /\ (y * n + x) mod n = x.
Proof.
  intros H. split.
  - symmetry. apply (Z.div_unique_pos _ _ y x); lia.
  - symmetry. apply (Z.mod_unique_pos _ _ y x); lia.
Qed.

Lemma correct_on_memcpy (tif : Tiff.TIFF) (S R : Z -> Prop) (vol src : buf)
    (doff soff n : Z) :
  correct_on tif S vol ->
  (forall a, R a -> doff <= a < doff + n) ->
  (forall a, doff <= a < doff + n -> src (soff + (a - doff)) = plane_byte tif a) ->
  correct_on tif (fun a => S a \/ R a) (memcpy vol doff src soff n).
Proof.
  intros HS HR Hsrc a Ha.
  destruct (Z_lt_le_dec a doff) as [Hlo|Hlo];
    [|destruct (Z_lt_le_dec a (doff + n)) as [Hhi|Hhi]].
  - rewrite memcpy_out by lia. destruct Ha as [Ha|Ha]; [apply HS; exact Ha|].
    apply HR in Ha. lia.
  - rewrite memcpy_in by lia. apply Hsrc. lia.
  - rewrite memcpy_out by lia. destruct Ha as [Ha|Ha]; [apply HS; exact Ha|].
    apply HR in Ha. lia.
Qed.

Lemma correct_on_weaken (tif : Tiff.TIFF) (S S' : Z -> Prop) (vol : buf) :
  correct_on tif S vol -> (forall a, S' a -> S a) -> correct_on tif S' vol.
Proof. intros H Hs a Ha. apply H. apply Hs. exact Ha. Qed.

(** ** The tile decode of a file with one-byte samples *)

(** The tiles are no larger than the image; the width and the height may
    or may not be multiples of the tile size. *)

Section TileDecode.

Variable tif : Tiff.TIFF.

Hypothesis tiled : Tiff.IsTiled tif = true.
Hypothesis one_directory : Tiff.Directories tif = 1.
Hypothesis bits8 : Tiff.BitsPerSampleTag tif = 8.
Hypothesis spp_pos : 0 < Tiff.SamplesPerPixelTag tif.
Hypothesis tw_range : 0 < Tiff.TileWidthTag tif <= Tiff.ImageWidth tif.
Hypothesis th_range : 0 < Tiff.TileLengthTag tif <= Tiff.ImageLength tif.
Hypothesis plane_small :
  Tiff.ImageLength tif * (Tiff.ImageWidth tif * Tiff.SamplesPerPixelTag tif) < 2 ^ 32.

Let I := Tiff.Initialize tif.
Let W := Tiff.ImageWidth tif.
Let H := Tiff.ImageLength tif.
Let tw := Tiff.TileWidthTag tif.
Let th := Tiff.TileLengthTag tif.
Let ps := Tiff.SamplesPerPixelTag tif.
Let RW := row_bytes tif.

Lemma init_fields :
  Tiff.Image I = tif /\ Tiff.Width I = W /\ Tiff.Height I = H
  /\ Tiff.TileWidth I = tw /\ Tiff.TileHeight I = th
  /\ Tiff.SamplesPerPixel I = ps /\ Tiff.NumberOfPages I = 1
  /\ Tiff.Orientation I = default Tiff.ORIENTATION_BOTLEFT (Tiff.OrientationTag tif).
Proof.
  subst I. unfold Tiff.Initialize. cbn -[Z.leb]. rewrite one_directory, tiled.
  repeat split.
Qed.

Lemma RW_eq : RW = W * ps.
Proof. reflexivity. Qed.

Lemma RW_pos : 0 < RW.
Proof. rewrite RW_eq. apply Z.mul_pos_pos; subst W ps; lia. Qed.

Lemma rowsize_eq : Tiff.TIFFTileRowSize tif = tw * ps.
Proof.
  unfold Tiff.TIFFTileRowSize. rewrite bits8. fold tw ps.
  replace (tw * ps * 8 + 7) with (7 + (tw * ps) * 8) by ring.
  rewrite Z.div_add by lia. reflexivity.
Qed.

Lemma scanline_eq : Tiff.TIFFScanlineSize tif = RW.
Proof.
  unfold Tiff.TIFFScanlineSize. rewrite bits8. fold W ps. rewrite RW_eq.
  replace (W * ps * 8 + 7) with (7 + (W * ps) * 8) by ring.
  rewrite Z.div_add by lia. reflexivity.
Qed.

Lemma tile_row_pos : 0 < tw * ps.
Proof. apply Z.mul_pos_pos; subst tw ps; lia. Qed.

(** The tile libtiff hands out for pixel (x, y). *)
Lemma read_tile (x y : Z) :
  0 <= x < W -> 0 <= y < H ->
  exists tile,
    Tiff.TIFFReadTile tif x y 0 0 = Some tile
    /\ forall yy j,
         0 <= yy -> y / th * th + yy < H ->
         0 <= j < tw * ps -> x / tw * (tw * ps) + j < RW ->
         tile (yy * (tw * ps) + j)
         = Tiff.Raster tif (y / th * th + yy) (x / tw * (tw * ps) + j).
Proof.
  intros Hx Hy. unfold Tiff.TIFFReadTile. rewrite tiled. cbn [negb].
  fold W H tw th.
  replace ((0 <=? x) && (x <? W) && (0 <=? y) && (y <? H) && (0 =? 0)) with true.
  2:{ symmetry. repeat (apply andb_true_iff; split);
        try apply Z.leb_le; try apply Z.ltb_lt; try reflexivity; lia. }
  eexists. split; [reflexivity|].
  intros yy j Hyy Hrow Hj Hcol. cbv beta zeta.
  rewrite rowsize_eq, scanline_eq.
  pose proof tile_row_pos as Hp.
  destruct (div_mod_offset yy j (tw * ps) Hj) as [Hdiv Hmod].
  rewrite Hdiv, Hmod.
  destruct (Z.ltb_spec (y / th * th + yy) H); [|lia].
  destruct (Z.ltb_spec (x / tw * (tw * ps) + j) RW); [|lia].
  reflexivity.
Qed.

(** Copying [rows] rows of [n] pixels from a tile puts the decoded bytes
    at the rows [r0 + y yy]. *)
Lemma copy_rows_correct (fuel : nat) (tile : buf) (r0 col rows n trow0 : Z)
    (y : Z -> Z) (S : Z -> Prop) (vol : buf) :
  (Z.to_nat rows < fuel)%nat -> 0 <= rows <= th ->
  0 <= col -> 0 < n <= tw -> col + n <= W ->
  (forall yy j, 0 <= yy < rows -> 0 <= j < n * ps ->
     tile (yy * (tw * ps) + j) = Tiff.Raster tif (trow0 + yy) (col * ps + j)) ->
  (forall yy, 0 <= yy < rows ->
     0 <= r0 + y yy < H /\ file_row tif (r0 + y yy) = trow0 + yy) ->
  correct_on tif S vol ->
  exists vol',
    Tiff.copy_tile_rows fuel I tile 0 r0 col rows n y vol = Tiff.Done vol'
    /\ correct_on tif
         (fun a => S a \/ exists yy, 0 <= yy < rows
                     /\ rect tif (r0 + y yy) (r0 + y yy + 1) (col * ps) ((col + n) * ps) a)
         vol'.
Proof.
  intros Hfuel Hrows Hcol Hn Hcn Htile Hy HS.
  destruct init_fields as (_ & HW & HH & Htw & Hth & Hps & _ & _).
  pose proof RW_pos as HRW. pose proof tile_row_pos as Htp.
  assert (Hps0 : 0 < ps) by (subst ps; exact spp_pos).
  assert (Hsmall : H * RW < 2 ^ 32) by exact plane_small.
  assert (HthH : 0 < th <= H) by exact th_range.
  assert (HtwW : 0 < tw <= W) by exact tw_range.
  assert (HH32 : H < 2 ^ 32).
  { assert (H * 1 <= H * RW) by (apply Z.mul_le_mono_nonneg_l; lia). lia. }
  unfold Tiff.copy_tile_rows. rewrite HW, HH, Htw, Hth, Hps.
  destruct (for_loop_inv
              (fun k v => correct_on tif
                 (fun a => S a \/ exists yy, 0 <= yy < Z.of_nat k
                     /\ rect tif (r0 + y yy) (r0 + y yy + 1) (col * ps) ((col + n) * ps) a)
                 v)
              (Z.to_nat rows) fuel (fun yy => yy <? rows) (fun yy => u32 (yy + 1))
              (fun yy volume =>
                 Tiff.Done (memcpy volume
                   (u32 ((((0 + 0) * H + r0 + y yy) * W + col) * ps)) tile
                   (u32 ((0 * th + yy) * tw * ps)) (u32 (n * ps))))
              Z.of_nat vol Hfuel) as (vol' & E & HP).
  - eapply correct_on_weaken; [exact HS|]. intros a [Ha|(yy & Hyy & _)]; [exact Ha | lia].
  - intros k v Hk HPk.
    assert (Hkr : 0 <= Z.of_nat k < rows) by lia.
    split; [apply Z.ltb_lt; lia|].
    split; [rewrite u32_id by lia; lia|].
    eexists. split; [reflexivity|].
    destruct (Hy (Z.of_nat k) Hkr) as [Hr Hf].
    set (r := r0 + y (Z.of_nat k)) in *.
    assert (Hdst : ((0 + 0) * H + r0 + y (Z.of_nat k)) * W + col = r * W + col)
      by (subst r; ring).
    assert (Hcps : 0 <= col * ps) by (apply Z.mul_nonneg_nonneg; lia).
    assert (Hnps : 0 < n * ps <= tw * ps).
    { split; [apply Z.mul_pos_pos; lia | apply Z.mul_le_mono_nonneg_r; lia]. }
    assert (Hend : col * ps + n * ps <= RW).
    { rewrite RW_eq. replace (col * ps + n * ps) with ((col + n) * ps) by ring.
      apply Z.mul_le_mono_nonneg_r; lia. }
    assert (Hrow : r * RW + RW <= H * RW).
    { replace (r * RW + RW) with ((r + 1) * RW) by ring.
      apply Z.mul_le_mono_nonneg_r; lia. }
    assert (Hr0 : 0 <= r * RW) by (apply Z.mul_nonneg_nonneg; lia).
    assert (Hsrc0 : 0 <= Z.of_nat k * (tw * ps)) by (apply Z.mul_nonneg_nonneg; lia).
    assert (Hsrc1 : Z.of_nat k * (tw * ps) < 2 ^ 32).
    { assert (Z.of_nat k * (tw * ps) <= H * RW); [|lia].
      apply Z.le_trans with (H * (tw * ps)).
      - apply Z.mul_le_mono_nonneg_r; lia.
      - apply Z.mul_le_mono_nonneg_l; [lia|]. rewrite RW_eq.
        apply Z.mul_le_mono_nonneg_r; lia. }
    rewrite Hdst.
    replace ((r * W + col) * ps) with (r * RW + col * ps) by (rewrite RW_eq; ring).
    replace ((0 * th + Z.of_nat k) * tw * ps) with (Z.of_nat k * (tw * ps)) by ring.
    rewrite !u32_id by lia.
    eapply correct_on_weaken.
    + apply (correct_on_memcpy tif _
               (rect tif r (r + 1) (col * ps) ((col + n) * ps)) _ _ _ _ _ HPk).
      * intros a (Ha0 & Hdiv & Hmod). fold RW in Hdiv, Hmod.
        pose proof (Z.div_mod a RW ltac:(lia)) as Hdm.
        assert (a / RW = r) by lia.
        replace ((col + n) * ps) with (col * ps + n * ps) in Hmod by ring.
        rewrite H0 in Hdm. lia.
      * intros a Ha. unfold plane_byte. change (row_bytes tif) with RW.
        set (j := a - (r * RW + col * ps)).
        assert (Ea : r * RW + (col * ps + j) = a) by (subst j; ring).
        destruct (div_mod_offset r (col * ps + j) RW ltac:(subst j; lia)) as [Hd Hm].
        rewrite Ea in Hd, Hm. rewrite Hd, Hm. subst r. rewrite Hf.
        apply Htile; subst j; lia.
    + intros a [Ha|(yy & Hyy & Hrect)]; [left; left; exact Ha|].
      rewrite Nat2Z.inj_succ in Hyy.
      destruct (Z.eq_dec yy (Z.of_nat k)) as [->|Hne].
      * right. exact Hrect.
      * left. right. exists yy. split; [lia | exact Hrect].
  - apply Z.ltb_ge. lia.
  - exists vol'. split; [exact E|].
    rewrite Z2Nat.id in HP by lia. exact HP.
Qed.

Lemma file_row_range (y : Z) : 0 <= y < H -> 0 <= file_row tif y < H.
Proof.
  intros Hy. unfold file_row. fold H.
  destruct (_ =? _); lia.
Qed.

(** One tile: read it and copy [rows] rows of [n] pixels of it to the image
    rows [lo, lo + rows). *)
Lemma tile_pass (fuel : nat) (c rq r0 rows n lo : Z) (y : Z -> Z)
    (S : Z -> Prop) (vol : buf) :
  (Z.to_nat rows < fuel)%nat -> 0 <= rows <= th ->
  0 <= c -> 0 < n <= tw -> c * tw + n <= W ->
  0 <= rq < H ->
  (forall yy, 0 <= yy < rows ->
     0 <= r0 + y yy < H /\ file_row tif (r0 + y yy) = rq / th * th + yy) ->
  (forall y', lo <= y' < lo + rows -> exists yy, 0 <= yy < rows /\ r0 + y yy = y') ->
  correct_on tif S vol ->
  exists vol',
    match Tiff.TIFFReadTile (Tiff.Image I) (c * tw) rq 0 0 with
    | None => Tiff.Failed vol
    | Some tile => Tiff.copy_tile_rows fuel I tile 0 r0 (c * tw) rows n y vol
    end = Tiff.Done vol'
    /\ correct_on tif
         (fun a => S a \/ rect tif lo (lo + rows) (c * tw * ps) ((c * tw + n) * ps) a)
         vol'.
Proof.
  intros Hfuel Hrows Hc Hn Hcn Hrq Hy Hsurj HS.
  destruct init_fields as (HI & _).
  assert (HtwW : 0 < tw <= W) by exact tw_range.
  assert (Hps0 : 0 < ps) by (subst ps; exact spp_pos).
  assert (Hctw : 0 <= c * tw) by (apply Z.mul_nonneg_nonneg; lia).
  rewrite HI.
  destruct (read_tile (c * tw) rq ltac:(lia) Hrq) as (tile & E & Htile). rewrite E.
  rewrite Z.div_mul in Htile by lia.
  destruct (copy_rows_correct fuel tile r0 (c * tw) rows n (rq / th * th) y S vol
              Hfuel Hrows Hctw Hn Hcn) as (vol' & E' & Hcorr).
  - intros yy j Hyy Hj.
    replace (c * tw * ps + j) with (c * (tw * ps) + j) by ring.
    destruct (Hy yy Hyy) as [Hr Hf].
    pose proof (file_row_range _ Hr) as Hfr. rewrite Hf in Hfr.
    assert (Hnps : n * ps <= tw * ps) by (apply Z.mul_le_mono_nonneg_r; lia).
    apply Htile; try lia.
    rewrite RW_eq.
    assert ((c * tw + n) * ps <= W * ps) by (apply Z.mul_le_mono_nonneg_r; lia).
    lia.
  - exact Hy.
  - exact HS.
  - exists vol'. split; [exact E'|].
    eapply correct_on_weaken; [exact Hcorr|].
    intros a [Ha|(Ha0 & Hrow & Hcol)]; [left; exact Ha|]. right.
    destruct (Hsurj (a / row_bytes tif) Hrow) as (yy & Hyy & Eyy).
    exists yy. split; [exact Hyy|]. rewrite Eyy.
    split; [exact Ha0|]. split; [lia | exact Hcol].
Qed.

Let q := H / th.
Let rm := H mod th.
Let p := W / tw.
Let lenx := W mod tw.
Let flip := negb (default Tiff.ORIENTATION_BOTLEFT (Tiff.OrientationTag tif)
                  =? Tiff.ORIENTATION_TOPLEFT).
(** The first image row the full tiles fill, and the first of the bottom
    strip. *)
Let base := if flip then rm else 0.
Let bot := if flip then 0 else q * th.

Lemma geometry :
  H = q * th + rm /\ 0 <= rm < th /\ 1 <= q
  /\ W = p * tw + lenx /\ 0 <= lenx < tw /\ 1 <= p
  /\ 0 < ps /\ H * RW < 2 ^ 32 /\ H < 2 ^ 32 /\ W < 2 ^ 32 /\ 2 * H <= 2 ^ 33.
Proof.
  assert (HthH : 0 < th <= H) by exact th_range.
  assert (HtwW : 0 < tw <= W) by exact tw_range.
  assert (Hps0 : 0 < ps) by exact spp_pos.
  assert (Hsmall : H * RW < 2 ^ 32) by exact plane_small.
  pose proof (Z.div_mod H th ltac:(lia)) as Hdm.
  pose proof (Z.mod_pos_bound H th ltac:(lia)) as Hmb.
  pose proof (Z.div_mod W tw ltac:(lia)) as Wdm.
  pose proof (Z.mod_pos_bound W tw ltac:(lia)) as Wmb.
  assert (Hq : 1 <= H / th) by (apply Z.div_le_lower_bound; lia).
  assert (Hp : 1 <= W / tw) by (apply Z.div_le_lower_bound; lia).
  assert (HRW2 : W * 1 <= RW) by (rewrite RW_eq; apply Z.mul_le_mono_nonneg_l; lia).
  assert (HW1 : 1 * RW <= H * RW) by (apply Z.mul_le_mono_nonneg_r; lia).
  assert (HH1 : H * 1 <= H * RW) by (apply Z.mul_le_mono_nonneg_l; lia).
  subst q rm p lenx.
  repeat split; try lia.
Qed.

Lemma file_row_flip (y : Z) : file_row tif y = if flip then H - 1 - y else y.
Proof.
  unfold file_row. subst flip. fold H. destruct (_ =? _); reflexivity.
Qed.

(** The bound of the [row] loops lets in the [q] rows of full tiles and
    no more; likewise the bound of the [col] loops. *)
Lemma row_bound :
  exists B, (if H mod th =? 0 then H else u32 (H - th)) = B
            /\ (q - 1) * th < B <= q * th.
Proof.
  destruct geometry as (HH & Hrm & Hq & _ & _ & _ & _ & _ & HH32 & _ & _).
  assert (HthH : 0 < th <= H) by exact th_range.
  fold rm. destruct (Z.eqb_spec rm 0) as [E|E].
  - exists H. split; [reflexivity | lia].
  - exists (H - th). split; [apply u32_id; lia | lia].
Qed.

Lemma col_bound :
  exists B, (if W mod tw =? 0 then W else u32 (W - tw)) = B
            /\ (p - 1) * tw < B <= p * tw.
Proof.
  destruct geometry as (_ & _ & _ & HW & Hlx & Hp & _ & _ & _ & HW32 & _).
  assert (HtwW : 0 < tw <= W) by exact tw_range.
  fold lenx. destruct (Z.eqb_spec lenx 0) as [E|E].
  - exists W. split; [reflexivity | lia].
  - exists (W - tw). split; [apply u32_id; lia | lia].
Qed.

(** The rows of the [k]-th band of full tiles, for the tile read at a file
    row [rq] inside the band's tile row. *)
Lemma band_rows (k rq : Z) :
  0 <= k < q ->
  rq / th * th = (if flip then (q - k - 1) * th else k * th) ->
  let y := fun yy => if flip then u32 (th + H mod th - yy - 1) else yy in
  (forall yy, 0 <= yy < th ->
     0 <= k * th + y yy < H /\ file_row tif (k * th + y yy) = rq / th * th + yy)
  /\ (forall y', base + k * th <= y' < base + k * th + th ->
        exists yy, 0 <= yy < th /\ k * th + y yy = y').
Proof.
  intros Hk Hrq y.
  destruct geometry as (HH & Hrm & Hq & _ & _ & _ & _ & _ & HH32 & _ & H2).
  fold rm in y. subst y base. cbv beta.
  assert (Hkth : 0 <= k * th) by (apply Z.mul_nonneg_nonneg; lia).
  assert (Hk1 : k * th + th <= q * th).
  { replace (k * th + th) with ((k + 1) * th) by ring.
    apply Z.mul_le_mono_nonneg_r; lia. }
  rewrite Hrq. split.
  - intros yy Hyy. rewrite file_row_flip. destruct flip.
    + rewrite u32_id by lia. split; [lia|]. lia.
    + split; lia.
  - intros y' Hy'. destruct flip.
    + exists (k * th + th + rm - 1 - y'). rewrite u32_id by lia. split; lia.
    + exists (y' - k * th). split; lia.
Qed.

Lemma div_band (k r : Z) : 0 <= r < th -> (k * th + r) / th * th = k * th.
Proof.
  intros Hr. destruct (div_mod_offset k r th Hr) as [Hd _]. rewrite Hd. reflexivity.
Qed.

(** The rows of the bottom strip, when there is one. *)
Lemma strip_rows :
  rm <> 0 ->
  let r0 := if flip then 0 else q * th in
  let y := fun yy => if flip then u32 (H mod th - yy - 1) else yy in
  u32 (H - H mod th) = q * th
  /\ 0 <= q * th < H
  /\ (forall yy, 0 <= yy < rm ->
        0 <= r0 + y yy < H /\ file_row tif (r0 + y yy) = q * th / th * th + yy)
  /\ (forall y', bot <= y' < bot + rm -> exists yy, 0 <= yy < rm /\ r0 + y yy = y').
Proof.
  intros Hrm0 r0 y.
  destruct geometry as (HH & Hrm & Hq & _ & _ & _ & _ & _ & HH32 & _ & H2).
  assert (Hqth : 0 < q * th) by (apply Z.mul_pos_pos; lia).
  assert (Hu : u32 (H - H mod th) = q * th).
  { fold rm. rewrite u32_id by lia. lia. }
  subst r0 y bot. cbv beta. fold rm.
  rewrite Z.div_mul by lia.
  split; [exact Hu|]. split; [lia|]. split.
  - intros yy Hyy. rewrite file_row_flip. destruct flip.
    + rewrite u32_id by lia. split; lia.
    + split; lia.
  - intros y' Hy'. destruct flip.
    + exists (rm - 1 - y'). rewrite u32_id by lia. split; lia.
    + exists (y' - q * th). split; lia.
Qed.

Lemma rect_split_cols (ylo yhi x1 x2 x3 a : Z) :
  rect tif ylo yhi x1 x3 a -> rect tif ylo yhi x1 x2 a \/ rect tif ylo yhi x2 x3 a.
Proof.
  unfold rect. intros (Ha & Hy & Hx).
  destruct (Z_lt_le_dec (a mod row_bytes tif) x2); [left | right]; repeat split; lia.
Qed.

Lemma rect_split_rows (y1 y2 y3 xlo xhi a : Z) :
  rect tif y1 y3 xlo xhi a -> rect tif y1 y2 xlo xhi a \/ rect tif y2 y3 xlo xhi a.
Proof.
  unfold rect. intros (Ha & Hy & Hx).
  destruct (Z_lt_le_dec (a / row_bytes tif) y2); [left | right]; repeat split; lia.
Qed.

Lemma rect_empty_cols (ylo yhi x a : Z) : ~ rect tif ylo yhi x x a.
Proof. unfold rect. lia. Qed.

Lemma rect_empty_rows (y xlo xhi a : Z) : ~ rect tif y y xlo xhi a.
Proof. unfold rect. lia. Qed.

(** The [col] loop over the full tiles of one tile row. *)
Lemma col_loop (fuel : nat) (rq r0 rows lo : Z) (y : Z -> Z)
    (S : Z -> Prop) (vol : buf) :
  (Z.to_nat (H + W) < fuel)%nat -> 0 <= rows <= th ->
  0 <= rq < H ->
  (forall yy, 0 <= yy < rows ->
     0 <= r0 + y yy < H /\ file_row tif (r0 + y yy) = rq / th * th + yy) ->
  (forall y', lo <= y' < lo + rows -> exists yy, 0 <= yy < rows /\ r0 + y yy = y') ->
  correct_on tif S vol ->
  exists vol',
    Tiff.for_loop fuel
      (fun col => col <? (if W mod tw =? 0 then W else u32 (W - tw)))
      (fun col => u32 (col + tw))
      (fun col volume =>
         match Tiff.TIFFReadTile (Tiff.Image I) col rq 0 0 with
         | None => Tiff.Failed volume
         | Some tile => Tiff.copy_tile_rows fuel I tile 0 r0 col rows tw y volume
         end) 0 vol = Tiff.Done vol'
    /\ correct_on tif (fun a => S a \/ rect tif lo (lo + rows) 0 (p * tw * ps) a) vol'.
Proof.
  intros Hfuel Hrows Hrq Hy Hsurj HS.
  destruct geometry as (HH & Hrm & Hq & HW & Hlx & Hp & Hps & _ & HH32 & HW32 & _).
  assert (HthH : 0 < th <= H) by exact th_range.
  assert (HtwW : 0 < tw <= W) by exact tw_range.
  assert (Hptw : p * tw <= W) by lia.
  assert (HpW : p <= W).
  { assert (p * 1 <= p * tw) by (apply Z.mul_le_mono_nonneg_l; lia). lia. }
  destruct col_bound as (B & -> & HB).
  destruct (for_loop_inv
              (fun k v => correct_on tif
                 (fun a => S a \/ rect tif lo (lo + rows) 0 (Z.of_nat k * tw * ps) a) v)
              (Z.to_nat p) fuel (fun col => col <? B)
              (fun col => u32 (col + tw))
              (fun col volume =>
                 match Tiff.TIFFReadTile (Tiff.Image I) col rq 0 0 with
                 | None => Tiff.Failed volume
                 | Some tile => Tiff.copy_tile_rows fuel I tile 0 r0 col rows tw y volume
                 end)
              (fun k => Z.of_nat k * tw) vol ltac:(lia)) as (vol' & E & HP).
  - eapply correct_on_weaken; [exact HS|].
    intros a [Ha|Ha]; [exact Ha|]. exfalso. exact (rect_empty_cols _ _ _ _ Ha).
  - intros k v Hk HPk.
    assert (Hkp : 0 <= Z.of_nat k <= p - 1) by lia.
    assert (Hktw : Z.of_nat k * tw <= (p - 1) * tw)
      by (apply Z.mul_le_mono_nonneg_r; lia).
    assert (Hk0 : 0 <= Z.of_nat k * tw) by (apply Z.mul_nonneg_nonneg; lia).
    split; [apply Z.ltb_lt; lia|].
    split; [rewrite u32_id by lia; rewrite Nat2Z.inj_succ; ring|].
    destruct (tile_pass fuel (Z.of_nat k) rq r0 rows tw lo y _ v
                ltac:(lia) Hrows ltac:(lia) ltac:(lia) ltac:(lia) Hrq Hy Hsurj HPk)
      as (v' & E' & Hv').
    exists v'. split; [exact E'|].
    eapply correct_on_weaken; [exact Hv'|].
    intros a [Ha|Ha]; [left; left; exact Ha|].
    rewrite Nat2Z.inj_succ in Ha.
    replace (Z.succ (Z.of_nat k) * tw * ps) with ((Z.of_nat k * tw + tw) * ps) in Ha
      by ring.
    destruct (rect_split_cols _ _ _ (Z.of_nat k * tw * ps) _ _ Ha) as [Hl|Hr].
    + left. right. exact Hl.
    + right. exact Hr.
  - apply Z.ltb_ge. rewrite Z2Nat.id by lia. lia.
  - exists vol'. split; [exact E|]. rewrite Z2Nat.id in HP by lia. exact HP.
Qed.

(** The file row the source reads for band [k] lies in the tile row that
    holds the band; the [- 1] of the flipped right-edge pass ([e = 1])
    needs a partial tile row to fall into. *)
Lemma band_tile_row (k e : Z) :
  0 <= k < q -> 0 <= e <= 1 -> (flip = true -> e <= rm) ->
  let rq := if flip then u32 (H - k * th - th - e) else k * th in
  0 <= rq < H
  /\ rq / th * th = (if flip then (q - k - 1) * th else k * th).
Proof.
  intros Hk He Hfe rq.
  destruct geometry as (HH & Hrm & Hq & _ & _ & _ & _ & _ & HH32 & _ & H2).
  assert (Hkth : 0 <= k * th) by (apply Z.mul_nonneg_nonneg; lia).
  assert (Hk1 : k * th + th <= q * th).
  { replace (k * th + th) with ((k + 1) * th) by ring.
    apply Z.mul_le_mono_nonneg_r; lia. }
  subst rq. destruct flip.
  - specialize (Hfe eq_refl). rewrite u32_id by lia.
    replace (H - k * th - th - e) with ((q - k - 1) * th + (rm - e)) by lia.
    rewrite div_band by lia.
    assert (0 <= (q - k - 1) * th) by (apply Z.mul_nonneg_nonneg; lia).
    split; [|reflexivity].
    replace ((q - k - 1) * th) with (q * th - (k * th + th)) in * by ring. lia.
  - replace (k * th) with (k * th + 0) at 3 by ring.
    rewrite div_band by lia. split; [lia | reflexivity].
Qed.

Lemma full_tiles_correct (fuel : nat) (buffer : buf) :
  (Z.to_nat (H + W) < fuel)%nat ->
  exists vol,
    Tiff.full_tiles fuel I buffer = Tiff.Done vol
    /\ correct_on tif (rect tif base (base + q * th) 0 (p * tw * ps)) vol.
Proof.
  intros Hfuel.
  destruct init_fields as (_ & HW & HH & Htw & Hth & _ & Hnp & Hor).
  destruct geometry as (HHq & Hrm & Hq & _ & _ & _ & _ & _ & HH32 & _ & H2).
  assert (HthH : 0 < th <= H) by exact th_range.
  assert (HqH : q <= H).
  { assert (q * 1 <= q * th) by (apply Z.mul_le_mono_nonneg_l; lia). lia. }
  unfold Tiff.full_tiles. rewrite HW, HH, Htw, Hth, Hnp, Hor. cbv zeta.
  apply (for_loop_inv
           (fun k v => match k with
                       | O => v = buffer
                       | _ => correct_on tif (rect tif base (base + q * th) 0 (p * tw * ps)) v
                       end)
           1 fuel _ _ _ Z.of_nat buffer ltac:(lia) eq_refl); [|reflexivity].
  intros k v Hk Hv. destruct k as [|k]; [|lia]. subst v.
  split; [reflexivity|]. split; [reflexivity|]. cbv beta.
  change (Z.of_nat 0) with 0.
  destruct row_bound as (B & HB & HBr). rewrite HB.
  destruct (for_loop_inv
              (fun k v => correct_on tif
                 (rect tif base (base + Z.of_nat k * th) 0 (p * tw * ps)) v)
              (Z.to_nat q) fuel (fun row => row <? B)
              (fun row => u32 (row + th))
              (fun row volume =>
                 Tiff.for_loop fuel
                   (fun col => col <? (if W mod tw =? 0 then W else u32 (W - tw)))
                   (fun col => u32 (col + tw))
                   (fun col volume =>
                      match
                        Tiff.TIFFReadTile (Tiff.Image I) col
                          (if flip then u32 (H - row - th) else row) 0 0
                      with
                      | Some tile =>
                          Tiff.copy_tile_rows fuel I tile 0 row col th tw
                            (fun yy => if flip then u32 (th + H mod th - yy - 1) else yy)
                            volume
                      | None => Tiff.Failed volume
                      end) 0 volume)
              (fun k => Z.of_nat k * th) buffer ltac:(lia)) as (vol & E & HP).
  - intros a Ha. exfalso. rewrite Z.add_0_r in Ha. exact (rect_empty_rows _ _ _ _ Ha).
  - intros k v Hk' HPk.
    assert (Hkq : 0 <= Z.of_nat k < q) by lia.
    assert (Hktw : Z.of_nat k * th <= (q - 1) * th)
      by (apply Z.mul_le_mono_nonneg_r; lia).
    assert (Hk0 : 0 <= Z.of_nat k * th) by (apply Z.mul_nonneg_nonneg; lia).
    split; [apply Z.ltb_lt; lia|].
    split; [rewrite u32_id by lia; rewrite Nat2Z.inj_succ; ring|].
    destruct (band_tile_row (Z.of_nat k) 0 Hkq ltac:(lia) ltac:(lia)) as [Hrq Hdiv].
    rewrite Z.sub_0_r in Hrq, Hdiv.
    destruct (band_rows (Z.of_nat k) _ Hkq Hdiv) as [Hy Hsurj].
    destruct (col_loop fuel _ (Z.of_nat k * th) th (base + Z.of_nat k * th) _ _ v
                Hfuel ltac:(lia) Hrq Hy Hsurj HPk) as (v' & E' & Hv').
    exists v'. split; [exact E'|].
    eapply correct_on_weaken; [exact Hv'|].
    intros a Ha. rewrite Nat2Z.inj_succ in Ha.
    replace (base + Z.succ (Z.of_nat k) * th) with (base + Z.of_nat k * th + th) in Ha
      by ring.
    destruct (rect_split_rows _ (base + Z.of_nat k * th) _ _ _ _ Ha) as [Hl|Hr];
      [left; exact Hl | right; exact Hr].
  - apply Z.ltb_ge. rewrite Z2Nat.id by lia. lia.
  - exists vol. split; [exact E|]. rewrite Z2Nat.id in HP by lia. exact HP.
Qed.

Lemma right_col : u32 (W - W mod tw) = p * tw /\ p * tw + lenx = W.
Proof.
  destruct geometry as (_ & _ & _ & HW & Hlx & Hp & _ & _ & _ & HW32 & _).
  assert (0 < p * tw) by (apply Z.mul_pos_pos; [lia | exact (proj1 tw_range)]).
  fold lenx. rewrite u32_id by lia. lia.
Qed.

(** The right-edge pass, when the width leaves a partial column of tiles;
    for a flipped file the height has to leave a partial row as well. *)
Lemma right_edge_correct (fuel : nat) (S : Z -> Prop) (vol : buf) :
  (Z.to_nat (H + W) < fuel)%nat ->
  (lenx <> 0 -> flip = true -> rm <> 0) ->
  correct_on tif S vol ->
  exists vol',
    Tiff.right_edge fuel I vol = Tiff.Done vol'
    /\ correct_on tif
         (fun a => S a \/ rect tif base (base + q * th) (p * tw * ps) (W * ps) a) vol'.
Proof.
  intros Hfuel Hsafe HS.
  destruct init_fields as (_ & HW & HH & Htw & Hth & _ & Hnp & Hor).
  destruct geometry as (HHq & Hrm & Hq & HWp & Hlx & Hp & _ & _ & HH32 & _ & H2).
  destruct right_col as [Hcol Hsum].
  assert (HthH : 0 < th <= H) by exact th_range.
  assert (HqH : q <= H).
  { assert (q * 1 <= q * th) by (apply Z.mul_le_mono_nonneg_l; lia). lia. }
  unfold Tiff.right_edge. rewrite HW, HH, Htw, Hth, Hor. cbv zeta.
  destruct (Z.eqb_spec (W mod tw) 0) as [Hl0|Hl0]; cbn [negb].
  { exists vol. split; [reflexivity|].
    eapply correct_on_weaken; [exact HS|].
    intros a [Ha|Ha]; [exact Ha|]. exfalso.
    fold lenx in Hl0. replace (W * ps) with (p * tw * ps) in Ha
      by (rewrite <- Hsum, Hl0; ring).
    exact (rect_empty_cols _ _ _ _ Ha). }
  rewrite Hcol.
  destruct row_bound as (B & HB & HBr). rewrite HB.
  destruct (for_loop_inv
              (fun k v => correct_on tif
                 (fun a => S a
                    \/ rect tif base (base + Z.of_nat k * th) (p * tw * ps) (W * ps) a) v)
              (Z.to_nat q) fuel (fun row => row <? B)
              (fun row => u32 (row + th))
              (fun row volume =>
                 match
                   Tiff.TIFFReadTile (Tiff.Image I) (p * tw)
                     (if flip then u32 (H - row - th - 1) else row) 0 0
                 with
                 | Some tile =>
                     Tiff.copy_tile_rows fuel I tile 0 row (p * tw) th (W mod tw)
                       (fun yy => if flip then u32 (th + H mod th - yy - 1) else yy)
                       volume
                 | None => Tiff.Failed volume
                 end)
              (fun k => Z.of_nat k * th) vol ltac:(lia)) as (vol' & E & HP).
  - eapply correct_on_weaken; [exact HS|].
    intros a [Ha|Ha]; [exact Ha|]. exfalso.
    rewrite Z.add_0_r in Ha. exact (rect_empty_rows _ _ _ _ Ha).
  - intros k v Hk' HPk.
    assert (Hkq : 0 <= Z.of_nat k < q) by lia.
    assert (Hktw : Z.of_nat k * th <= (q - 1) * th)
      by (apply Z.mul_le_mono_nonneg_r; lia).
    assert (Hk0 : 0 <= Z.of_nat k * th) by (apply Z.mul_nonneg_nonneg; lia).
    split; [apply Z.ltb_lt; lia|].
    split; [rewrite u32_id by lia; rewrite Nat2Z.inj_succ; ring|].
    assert (Hfe : flip = true -> 1 <= rm).
    { intros Hf. specialize (Hsafe Hl0 Hf). lia. }
    destruct (band_tile_row (Z.of_nat k) 1 Hkq ltac:(lia) Hfe) as [Hrq Hdiv].
    destruct (band_rows (Z.of_nat k) _ Hkq Hdiv) as [Hy Hsurj].
    fold lenx in Hl0.
    destruct (tile_pass fuel p _ (Z.of_nat k * th) th lenx (base + Z.of_nat k * th) _ _ v
                ltac:(lia) ltac:(lia) ltac:(lia) ltac:(lia) ltac:(lia) Hrq Hy Hsurj HPk)
      as (v' & E' & Hv').
    exists v'. split; [exact E'|].
    eapply correct_on_weaken; [exact Hv'|].
    intros a [Ha|Ha]; [left; left; exact Ha|].
    rewrite Nat2Z.inj_succ in Ha.
    replace (base + Z.succ (Z.of_nat k) * th) with (base + Z.of_nat k * th + th) in Ha
      by ring.
    rewrite Hsum.
    destruct (rect_split_rows _ (base + Z.of_nat k * th) _ _ _ _ Ha) as [Hl|Hr];
      [left; right; exact Hl | right; exact Hr].
  - apply Z.ltb_ge. rewrite Z2Nat.id by lia. lia.
  - exists vol'. split; [exact E|]. rewrite Z2Nat.id in HP by lia. exact HP.
Qed.

Lemma bottom_edge_correct (fuel : nat) (S : Z -> Prop) (vol : buf) :
  (Z.to_nat (H + W) < fuel)%nat ->
  correct_on tif S vol ->
  exists vol',
    Tiff.bottom_edge fuel I vol = Tiff.Done vol'
    /\ correct_on tif (fun a => S a \/ rect tif bot (bot + rm) 0 (p * tw * ps) a) vol'.
Proof.
  intros Hfuel HS.
  destruct init_fields as (_ & HW & HH & Htw & Hth & _ & Hnp & Hor).
  destruct geometry as (HHq & Hrm & Hq & HWp & Hlx & Hp & _ & _ & HH32 & _ & H2).
  unfold Tiff.bottom_edge. rewrite HW, HH, Htw, Hth, Hor. cbv zeta.
  destruct (Z.eqb_spec (H mod th) 0) as [Hr0|Hr0]; cbn [negb].
  { exists vol. split; [reflexivity|].
    eapply correct_on_weaken; [exact HS|].
    intros a [Ha|Ha]; [exact Ha|]. exfalso.
    fold rm in Hr0. rewrite Hr0, Z.add_0_r in Ha.
    exact (rect_empty_rows _ _ _ _ Ha). }
  destruct (strip_rows Hr0) as (Hrow & Hrq & Hy & Hsurj).
  rewrite Hrow.
  apply (col_loop fuel (q * th) _ rm bot _ S vol Hfuel ltac:(lia) Hrq Hy Hsurj HS).
Qed.

Lemma corner_tile_correct (fuel : nat) (S : Z -> Prop) (vol : buf) :
  (Z.to_nat (H + W) < fuel)%nat ->
  correct_on tif S vol ->
  exists vol',
    Tiff.corner_tile fuel I vol = Tiff.Done vol'
    /\ correct_on tif
         (fun a => S a \/ rect tif bot (bot + rm) (p * tw * ps) (W * ps) a) vol'.
Proof.
  intros Hfuel HS.
  destruct init_fields as (_ & HW & HH & Htw & Hth & _ & Hnp & Hor).
  destruct geometry as (HHq & Hrm & Hq & HWp & Hlx & Hp & _ & _ & HH32 & _ & H2).
  destruct right_col as [Hcol Hsum].
  unfold Tiff.corner_tile. rewrite HW, HH, Htw, Hth, Hor. cbv zeta.
  destruct (Z.eqb_spec (W mod tw) 0) as [Hl0|Hl0]; cbn [negb andb].
  { exists vol. split; [reflexivity|].
    eapply correct_on_weaken; [exact HS|].
    intros a [Ha|Ha]; [exact Ha|]. exfalso.
    fold lenx in Hl0. replace (W * ps) with (p * tw * ps) in Ha
      by (rewrite <- Hsum, Hl0; ring).
    exact (rect_empty_cols _ _ _ _ Ha). }
  destruct (Z.eqb_spec (H mod th) 0) as [Hr0|Hr0]; cbn [negb].
  { exists vol. split; [reflexivity|].
    eapply correct_on_weaken; [exact HS|].
    intros a [Ha|Ha]; [exact Ha|]. exfalso.
    fold rm in Hr0. rewrite Hr0, Z.add_0_r in Ha.
    exact (rect_empty_rows _ _ _ _ Ha). }
  destruct (strip_rows Hr0) as (Hrow & Hrq & Hy & Hsurj).
  rewrite Hrow, Hcol.
  replace (W * ps) with ((p * tw + lenx) * ps) by (rewrite Hsum; reflexivity).
  fold lenx in Hl0.
  apply (tile_pass fuel p (q * th) _ rm lenx bot _ S vol
           ltac:(lia) ltac:(lia) ltac:(lia) ltac:(lia) ltac:(lia) Hrq Hy Hsurj HS).
Qed.

(** Tile decode of 8-bit files: [ReadTiles] runs to its end and fills the
    whole plane with the file's rows, in the order the orientation asks
    for, unless the file is flipped, its height is a multiple of the tile
    height and its width is not a multiple of the tile width. *)
Lemma ReadTiles_decodes (fuel : nat) (buffer : buf) :
  (Z.to_nat (H + W) < fuel)%nat ->
  flip = false \/ H mod th <> 0 \/ W mod tw = 0 ->
  exists vol, Tiff.ReadTiles fuel I buffer = Tiff.Done vol /\ decoded tif vol.
Proof.
  intros Hfuel Hsafe.
  destruct geometry as (HHq & Hrm & Hq & HWp & Hlx & Hp & Hps & _ & _ & _ & _).
  pose proof RW_pos as HRW.
  assert (Hedge : lenx <> 0 -> flip = true -> rm <> 0).
  { intros Hl Hf. destruct Hsafe as [Hs|[Hs|Hs]]; [congruence | exact Hs | contradiction]. }
  destruct (full_tiles_correct fuel buffer Hfuel) as (v1 & E1 & C1).
  destruct (right_edge_correct fuel _ v1 Hfuel Hedge C1) as (v2 & E2 & C2).
  destruct (bottom_edge_correct fuel _ v2 Hfuel C2) as (v3 & E3 & C3).
  destruct (corner_tile_correct fuel _ v3 Hfuel C3) as (v4 & E4 & C4).
  exists v4. split.
  - unfold Tiff.ReadTiles. cbv zeta. rewrite E1. cbn [Tiff.obind].
    rewrite E2. cbn [Tiff.obind]. rewrite E3. cbn [Tiff.obind]. exact E4.
  - intros y x Hy Hx. fold H in Hy. fold RW in Hx |- *.
    assert (Hy0 : 0 <= y * RW) by (apply Z.mul_nonneg_nonneg; lia).
    destruct (div_mod_offset y x RW Hx) as [Hd Hm].
    rewrite (C4 (y * RW + x)).
    + unfold plane_byte. fold RW. rewrite Hd, Hm. reflexivity.
    + assert (Hrows : base <= y < base + q * th \/ bot <= y < bot + rm).
      { subst base bot. destruct flip; lia. }
      assert (Hcols : 0 <= x < p * tw * ps \/ p * tw * ps <= x < W * ps).
      { rewrite RW_eq in Hx. lia. }
      unfold rect. fold RW. rewrite Hd, Hm.
      destruct Hrows as [Hr|Hr], Hcols as [Hc|Hc].
      * left. left. left. repeat split; lia.
      * left. left. right. repeat split; lia.
      * left. right. repeat split; lia.
      * right. repeat split; lia.
Qed.

End TileDecode.

(** ** The scanline decode of an untiled 8-bit grey-scale file *)

Section ScanlineDecode.

Variable tif : Tiff.TIFF.

Hypothesis untiled : Tiff.IsTiled tif = false.
Hypothesis bits8 : Tiff.BitsPerSampleTag tif = 8.
Hypothesis one_sample : Tiff.SamplesPerPixelTag tif = 1.
Hypothesis min_is_black : Tiff.PhotometricTag tif = Some Tiff.PHOTOMETRIC_MINISBLACK.
Hypothesis width_pos : 0 < Tiff.ImageWidth tif.
Hypothesis height_pos : 0 < Tiff.ImageLength tif.
Hypothesis plane_small : Tiff.ImageLength tif * Tiff.ImageWidth tif < 2 ^ 31.

Let W := Tiff.ImageWidth tif.
Let H := Tiff.ImageLength tif.
Let flip := if default Tiff.ORIENTATION_BOTLEFT (Tiff.OrientationTag tif)
               =? Tiff.ORIENTATION_TOPLEFT
            then Tiff.FlipFalse else Tiff.FlipTrue.

Lemma scan_sizes :
  row_bytes tif = W /\ Tiff.TIFFScanlineSize tif = W
  /\ H <= INT_MAX /\ W <= INT_MAX /\ wrap_int H = H.
Proof.
  assert (HW : 0 < W) by exact width_pos.
  assert (HH : 0 < H) by exact height_pos.
  assert (Hs : H * W < 2 ^ 31) by exact plane_small.
  assert (H1 : H * 1 <= H * W) by (apply Z.mul_le_mono_nonneg_l; lia).
  assert (H2 : 1 * W <= H * W) by (apply Z.mul_le_mono_nonneg_r; lia).
  assert (Hi : H <= INT_MAX) by (unfold INT_MAX; lia).
  unfold row_bytes, Tiff.TIFFScanlineSize. rewrite bits8, one_sample. fold W.
  rewrite Z.mul_1_r.
  replace (W * 8 + 7) with (7 + W * 8) by ring. rewrite Z.div_add by lia.
  repeat split; try reflexivity; try exact Hi; try (unfold INT_MAX; lia).
  apply wrap_int_id. unfold INT_MAX in *. lia.
Qed.

(** The image row of a file row, and back. *)
Lemma image_row (fi : Z) :
  0 <= fi < H ->
  0 <= Tiff.GetImageRow fi H flip < H
  /\ file_row tif (Tiff.GetImageRow fi H flip) = fi.
Proof.
  intros Hfi. destruct scan_sizes as (_ & _ & Hi & _ & _).
  unfold file_row, Tiff.GetImageRow. subst flip. fold H.
  destruct (_ =? _).
  - cbn [Tiff.GetFileRow]. lia.
  - rewrite GetFileRow_flip by lia. lia.
Qed.

Lemma file_rows_visited :
  Z.min (Tiff.GetFileRow 0 H flip) (Tiff.GetFileRow (H - 1) H flip) = 0
  /\ Z.max (Tiff.GetFileRow 0 H flip) (Tiff.GetFileRow (H - 1) H flip) = H - 1.
Proof.
  destruct scan_sizes as (_ & _ & Hi & _ & _).
  assert (HH : 0 < H) by exact height_pos.
  destruct flip.
  - rewrite !GetFileRow_flip by lia. lia.
  - cbn [Tiff.GetFileRow]. lia.
Qed.

Lemma ReadTemplatedImage_decodes (fuel : nat) (mem : buf) :
  (Z.to_nat H < fuel)%nat ->
  exists vol,
    Tiff.ReadTemplatedImage fuel Tiff.VTK_UNSIGNED_CHAR mem 0 flip
      0 (W - 1) 0 (H - 1) (wrap_int W) H tif = Tiff.Done vol
    /\ decoded tif vol.
Proof.
  intros Hfuel.
  destruct scan_sizes as (HRW & Hsl & Hi & HWi & HwH).
  destruct file_rows_visited as [Hmin Hmax].
  assert (HW : 0 < W) by exact width_pos.
  assert (HH : 0 < H) by exact height_pos.
  assert (Hs : H * W < 2 ^ 31) by exact plane_small.
  assert (HwW : wrap_int W = W) by (apply wrap_int_id; unfold INT_MAX in *; lia).
  unfold Tiff.ReadTemplatedImage. cbv zeta.
  rewrite HwH, HwW, Hmin, Hmax, Hsl.
  unfold Tiff.PurgeInitialScanLinesIfNeeded. change (0 =? 0) with true. cbn [orb].
  change (Tiff.sizeof Tiff.VTK_UNSIGNED_CHAR) with 1.
  rewrite u32_id by lia.
  replace ((W - 1 - 0 + 1) * 1 =? W) with true by (symmetry; apply Z.eqb_eq; lia).
  destruct (for_loop_inv
              (fun k v => correct_on tif
                 (fun a => exists fi, 0 <= fi < Z.of_nat k
                    /\ rect tif (Tiff.GetImageRow fi H flip)
                         (Tiff.GetImageRow fi H flip + 1) 0 W a) v)
              (Z.to_nat H) fuel (fun fi => fi <=? H - 1) (fun fi => wrap_int (fi + 1))
              (fun fi mem =>
                 match Tiff.TIFFReadScanline tif fi 0 with
                 | Some line =>
                     Tiff.Done (memcpy mem
                       (0 + (Tiff.GetImageRow fi H flip - 0) * W * 1) line 0 W)
                 | None => Tiff.Failed mem
                 end)
              Z.of_nat mem Hfuel) as (vol & E & HP).
  - intros a (fi & Hfi & _). lia.
  - intros k v Hk HPk.
    assert (Hkr : 0 <= Z.of_nat k < H) by lia.
    split; [apply Z.leb_le; lia|].
    split; [rewrite wrap_int_id by (unfold INT_MAX in *; lia); lia|].
    unfold Tiff.TIFFReadScanline. rewrite untiled. fold H.
    replace ((0 <=? Z.of_nat k) && (Z.of_nat k <? H)) with true.
    2:{ symmetry. apply andb_true_iff. split; [apply Z.leb_le | apply Z.ltb_lt]; lia. }
    eexists. split; [reflexivity|].
    destruct (image_row _ Hkr) as [Hr Hf].
    set (i := Tiff.GetImageRow (Z.of_nat k) H flip) in *.
    replace (0 + (i - 0) * W * 1) with (i * W) by ring.
    eapply correct_on_weaken.
    + apply (correct_on_memcpy tif _ (rect tif i (i + 1) 0 W) _ _ _ _ _ HPk).
      * intros a (Ha0 & Hdiv & Hmod). rewrite HRW in Hdiv, Hmod.
        pose proof (Z.div_mod a W ltac:(lia)) as Hdm.
        assert (Ei : a / W = i) by lia. rewrite Ei in Hdm. lia.
      * intros a Ha. unfold plane_byte. rewrite HRW.
        set (j := a - i * W).
        assert (Ea : i * W + j = a) by (subst j; ring).
        destruct (div_mod_offset i j W ltac:(subst j; lia)) as [Hd Hm].
        rewrite Ea in Hd, Hm. rewrite Hd, Hm, Hf. reflexivity.
    + intros a (fi & Hfi & Hrect). rewrite Nat2Z.inj_succ in Hfi.
      destruct (Z.eq_dec fi (Z.of_nat k)) as [->|Hne].
      * right. exact Hrect.
      * left. exists fi. split; [lia | exact Hrect].
  - apply Z.leb_gt. rewrite Z2Nat.id by lia. lia.
  - exists vol. split; [exact E|].
    rewrite Z2Nat.id in HP by lia.
    intros y x Hy Hx. fold H in Hy. rewrite HRW in Hx |- *.
    destruct (div_mod_offset y x W Hx) as [Hd Hm].
    assert (Hfy : 0 <= file_row tif y < H).
    { unfold file_row. fold H. destruct (_ =? _); lia. }
    destruct (image_row _ Hfy) as [Hr Hf].
    assert (Ey : Tiff.GetImageRow (file_row tif y) H flip = y).
    { revert Hr Hf. unfold file_row. fold H.
      destruct (_ =? _); intros; lia. }
    assert (Hy0 : 0 <= y * W) by (apply Z.mul_nonneg_nonneg; lia).
    rewrite (HP (y * W + x)).
    + unfold plane_byte. rewrite HRW, Hd, Hm. reflexivity.
    + exists (file_row tif y). split; [exact Hfy|]. rewrite Ey.
      unfold rect. rewrite HRW, Hd, Hm. lia.
Qed.

(** [ReadGenericImage] takes the scanline path for such a file and decodes
    the whole plane. *)
Lemma ReadGenericImage_scanlines (fuel : nat) (mem : buf) :
  (Z.to_nat H < fuel)%nat ->
  exists vol c,
    Tiff.ReadGenericImage fuel Tiff.VTK_UNSIGNED_CHAR
      (whole_image_reader tif Tiff.VTK_UNSIGNED_CHAR) Tiff.InitCache mem 0 H
    = Tiff.Done (vol, c)
    /\ decoded tif vol.
Proof.
  intros Hfuel.
  destruct (ReadTemplatedImage_decodes fuel mem Hfuel) as (vol & E & Hdec).
  exists vol. eexists. split; [|exact Hdec].
  unfold Tiff.ReadGenericImage, whole_image_reader, Tiff.OE, Tiff.OI.
  cbn [Tiff.Internals Tiff.OutputExtent Tiff.OutputIncrements nth].
  unfold Tiff.GetFormat, Tiff.Initialize.
  cbn [Tiff.Image Tiff.Photometrics Tiff.PlanarConfig Tiff.SamplesPerPixel
       Tiff.Orientation Tiff.ImageFormat Tiff.InitCache Tiff.Format_eqb negb].
  rewrite min_is_black, one_sample. cbn [default].
  change (Tiff.PHOTOMETRIC_MINISBLACK =? Tiff.PHOTOMETRIC_RGB) with false.
  change (Tiff.PHOTOMETRIC_MINISBLACK =? Tiff.PHOTOMETRIC_YCBCR) with false.
  change (Tiff.PHOTOMETRIC_MINISBLACK =? Tiff.PHOTOMETRIC_MINISWHITE) with false.
  change (Tiff.PHOTOMETRIC_MINISBLACK =? Tiff.PHOTOMETRIC_MINISBLACK) with true.
  change (1 =? 1) with true.
  change (Tiff.PLANARCONFIG_CONTIG =? Tiff.PLANARCONFIG_CONTIG) with true.
  cbn [orb andb Tiff.Format_eqb].
  fold W H flip. rewrite E. reflexivity.
Qed.

End ScanlineDecode.

(** ** Tiles against scanlines *)

(** Tile decode of 8-bit files whose width and height are both not
    multiples of the tile size: [ReadTiles] runs to its end and fills the
    whole plane with the file's rows, in the order the orientation asks
    for; the four passes cover the plane, each with the rectangle its tiles
    are valid on. *)
Theorem ReadTiles_decodes_8bit (tif : Tiff.TIFF) :
  Tiff.IsTiled tif = true ->
  Tiff.Directories tif = 1 ->
  Tiff.BitsPerSampleTag tif = 8 ->
  0 < Tiff.SamplesPerPixelTag tif ->
  0 < Tiff.TileWidthTag tif < Tiff.ImageWidth tif ->
  0 < Tiff.TileLengthTag tif < Tiff.ImageLength tif ->
  Tiff.ImageLength tif * (Tiff.ImageWidth tif * Tiff.SamplesPerPixelTag tif) < 2 ^ 32 ->
  Tiff.ImageWidth tif mod Tiff.TileWidthTag tif <> 0 ->
  Tiff.ImageLength tif mod Tiff.TileLengthTag tif <> 0 ->
  forall (fuel : nat) (buffer : buf),
  (Z.to_nat (Tiff.ImageLength tif + Tiff.ImageWidth tif) < fuel)%nat ->
  exists vol,
    Tiff.ReadTiles fuel (Tiff.Initialize tif) buffer = Tiff.Done vol /\ decoded tif vol.
Proof.
  intros Htiled Hdirs Hbits Hspp Htw Hth Hsmall Hwp Hhp fuel buffer Hfuel.
  apply (ReadTiles_decodes tif Htiled Hdirs Hbits Hspp ltac:(lia) ltac:(lia) Hsmall
           fuel buffer Hfuel).
  right. left. exact Hhp.
Qed.

(** Two buffers that both hold the decoded plane agree on it. *)
Lemma decoded_agree (tif tif' : Tiff.TIFF) (vol vol' : buf) :
  Tiff.SamplesPerPixelTag tif = 1 -> 0 < Tiff.ImageWidth tif ->
  Tiff.ImageWidth tif' = Tiff.ImageWidth tif ->
  Tiff.ImageLength tif' = Tiff.ImageLength tif ->
  Tiff.SamplesPerPixelTag tif' = 1 ->
  Tiff.OrientationTag tif' = Tiff.OrientationTag tif ->
  Tiff.Raster tif' = Tiff.Raster tif ->
  decoded tif vol -> decoded tif' vol' ->
  forall a, 0 <= a < Tiff.ImageLength tif * Tiff.ImageWidth tif -> vol a = vol' a.
Proof.
  intros Hspp HW EW EH Hspp' EO ER Dt Dr a Ha.
  assert (ERW : row_bytes tif = Tiff.ImageWidth tif).
  { unfold row_bytes. rewrite Hspp. ring. }
  assert (ERW' : row_bytes tif' = Tiff.ImageWidth tif).
  { unfold row_bytes. rewrite Hspp', EW. ring. }
  pose proof (Z.div_mod a (Tiff.ImageWidth tif) ltac:(lia)) as Hdm.
  pose proof (Z.mod_pos_bound a (Tiff.ImageWidth tif) HW) as Hmb.
  assert (Hy : 0 <= a / Tiff.ImageWidth tif < Tiff.ImageLength tif).
  { split; [apply Z.div_pos; lia|].
    apply Z.div_lt_upper_bound; [lia|]. rewrite Z.mul_comm. lia. }
  specialize (Dt (a / Tiff.ImageWidth tif) (a mod Tiff.ImageWidth tif) Hy
                ltac:(rewrite ERW; exact Hmb)).
  specialize (Dr (a / Tiff.ImageWidth tif) (a mod Tiff.ImageWidth tif)
                ltac:(rewrite EH; exact Hy) ltac:(rewrite ERW'; exact Hmb)).
  rewrite ERW in Dt. rewrite ERW' in Dr.
  replace (a / Tiff.ImageWidth tif * Tiff.ImageWidth tif + a mod Tiff.ImageWidth tif)
    with a in Dt, Dr by lia.
  rewrite Dt, Dr, ER. unfold file_row. rewrite EO, EH. reflexivity.
Qed.

(** For an 8-bit grey-scale file whose width and height are not multiples
    of the tile size, the tile decode and the scanline decode of the same
    pixels stored untiled both run to their end and fill the plane with the
    same bytes. *)
Theorem tile_decode_matches_scanline_8bit (tif : Tiff.TIFF) (fuel : nat)
    (buffer buffer' : buf) :
  Tiff.IsTiled tif = true ->
  Tiff.Directories tif = 1 ->
  Tiff.BitsPerSampleTag tif = 8 ->
  Tiff.SamplesPerPixelTag tif = 1 ->
  Tiff.PhotometricTag tif = Some Tiff.PHOTOMETRIC_MINISBLACK ->
  0 < Tiff.TileWidthTag tif < Tiff.ImageWidth tif ->
  0 < Tiff.TileLengthTag tif < Tiff.ImageLength tif ->
  Tiff.ImageLength tif * Tiff.ImageWidth tif < 2 ^ 31 ->
  Tiff.ImageWidth tif mod Tiff.TileWidthTag tif <> 0 ->
  Tiff.ImageLength tif mod Tiff.TileLengthTag tif <> 0 ->
  (Z.to_nat (Tiff.ImageLength tif + Tiff.ImageWidth tif) < fuel)%nat ->
  exists tiles rows c,
    Tiff.ReadTiles fuel (Tiff.Initialize tif) buffer = Tiff.Done tiles
    /\ Tiff.ReadGenericImage fuel Tiff.VTK_UNSIGNED_CHAR
         (whole_image_reader (untiled_twin tif) Tiff.VTK_UNSIGNED_CHAR)
         Tiff.InitCache buffer' 0 (Tiff.ImageLength tif) = Tiff.Done (rows, c)
    /\ forall a, 0 <= a < Tiff.ImageLength tif * Tiff.ImageWidth tif ->
         tiles a = rows a.
Proof.
  intros Htiled Hdirs Hbits Hspp Hphoto Htw Hth Hsmall Hwp Hhp Hfuel.
  destruct (ReadTiles_decodes tif Htiled Hdirs Hbits ltac:(lia) ltac:(lia) ltac:(lia)
              ltac:(rewrite Hspp; lia) fuel buffer Hfuel (or_intror (or_introl Hhp)))
    as (tiles & Et & Dt).
  destruct (ReadGenericImage_scanlines (untiled_twin tif) eq_refl Hbits Hspp Hphoto
              ltac:(cbn; lia) ltac:(cbn; lia) Hsmall fuel buffer' ltac:(cbn; lia))
    as (rows & c & Er & Dr).
  exists tiles, rows, c. split; [exact Et|]. split; [exact Er|].
  apply (decoded_agree tif (untiled_twin tif)); try reflexivity; try assumption; lia.
Qed.

(** The theorem at the 24 x 24 file in 16 x 16 tiles, stored bottom-up. *)
Lemma tile_decode_matches_scanline_8bit_example :
  exists tiles rows c,
    Tiff.ReadTiles 64 (Tiff.Initialize (tiled8 Tiff.ORIENTATION_BOTLEFT)) (fun _ => 0xEE)
      = Tiff.Done tiles
    /\ Tiff.ReadGenericImage 64 Tiff.VTK_UNSIGNED_CHAR
         (whole_image_reader (untiled_twin (tiled8 Tiff.ORIENTATION_BOTLEFT))
            Tiff.VTK_UNSIGNED_CHAR)
         Tiff.InitCache (fun _ => 0xEE) 0 24 = Tiff.Done (rows, c)
    /\ forall a, 0 <= a < 24 * 24 -> tiles a = rows a.
Proof.
  apply (tile_decode_matches_scanline_8bit (tiled8 Tiff.ORIENTATION_BOTLEFT) 64);
    cbn; try reflexivity; try lia; discriminate.
Defined.

(** ** C1 and C2: the tile decode against the scanline decode *)

(** With 8-bit samples and both dimensions not a multiple of the tile
    size, 24 x 24 pixels in 16 x 16 tiles decode, tile by tile, to the bytes
    the scanline decode of the same pixels gives, for a file stored top-down
    and for one stored bottom-up. *)
Example tile_decode_8bit_topleft :
  tile_decode (tiled8 Tiff.ORIENTATION_TOPLEFT)
  = scanline_decode Tiff.VTK_UNSIGNED_CHAR (rows8 Tiff.ORIENTATION_TOPLEFT).
Proof. vm_compute. reflexivity. Qed.

Example tile_decode_8bit_botleft :
  tile_decode (tiled8 Tiff.ORIENTATION_BOTLEFT)
  = scanline_decode Tiff.VTK_UNSIGNED_CHAR (rows8 Tiff.ORIENTATION_BOTLEFT).
Proof. vm_compute. reflexivity. Qed.

(** The scanline decode of a bottom-up file is the mirror image of the
    scanline decode of the same rows stored top-down. *)
Example scanline_decode_mirrored :
  option_map snd (scanline_decode Tiff.VTK_UNSIGNED_CHAR (rows8 Tiff.ORIENTATION_BOTLEFT))
  = option_map (fun p => mirror_rows 24 24 (snd p))
      (scanline_decode Tiff.VTK_UNSIGNED_CHAR (rows8 Tiff.ORIENTATION_TOPLEFT)).
Proof. vm_compute. reflexivity. Qed.

(** C1 on 24 x 24 pixels of 16 bits in 16 x 16 tiles: the scanline decode
    gives the pixel bytes of the file; ReadTiles runs to its end but counts
    one byte per sample, so that it fills only the first half of the plane
    (the second half is left as it was) and puts bytes in wrong places:
    byte 16 of the plane is byte 32 of the first tile row. *)
Theorem tile_decode_16bit_differs :
  scanline_decode Tiff.VTK_UNSIGNED_SHORT rows16 = Some (true, file_bytes rows16)
  /\ exists l,
       tile_decode tiled16 = Some (true, l)
       /\ l <> file_bytes rows16
       /\ nth 16 l 0 = 32 /\ nth 16 (file_bytes rows16) 0 = 16
       /\ skipn 576 l = repeat 0xEE 576.
Proof.
  split; [vm_compute; reflexivity|].
  eexists. split; [vm_compute; reflexivity|].
  split; [|vm_compute; repeat split; reflexivity].
  intros H. apply (f_equal (fun l => nth 16 l 0)) in H. vm_compute in H. discriminate H.
Qed.

(** C2 on 24 x 32 pixels of 8 bits in 16 x 16 tiles: the file stored
    top-down decodes to its pixel bytes.  For the same rows stored
    bottom-up the right-edge pass asks for the tile at file row
    [height - row - tileHeight - 1]: output row 15 receives, in columns
    16 to 23, file row 0 where the mirror image has file row 16, and the
    next request, for row -1, fails and ends the decode. *)
Theorem tile_decode_flip_right_edge :
  tile_decode tiled_top = Some (true, file_bytes tiled_top)
  /\ exists l,
       tile_decode tiled_bot = Some (false, l)
       /\ l <> mirror_rows 24 32 (file_bytes tiled_top)
       /\ nth (24 * 15 + 16) l 0 = Tiff.Raster tiled_bot 0 16
       /\ nth (24 * 15 + 16) (mirror_rows 24 32 (file_bytes tiled_top)) 0
          = Tiff.Raster tiled_bot 16 16
       /\ Tiff.Raster tiled_bot 0 16 <> Tiff.Raster tiled_bot 16 16.
Proof.
  split; [vm_compute; reflexivity|].
  eexists. split; [vm_compute; reflexivity|].
  split; [|vm_compute; repeat split; try reflexivity; discriminate].
  intros H. apply (f_equal (fun l => nth (24 * 15 + 16) l 0)) in H.
  vm_compute in H. discriminate H.
Qed.

(** ** The pixel-by-pixel path of ReadGenericImage *)

(** A write that puts the decoded bytes on [doff, doff + n) and leaves the
    rest of the buffer alone. *)
Lemma correct_on_update (tif : Tiff.TIFF) (S R : Z -> Prop) (vol vol' : buf)
    (doff n : Z) :
  correct_on tif S vol ->
  (forall a, R a -> doff <= a < doff + n) ->
  (forall a, doff <= a < doff + n -> vol' a = plane_byte tif a) ->
  (forall a, a < doff \/ doff + n <= a -> vol' a = vol a) ->
  correct_on tif (fun a => S a \/ R a) vol'.
Proof.
  intros HS HR Hin Hout a Ha.
  destruct (Z_lt_le_dec a doff) as [Hlo|Hlo];
    [|destruct (Z_lt_le_dec a (doff + n)) as [Hhi|Hhi]].
  - rewrite Hout by lia. destruct Ha as [Ha|Ha]; [apply HS; exact Ha|].
    apply HR in Ha. lia.
  - apply Hin. lia.
  - rewrite Hout by lia. destruct Ha as [Ha|Ha]; [apply HS; exact Ha|].
    apply HR in Ha. lia.
Qed.

(** A byte store. *)
Lemma store_byte (mem : buf) (off v a : Z) :
  Tiff.store Tiff.VTK_UNSIGNED_CHAR mem off v a = if a =? off then v mod 256 else mem a.
Proof.
  unfold Tiff.store. change (Tiff.sizeof Tiff.VTK_UNSIGNED_CHAR) with 1.
  destruct (Z.eqb_spec a off) as [->|Hne].
  - rewrite Z.leb_refl. replace (off <? off + 1) with true by (symmetry; apply Z.ltb_lt; lia).
    cbn [andb]. rewrite Z.sub_diag. change (256 ^ 0) with 1. rewrite Z.div_1_r. reflexivity.
  - destruct (Z.leb_spec off a); destruct (Z.ltb_spec a (off + 1)); cbn [andb];
      try reflexivity; lia.
Qed.

(** EvaluateImageAt on an RGB image whose format is already cached: three
    bytes are copied, whatever the sample type. *)
Lemma EvaluateImageAt_rgb3 (T : Tiff.ScalarType) (R : Tiff.Reader) (c : Tiff.Cache)
    (mem src : buf) (out inp : Z) :
  Tiff.ImageFormat c = Tiff.RGB ->
  Tiff.SamplesPerPixel (Tiff.Internals R) = 3 ->
  exists mem',
    Tiff.EvaluateImageAt T R c mem out src inp = (3, mem', c)
    /\ (forall a, out <= a < out + 3 -> mem' a = src (inp + (a - out)) mod 256)
    /\ (forall a, a < out \/ out + 3 <= a -> mem' a = mem a).
Proof.
  intros Hf Hspp. unfold Tiff.EvaluateImageAt, Tiff.GetFormat.
  rewrite Hf. cbn [Tiff.Format_eqb negb]. rewrite Hspp.
  change (3 =? 4) with false. cbv iota.
  eexists. split; [reflexivity|]. split.
  - intros a Ha. rewrite !store_byte.
    destruct (Z.eqb_spec a (out + 2)) as [->|H2].
    { f_equal. f_equal. lia. }
    destruct (Z.eqb_spec a (out + 1)) as [->|H1].
    { f_equal. f_equal. lia. }
    destruct (Z.eqb_spec a out) as [->|H0]; [|lia].
    f_equal. f_equal. lia.
  - intros a Ha. rewrite !store_byte.
    destruct (Z.eqb_spec a (out + 2)); [lia|].
    destruct (Z.eqb_spec a (out + 1)); [lia|].
    destruct (Z.eqb_spec a out); [lia | reflexivity].
Qed.

Section RgbDecode.

Variable tif : Tiff.TIFF.

Hypothesis untiled : Tiff.IsTiled tif = false.
Hypothesis bits8 : Tiff.BitsPerSampleTag tif = 8.
Hypothesis three_samples : Tiff.SamplesPerPixelTag tif = 3.
Hypothesis rgb : Tiff.PhotometricTag tif = Some Tiff.PHOTOMETRIC_RGB.
Hypothesis contig : Tiff.PlanarConfigTag tif = Tiff.PLANARCONFIG_CONTIG.
Hypothesis width_pos : 0 < Tiff.ImageWidth tif.
Hypothesis height_pos : 0 < Tiff.ImageLength tif.
Hypothesis plane_small : Tiff.ImageLength tif * (Tiff.ImageWidth tif * 3) < 2 ^ 31.
Hypothesis bytes : forall r k, 0 <= Tiff.Raster tif r k < 256.

Let W := Tiff.ImageWidth tif.
Let H := Tiff.ImageLength tif.
Let R := component_reader tif Tiff.VTK_UNSIGNED_CHAR 3.
Let c1 := Tiff.set_format Tiff.InitCache Tiff.RGB.

Lemma rgb_sizes :
  row_bytes tif = W * 3 /\ H <= INT_MAX /\ W * 3 <= INT_MAX /\ W <= INT_MAX.
Proof.
  assert (HW : 0 < W) by exact width_pos.
  assert (HH : 0 < H) by exact height_pos.
  assert (Hs : H * (W * 3) < 2 ^ 31) by exact plane_small.
  assert (H1 : H * 1 <= H * (W * 3)) by (apply Z.mul_le_mono_nonneg_l; lia).
  assert (H2 : 1 * (W * 3) <= H * (W * 3)) by (apply Z.mul_le_mono_nonneg_r; lia).
  unfold row_bytes. rewrite three_samples. fold W. unfold INT_MAX.
  repeat split; try reflexivity; lia.
Qed.

(** The pixels of one row. *)
Lemma rgb_row (fuel : nat) (row fileRow : Z) (line : buf) (S : Z -> Prop) (mem : buf) :
  (Z.to_nat W < fuel)%nat ->
  0 <= row < H -> file_row tif row = fileRow ->
  (forall k, line k = Tiff.Raster tif fileRow k) ->
  correct_on tif S mem ->
  exists image cc mem',
    Tiff.for_loop fuel (fun ix => ix <=? W - 1) (fun ix => wrap_int (ix + 1))
      (fun ix '(image, cc, mem, c) =>
         let '(_, mem, c) :=
           Tiff.EvaluateImageAt Tiff.VTK_UNSIGNED_CHAR R c mem image line (cc * 1) in
         Tiff.Done (image + 3 * 1, u32 (cc + 3), mem, c))
      0 (row * (W * 3), 0, mem, c1)
    = Tiff.Done (image, cc, mem', c1)
    /\ correct_on tif (fun a => S a \/ rect tif row (row + 1) 0 (W * 3) a) mem'.
Proof.
  intros Hfuel Hrow Hfile Hline HS.
  destruct rgb_sizes as (HRW & Hi & HWi & HW1).
  assert (HW : 0 < W) by exact width_pos.
  assert (Hs : H * (W * 3) < 2 ^ 31) by exact plane_small.
  assert (Hrow1 : row * (W * 3) + W * 3 <= H * (W * 3)).
  { replace (row * (W * 3) + W * 3) with ((row + 1) * (W * 3)) by ring.
    apply Z.mul_le_mono_nonneg_r; lia. }
  assert (Hrow0 : 0 <= row * (W * 3)) by (apply Z.mul_nonneg_nonneg; lia).
  destruct (for_loop_inv
              (fun k (st : Z * Z * buf * Tiff.Cache) =>
                 let '(image, cc, m, c) := st in
                 image = row * (W * 3) + 3 * Z.of_nat k /\ cc = 3 * Z.of_nat k
                 /\ c = c1
                 /\ correct_on tif
                      (fun a => S a \/ rect tif row (row + 1) 0 (3 * Z.of_nat k) a) m)
              (Z.to_nat W) fuel (fun ix => ix <=? W - 1) (fun ix => wrap_int (ix + 1))
              (fun ix '(image, cc, mem, c) =>
                 let '(_, mem, c) :=
                   Tiff.EvaluateImageAt Tiff.VTK_UNSIGNED_CHAR R c mem image line (cc * 1) in
                 Tiff.Done (image + 3 * 1, u32 (cc + 3), mem, c))
              Z.of_nat (row * (W * 3), 0, mem, c1) Hfuel)
    as ([[[image cc] mem'] c'] & E & HP).
  - split; [change (Z.of_nat 0) with 0; ring|]. split; [reflexivity|].
    split; [reflexivity|].
    eapply correct_on_weaken; [exact HS|].
    intros a [Ha|Ha]; [exact Ha|]. exfalso. exact (rect_empty_cols tif _ _ _ _ Ha).
  - intros k [[[image cc] m] c] Hk (Him & Hcc & Hc & Hcorr). subst image cc c.
    assert (Hkr : 0 <= Z.of_nat k < W) by lia.
    split; [apply Z.leb_le; lia|].
    split; [rewrite wrap_int_id by (unfold INT_MAX in *; lia); lia|].
    destruct (EvaluateImageAt_rgb3 Tiff.VTK_UNSIGNED_CHAR R c1 m line
                (row * (W * 3) + 3 * Z.of_nat k) (3 * Z.of_nat k * 1) eq_refl)
      as (m' & Ev & Hin & Hout).
    { subst R. unfold component_reader, Tiff.Initialize.
      cbn [Tiff.Internals Tiff.SamplesPerPixel]. exact three_samples. }
    rewrite Ev. eexists. split; [reflexivity|].
    rewrite Nat2Z.inj_succ.
    split; [ring|]. split; [rewrite u32_id by lia; ring|]. split; [reflexivity|].
    eapply correct_on_weaken.
    + apply (correct_on_update tif _
               (rect tif row (row + 1) (3 * Z.of_nat k) (3 * Z.of_nat k + 3))
               m m' (row * (W * 3) + 3 * Z.of_nat k) 3 Hcorr).
      * intros a (Ha0 & Hdiv & Hmod). rewrite HRW in Hdiv, Hmod.
        pose proof (Z.div_mod a (W * 3) ltac:(lia)) as Hdm.
        assert (Ei : a / (W * 3) = row) by lia. rewrite Ei in Hdm. lia.
      * intros a Ha. rewrite Hin by exact Ha. unfold plane_byte. rewrite HRW.
        set (j := a - row * (W * 3)).
        assert (Ea : row * (W * 3) + j = a) by (subst j; ring).
        destruct (div_mod_offset row j (W * 3) ltac:(subst j; lia)) as [Hd Hm].
        rewrite Ea in Hd, Hm. rewrite Hd, Hm, Hfile, Hline.
        rewrite Z.mod_small by apply bytes. f_equal. subst j. lia.
      * exact Hout.
    + intros a [Ha|Ha]; [left; left; exact Ha|].
      replace (3 * Z.succ (Z.of_nat k)) with (3 * Z.of_nat k + 3) in Ha by lia.
      destruct (rect_split_cols tif _ _ _ (3 * Z.of_nat k) _ _ Ha) as [Hl|Hr].
      * left. right. exact Hl.
      * right. exact Hr.
  - apply Z.leb_gt. rewrite Z2Nat.id by lia. lia.
  - destruct HP as (_ & _ & -> & Hcorr).
    exists image, cc, mem'. split; [exact E|].
    rewrite Z2Nat.id in Hcorr by lia.
    replace (3 * W) with (W * 3) in Hcorr by ring. exact Hcorr.
Qed.

(** ReadGenericImage on such a file takes the pixel-by-pixel path and
    decodes the whole plane. *)
Lemma ReadGenericImage_rgb (fuel : nat) (mem : buf) :
  (Z.to_nat (H + W) < fuel)%nat ->
  exists vol,
    Tiff.ReadGenericImage fuel Tiff.VTK_UNSIGNED_CHAR R Tiff.InitCache mem 0 H
    = Tiff.Done (vol, c1)
    /\ decoded tif vol.
Proof.
  intros Hfuel.
  destruct rgb_sizes as (HRW & Hi & HWi & HW1).
  assert (HW : 0 < W) by exact width_pos.
  assert (HH : 0 < H) by exact height_pos.
  assert (Hs : H * (W * 3) < 2 ^ 31) by exact plane_small.
  assert (HI : Tiff.Internals R = Tiff.Initialize tif) by reflexivity.
  assert (HE0 : Tiff.OE R 0 = 0) by reflexivity.
  assert (HE1 : Tiff.OE R 1 = W - 1) by reflexivity.
  assert (HE2 : Tiff.OE R 2 = 0) by reflexivity.
  assert (HE3 : Tiff.OE R 3 = H - 1) by reflexivity.
  assert (HI0 : Tiff.OI R 0 = 3) by reflexivity.
  assert (HI1 : Tiff.OI R 1 = 3 * W) by reflexivity.
  unfold Tiff.ReadGenericImage. cbv zeta.
  rewrite HI, HE0, HE1, HE2, HE3, HI0, HI1.
  unfold Tiff.GetFormat, Tiff.Initialize.
  cbn [Tiff.Image Tiff.Photometrics Tiff.PlanarConfig Tiff.SamplesPerPixel
       Tiff.Orientation Tiff.ImageFormat Tiff.InitCache Tiff.Format_eqb negb].
  rewrite rgb, three_samples, contig. cbn [default].
  change (Tiff.PHOTOMETRIC_RGB =? Tiff.PHOTOMETRIC_RGB) with true.
  change (3 =? 1) with false.
  change (Tiff.PLANARCONFIG_CONTIG =? Tiff.PLANARCONFIG_CONTIG) with true.
  cbn [orb andb negb].
  change (Tiff.sizeof Tiff.VTK_UNSIGNED_CHAR) with 1.
  change (u32 (0 * 3)) with 0.
  fold W H. fold c1.
  match goal with
  | |- exists vol, ?L = Tiff.Done (vol, c1) /\ _ =>
      assert (Hloop : exists st, L = Tiff.Done st
                /\ (snd st = c1
                    /\ correct_on tif
                         (fun a => exists row, 0 <= row < Z.of_nat (Z.to_nat H)
                                               /\ rect tif row (row + 1) 0 (W * 3) a)
                         (fst st)))
  end.
  { apply (for_loop_inv
             (fun k (st : buf * Tiff.Cache) =>
                snd st = c1
                /\ correct_on tif
                     (fun a => exists row, 0 <= row < Z.of_nat k
                                           /\ rect tif row (row + 1) 0 (W * 3) a)
                     (fst st))
             (Z.to_nat H) fuel _ _ _ Z.of_nat (mem, c1) ltac:(lia)).
  - split; [reflexivity|]. intros a (row & Hrow & _). lia.
  - intros k [m c] Hk [Hc Hcorr]. cbn [fst snd] in Hc, Hcorr. subst c. cbv beta.
    assert (Hkr : 0 <= Z.of_nat k < H) by lia.
    split; [apply Z.leb_le; lia|].
    split; [rewrite wrap_int_id by (unfold INT_MAX in *; lia); lia|].
    set (fileRow := if _ =? _ then Z.of_nat k else _).
    assert (Hfr : 0 <= fileRow < H /\ file_row tif (Z.of_nat k) = fileRow).
    { subst fileRow. unfold file_row. fold H. unfold INT_MAX in *.
      destruct (_ =? _); [lia|].
      rewrite u32_id by lia. rewrite wrap_int_id by (unfold INT_MAX; lia). lia. }
    destruct Hfr as [Hfr Hfile].
    unfold Tiff.TIFFReadScanline. rewrite untiled. fold H.
    replace ((0 <=? fileRow) && (fileRow <? H)) with true.
    2:{ symmetry. apply andb_true_iff. split; [apply Z.leb_le | apply Z.ltb_lt]; lia. }
    destruct (rgb_row fuel (Z.of_nat k) fileRow (fun j => Tiff.Raster tif fileRow j) _ m
                ltac:(lia) Hkr Hfile ltac:(reflexivity) Hcorr)
      as (image & cc & m' & Er & Hm').
    replace (0 + (Z.of_nat k - 0) * (3 * W) * 1) with (Z.of_nat k * (W * 3)) by ring.
    rewrite Er. eexists. split; [reflexivity|]. cbn [fst snd].
    split; [reflexivity|].
    eapply correct_on_weaken; [exact Hm'|].
    intros a (row & Hrow & Hrect). rewrite Nat2Z.inj_succ in Hrow.
    destruct (Z.eq_dec row (Z.of_nat k)) as [->|Hne].
    + right. exact Hrect.
    + left. exists row. split; [lia | exact Hrect].
  - apply Z.leb_gt. rewrite Z2Nat.id by lia. lia. }
  destruct Hloop as ([vol c'] & E & HP).
  cbn [fst snd] in HP. destruct HP as [-> Hcorr].
  exists vol. split; [exact E|].
  rewrite Z2Nat.id in Hcorr by lia.
  intros y x Hy Hx. fold H in Hy. rewrite HRW in Hx |- *.
  destruct (div_mod_offset y x (W * 3) Hx) as [Hd Hm].
  assert (Hy0 : 0 <= y * (W * 3)) by (apply Z.mul_nonneg_nonneg; lia).
  rewrite (Hcorr (y * (W * 3) + x)).
  - unfold plane_byte. rewrite HRW, Hd, Hm. reflexivity.
  - exists y. split; [exact Hy|]. unfold rect. rewrite HRW, Hd, Hm. lia.
Qed.

End RgbDecode.

(* ===================================================================== *)
(** * Further properties of the reader *)
(* ===================================================================== *)

(** ** Decoding a plane *)



(** X2. ReadGenericImage on an untiled 8-bit grey-scale file (one sample
    per pixel, min-is-black), asked for the whole image: the fast scanline
    path runs to its end and leaves byte x of image row y equal to byte x
    of file row y, or of file row height - 1 - y when the orientation is
    not top-left. *)
Theorem ReadGenericImage_decodes (tif : Tiff.TIFF) (fuel : nat) (mem : buf) :
  Tiff.IsTiled tif = false ->
  Tiff.BitsPerSampleTag tif = 8 ->
  Tiff.SamplesPerPixelTag tif = 1 ->
  Tiff.PhotometricTag tif = Some Tiff.PHOTOMETRIC_MINISBLACK ->
  0 < Tiff.ImageWidth tif -> 0 < Tiff.ImageLength tif ->
  Tiff.ImageLength tif * Tiff.ImageWidth tif < 2 ^ 31 ->
  (Z.to_nat (Tiff.ImageLength tif) < fuel)%nat ->
  exists vol c,
    Tiff.ReadGenericImage fuel Tiff.VTK_UNSIGNED_CHAR
      (whole_image_reader tif Tiff.VTK_UNSIGNED_CHAR) Tiff.InitCache mem 0
      (Tiff.ImageLength tif)
    = Tiff.Done (vol, c)
    /\ forall y x,
         0 <= y < Tiff.ImageLength tif -> 0 <= x < Tiff.ImageWidth tif ->
         vol (y * Tiff.ImageWidth tif + x)
         = Tiff.Raster tif
             (if flipped tif then Tiff.ImageLength tif - 1 - y else y) x.
Proof.
  intros Hunt Hbits Hspp Hphoto HW HH Hsmall Hfuel.
  destruct (ReadGenericImage_scanlines tif Hunt Hbits Hspp Hphoto HW HH Hsmall
              fuel mem Hfuel) as (vol & c & E & D).
  exists vol, c. split; [exact E|].
  intros y x Hy Hx.
  assert (ERW : row_bytes tif = Tiff.ImageWidth tif).
  { unfold row_bytes. rewrite Hspp. ring. }
  specialize (D y x Hy ltac:(rewrite ERW; exact Hx)). rewrite ERW in D.
  rewrite D. unfold file_row, flipped. destruct (_ =? _); reflexivity.
Qed.

Lemma ReadGenericImage_decodes_witness :
  exists vol c,
    Tiff.ReadGenericImage 64 Tiff.VTK_UNSIGNED_CHAR
      (whole_image_reader (rows8 Tiff.ORIENTATION_BOTLEFT) Tiff.VTK_UNSIGNED_CHAR)
      Tiff.InitCache (fun _ => 0) 0 24
    = Tiff.Done (vol, c)
    /\ forall y x, 0 <= y < 24 -> 0 <= x < 24 ->
         vol (y * 24 + x) = Tiff.Raster (rows8 Tiff.ORIENTATION_BOTLEFT) (24 - 1 - y) x.
Proof.
  apply (ReadGenericImage_decodes (rows8 Tiff.ORIENTATION_BOTLEFT) 64 (fun _ => 0));
    try reflexivity; cbn; lia.
Defined.

(** X3. Tiles against scanlines: for an 8-bit grey-scale file (one sample
    per pixel, min-is-black) in tiles no larger than the image, the tile
    decode and the scanline decode of the same pixels stored untiled both
    run to their end and fill the plane with the same bytes, unless the
    file is flipped, its height a multiple of the tile height and its width
    not a multiple of the tile width. *)
Theorem tile_decode_matches_scanline (tif : Tiff.TIFF) (fuel : nat)
    (buffer buffer' : buf) :
  Tiff.IsTiled tif = true ->
  Tiff.Directories tif = 1 ->
  Tiff.BitsPerSampleTag tif = 8 ->
  Tiff.SamplesPerPixelTag tif = 1 ->
  Tiff.PhotometricTag tif = Some Tiff.PHOTOMETRIC_MINISBLACK ->
  0 < Tiff.TileWidthTag tif <= Tiff.ImageWidth tif ->
  0 < Tiff.TileLengthTag tif <= Tiff.ImageLength tif ->
  Tiff.ImageLength tif * Tiff.ImageWidth tif < 2 ^ 31 ->
  flipped tif = false
  \/ Tiff.ImageLength tif mod Tiff.TileLengthTag tif <> 0
  \/ Tiff.ImageWidth tif mod Tiff.TileWidthTag tif = 0 ->
  (Z.to_nat (Tiff.ImageLength tif + Tiff.ImageWidth tif) < fuel)%nat ->
  exists tiles rows c,
    Tiff.ReadTiles fuel (Tiff.Initialize tif) buffer = Tiff.Done tiles
    /\ Tiff.ReadGenericImage fuel Tiff.VTK_UNSIGNED_CHAR
         (whole_image_reader (untiled_twin tif) Tiff.VTK_UNSIGNED_CHAR)
         Tiff.InitCache buffer' 0 (Tiff.ImageLength tif) = Tiff.Done (rows, c)
    /\ forall a, 0 <= a < Tiff.ImageLength tif * Tiff.ImageWidth tif ->
         tiles a = rows a.
Proof.
  intros Htiled Hdirs Hbits Hspp Hphoto Htw Hth Hsmall Hsafe Hfuel.
  destruct (ReadTiles_decodes tif Htiled Hdirs Hbits ltac:(lia) Htw Hth
              ltac:(rewrite Hspp; lia) fuel buffer Hfuel Hsafe)
    as (tiles & Et & Dt).
  destruct (ReadGenericImage_scanlines (untiled_twin tif) eq_refl Hbits Hspp Hphoto
              ltac:(cbn; lia) ltac:(cbn; lia) Hsmall fuel buffer' ltac:(cbn; lia))
    as (rows & c & Er & Dr).
  exists tiles, rows, c. split; [exact Et|]. split; [exact Er|].
  apply (decoded_agree tif (untiled_twin tif)); try reflexivity; try assumption; lia.
Qed.

Lemma tile_decode_matches_scanline_witness :
  exists tiles rows c,
    Tiff.ReadTiles 80 (Tiff.Initialize tiled_even) (fun _ => 0xEE) = Tiff.Done tiles
    /\ Tiff.ReadGenericImage 80 Tiff.VTK_UNSIGNED_CHAR
         (whole_image_reader (untiled_twin tiled_even) Tiff.VTK_UNSIGNED_CHAR)
         Tiff.InitCache (fun _ => 0xEE) 0 32 = Tiff.Done (rows, c)
    /\ forall a, 0 <= a < 32 * 32 -> tiles a = rows a.
Proof.
  apply (tile_decode_matches_scanline tiled_even 80);
    try reflexivity; cbn; lia.
Defined.

(** X4. Orientation: the scanline decodes of the same untiled 8-bit
    grey-scale pixels tagged top-left and tagged bottom-left are mirror
    images of each other, row y of one being row height - 1 - y of the
    other. *)
Theorem scanline_decode_mirrors (tif : Tiff.TIFF) (fuel : nat) (mem mem' : buf) :
  Tiff.IsTiled tif = false ->
  Tiff.BitsPerSampleTag tif = 8 ->
  Tiff.SamplesPerPixelTag tif = 1 ->
  Tiff.PhotometricTag tif = Some Tiff.PHOTOMETRIC_MINISBLACK ->
  0 < Tiff.ImageWidth tif -> 0 < Tiff.ImageLength tif ->
  Tiff.ImageLength tif * Tiff.ImageWidth tif < 2 ^ 31 ->
  (Z.to_nat (Tiff.ImageLength tif) < fuel)%nat ->
  exists top bot c c',
    Tiff.ReadGenericImage fuel Tiff.VTK_UNSIGNED_CHAR
      (whole_image_reader (reoriented tif Tiff.ORIENTATION_TOPLEFT) Tiff.VTK_UNSIGNED_CHAR)
      Tiff.InitCache mem 0 (Tiff.ImageLength tif) = Tiff.Done (top, c)
    /\ Tiff.ReadGenericImage fuel Tiff.VTK_UNSIGNED_CHAR
         (whole_image_reader (reoriented tif Tiff.ORIENTATION_BOTLEFT)
            Tiff.VTK_UNSIGNED_CHAR)
         Tiff.InitCache mem' 0 (Tiff.ImageLength tif) = Tiff.Done (bot, c')
    /\ forall y x,
         0 <= y < Tiff.ImageLength tif -> 0 <= x < Tiff.ImageWidth tif ->
         bot (y * Tiff.ImageWidth tif + x)
         = top ((Tiff.ImageLength tif - 1 - y) * Tiff.ImageWidth tif + x).
Proof.
  intros Hunt Hbits Hspp Hphoto HW HH Hsmall Hfuel.
  destruct (ReadGenericImage_scanlines (reoriented tif Tiff.ORIENTATION_TOPLEFT)
              Hunt Hbits Hspp Hphoto HW HH Hsmall fuel mem Hfuel)
    as (top & c & Et & Dt).
  destruct (ReadGenericImage_scanlines (reoriented tif Tiff.ORIENTATION_BOTLEFT)
              Hunt Hbits Hspp Hphoto HW HH Hsmall fuel mem' Hfuel)
    as (bot & c' & Eb & Db).
  exists top, bot, c, c'. split; [exact Et|]. split; [exact Eb|].
  intros y x Hy Hx.
  assert (ERW : forall o, row_bytes (reoriented tif o) = Tiff.ImageWidth tif).
  { intros o. unfold row_bytes. cbn. rewrite Hspp. ring. }
  specialize (Db y x Hy ltac:(rewrite ERW; exact Hx)).
  specialize (Dt (Tiff.ImageLength tif - 1 - y) x
                ltac:(cbn; lia) ltac:(rewrite ERW; exact Hx)).
  rewrite ERW in Db, Dt. rewrite Db, Dt. reflexivity.
Qed.

Lemma scanline_decode_mirrors_witness :
  exists top bot c c',
    Tiff.ReadGenericImage 64 Tiff.VTK_UNSIGNED_CHAR
      (whole_image_reader (reoriented (rows8 Tiff.ORIENTATION_TOPLEFT)
                             Tiff.ORIENTATION_TOPLEFT) Tiff.VTK_UNSIGNED_CHAR)
      Tiff.InitCache (fun _ => 0) 0 24 = Tiff.Done (top, c)
    /\ Tiff.ReadGenericImage 64 Tiff.VTK_UNSIGNED_CHAR
         (whole_image_reader (reoriented (rows8 Tiff.ORIENTATION_TOPLEFT)
                                Tiff.ORIENTATION_BOTLEFT) Tiff.VTK_UNSIGNED_CHAR)
         Tiff.InitCache (fun _ => 1) 0 24 = Tiff.Done (bot, c')
    /\ forall y x, 0 <= y < 24 -> 0 <= x < 24 ->
         bot (y * 24 + x) = top ((24 - 1 - y) * 24 + x).
Proof.
  apply (scanline_decode_mirrors (rows8 Tiff.ORIENTATION_TOPLEFT) 64
           (fun _ => 0) (fun _ => 1));
    try reflexivity; cbn; lia.
Defined.

(** X5. ReadGenericImage on an untiled RGB file of three 8-bit samples per
    pixel, asked for the whole image into a three-component output, the
    file being one whose rows can be read in any order (no compression, or
    one row per strip) or one stored top-left, whose rows are read from the
    first on: the pixel-by-pixel path reads every scanline, copies three
    bytes per pixel and leaves byte x of image row y equal to byte x of
    file row y, or of file row height - 1 - y when the orientation is not
    top-left. *)
Theorem ReadGenericImage_decodes_rgb (tif : Tiff.TIFF) (fuel : nat) (mem : buf) :
  Tiff.IsTiled tif = false ->
  Tiff.BitsPerSampleTag tif = 8 ->
  Tiff.SamplesPerPixelTag tif = 3 ->
  Tiff.PhotometricTag tif = Some Tiff.PHOTOMETRIC_RGB ->
  Tiff.PlanarConfigTag tif = Tiff.PLANARCONFIG_CONTIG ->
  Tiff.SupportsRandomAccess tif = true \/ flipped tif = false ->
  0 < Tiff.ImageWidth tif -> 0 < Tiff.ImageLength tif ->
  Tiff.ImageLength tif * (Tiff.ImageWidth tif * 3) < 2 ^ 31 ->
  (forall r k, 0 <= Tiff.Raster tif r k < 256) ->
  (Z.to_nat (Tiff.ImageLength tif + Tiff.ImageWidth tif) < fuel)%nat ->
  exists vol c,
    Tiff.ReadGenericImage fuel Tiff.VTK_UNSIGNED_CHAR
      (component_reader tif Tiff.VTK_UNSIGNED_CHAR 3) Tiff.InitCache mem 0
      (Tiff.ImageLength tif)
    = Tiff.Done (vol, c)
    /\ forall y x,
         0 <= y < Tiff.ImageLength tif -> 0 <= x < Tiff.ImageWidth tif * 3 ->
         vol (y * (Tiff.ImageWidth tif * 3) + x)
         = Tiff.Raster tif
             (if flipped tif then Tiff.ImageLength tif - 1 - y else y) x.
Proof.
  intros Hunt Hbits Hspp Hrgb Hcontig _ HW HH Hsmall Hbytes Hfuel.
  destruct (ReadGenericImage_rgb tif Hunt Hspp Hrgb Hcontig HW HH Hsmall Hbytes
              fuel mem Hfuel) as (vol & E & D).
  exists vol. eexists. split; [exact E|].
  intros y x Hy Hx.
  assert (ERW : row_bytes tif = Tiff.ImageWidth tif * 3).
  { unfold row_bytes. rewrite Hspp. reflexivity. }
  specialize (D y x Hy ltac:(rewrite ERW; exact Hx)). rewrite ERW in D.
  rewrite D. unfold file_row, flipped. destruct (_ =? _); reflexivity.
Qed.

Lemma ReadGenericImage_decodes_rgb_witness :
  exists vol c,
    Tiff.ReadGenericImage 16 Tiff.VTK_UNSIGNED_CHAR
      (component_reader (rgb_tif Tiff.ORIENTATION_BOTLEFT) Tiff.VTK_UNSIGNED_CHAR 3)
      Tiff.InitCache (fun _ => 0) 0 4
    = Tiff.Done (vol, c)
    /\ forall y x, 0 <= y < 4 -> 0 <= x < 5 * 3 ->
         vol (y * (5 * 3) + x) = Tiff.Raster (rgb_tif Tiff.ORIENTATION_BOTLEFT) (4 - 1 - y) x.
Proof.
  apply (ReadGenericImage_decodes_rgb (rgb_tif Tiff.ORIENTATION_BOTLEFT) 16 (fun _ => 0));
    try reflexivity; try (cbn; lia); try (left; reflexivity).
  intros r k. cbn. apply Z.mod_pos_bound. lia.
Defined.

(** ** The cached format *)

(** X6. GetFormat works the format out once: whatever the cache held, the
    format it returns is not NOFORMAT and is the one it leaves in the
    cache, and a second call returns the same format and leaves the cache
    as the first call left it. *)
Theorem GetFormat_cached (I : Tiff.Internal) (c : Tiff.Cache) :
  let r := Tiff.GetFormat I c in
  fst r <> Tiff.NOFORMAT
  /\ Tiff.ImageFormat (snd r) = fst r
  /\ Tiff.GetFormat I (snd r) = r.
Proof.
  cbv zeta. destruct (GetFormat_sets_cache I c) as [Hc Hn].
  split; [exact Hn|]. split; [exact Hc|].
  destruct (Tiff.GetFormat I c) as [f c'] eqn:E. cbn [fst snd] in *.
  unfold Tiff.GetFormat. rewrite Hc.
  destruct f; cbn [Tiff.Format_eqb negb]; try reflexivity. congruence.
Qed.

(** ** What EvaluateImageAt writes *)

Lemma store_out_sized (T : Tiff.ScalarType) (mem : buf) (off v a lo hi : Z) :
  lo <= off -> off + Tiff.sizeof T <= hi -> a < lo \/ hi <= a ->
  Tiff.store T mem off v a = mem a.
Proof. intros H1 H2 Ha. apply store_out. lia. Qed.

(** X7. EvaluateImageAt writes only inside the pixel it is given: whatever
    the format, the sample type and the cache, every byte before [out] and
    every byte from [out + max(4, 3 * sizeof(T))] on is left as it was. *)
Theorem EvaluateImageAt_frame (T : Tiff.ScalarType) (R : Tiff.Reader) (c : Tiff.Cache)
    (mem src : buf) (out inp a : Z) :
  a < out \/ out + Z.max 4 (3 * Tiff.sizeof T) <= a ->
  snd (fst (Tiff.EvaluateImageAt T R c mem out src inp)) a = mem a.
Proof.
  intros Ha. pose proof (sizeof_pos T) as HT.
  assert (H1 : Tiff.sizeof Tiff.VTK_UNSIGNED_CHAR = 1) by reflexivity.
  unfold Tiff.EvaluateImageAt. cbv zeta.
  destruct (Tiff.GetFormat (Tiff.Internals R) c) as [f c1].
  destruct f; cbn [fst snd]; try reflexivity.
  - (* RGB *)
    destruct (_ =? 4); cbn [fst snd];
      repeat (rewrite (store_out_sized _ _ _ _ _ out (out + Z.max 4 (3 * Tiff.sizeof T)))
                by (try rewrite H1; lia));
      reflexivity.
  - (* GRAYSCALE *)
    destruct (_ =? _); cbn [fst snd];
      rewrite (store_out_sized _ _ _ _ _ out (out + Z.max 4 (3 * Tiff.sizeof T)))
        by (try rewrite H1; lia); reflexivity.
  - (* PALETTE_RGB *)
    destruct (Tiff.GetColor _ c1 _) as [[[r1 g1] b1] c2].
    destruct (Tiff.DataScalarType R);
      destruct (Tiff.GetColor _ c2 _) as [[[r2 g2] b2] c3]; cbn [fst snd];
      repeat (rewrite (store_out_sized _ _ _ _ _ out (out + Z.max 4 (3 * Tiff.sizeof T)))
                by lia);
      reflexivity.
  - (* PALETTE_GRAYSCALE *)
    destruct (Tiff.GetColor _ c1 _) as [[[r1 g1] b1] c2]. cbn [fst snd].
    rewrite (store_out_sized _ _ _ _ _ out (out + Z.max 4 (3 * Tiff.sizeof T)))
      by (try rewrite H1; lia).
    reflexivity.
Qed.

Lemma EvaluateImageAt_frame_witness :
  snd (fst (Tiff.EvaluateImageAt Tiff.VTK_UNSIGNED_SHORT
              (palette_reader Tiff.VTK_UNSIGNED_SHORT) Tiff.InitCache
              (fun _ => 7) 10 (fun _ => 0) 0)) 16 = 7.
Proof.
  apply (EvaluateImageAt_frame Tiff.VTK_UNSIGNED_SHORT
           (palette_reader Tiff.VTK_UNSIGNED_SHORT) Tiff.InitCache
           (fun _ => 7) (fun _ => 0) 10 0 16).
  right. cbn. lia.
Defined.

(** X8. A min-is-white grey-scale sample is inverted as one byte only:
    EvaluateImageAt returns 1, writes 255 minus the first source byte to
    the first output byte and leaves every other byte, the further bytes
    of a wider sample included, as they were. *)
Theorem EvaluateImageAt_min_is_white (T : Tiff.ScalarType) (R : Tiff.Reader)
    (c : Tiff.Cache) (mem src : buf) (out inp : Z) :
  Tiff.ImageFormat c = Tiff.NOFORMAT ->
  Tiff.Photometrics (Tiff.Internals R) = Tiff.PHOTOMETRIC_MINISWHITE ->
  0 <= src inp < 256 ->
  exists mem',
    Tiff.EvaluateImageAt T R c mem out src inp
    = (1, mem', Tiff.set_format c Tiff.GRAYSCALE)
    /\ mem' out = 255 - src inp
    /\ forall a, a <> out -> mem' a = mem a.
Proof.
  intros Hf Hp Hb. unfold Tiff.EvaluateImageAt, Tiff.GetFormat. cbv zeta.
  rewrite Hf, Hp. cbn [Tiff.Format_eqb negb].
  change (Tiff.PHOTOMETRIC_MINISWHITE =? Tiff.PHOTOMETRIC_RGB) with false.
  change (Tiff.PHOTOMETRIC_MINISWHITE =? Tiff.PHOTOMETRIC_YCBCR) with false.
  change (Tiff.PHOTOMETRIC_MINISWHITE =? Tiff.PHOTOMETRIC_MINISWHITE) with true.
  change (Tiff.PHOTOMETRIC_MINISWHITE =? Tiff.PHOTOMETRIC_MINISBLACK) with false.
  cbn [orb]. cbv iota.
  eexists. split; [reflexivity|]. split.
  - rewrite store_byte, Z.eqb_refl. apply Z.mod_small. lia.
  - intros a Ha. rewrite store_byte.
    destruct (Z.eqb_spec a out); [contradiction | reflexivity].
Qed.

Lemma EvaluateImageAt_min_is_white_witness :
  exists mem',
    Tiff.EvaluateImageAt Tiff.VTK_UNSIGNED_SHORT
      (whole_image_reader white_tif Tiff.VTK_UNSIGNED_SHORT) Tiff.InitCache
      (fun _ => 9) 0 (fun _ => 5) 0
    = (1, mem', Tiff.set_format Tiff.InitCache Tiff.GRAYSCALE)
    /\ mem' 0 = 255 - 5
    /\ forall a, a <> 0 -> mem' a = 9.
Proof.
  apply (EvaluateImageAt_min_is_white Tiff.VTK_UNSIGNED_SHORT
           (whole_image_reader white_tif Tiff.VTK_UNSIGNED_SHORT) Tiff.InitCache
           (fun _ => 9) (fun _ => 5) 0 0); [reflexivity | reflexivity | lia].
Defined.

(* ===================================================================== *)
(** * Further properties of the DataSource *)
(* ===================================================================== *)

(** Projections of the subsample setters as well. *)
Ltac ds_simpl_all :=
  ds_simpl;
  cbn [DS.was_subsampled DS.subsample_strides DS.subsample_volume_bounds
       DS.set_was_subsampled DS.set_subsample_strides DS.set_subsample_volume_bounds
       DS.tomviz_data_source_type DS.tilt_angles DS.units
       DS.FieldData DS.set_FieldData] in *.

(** What dataModified leaves alone: everything but the field data of the
    image and the type. *)
Lemma dataModified_keeps (fresh : list DS.double) (s : DS.DataSource)
    (d : DS.vtkImageData) :
  DS.data s = Some d ->
  exists s' d',
    DS.dataModified fresh s = DS.Ok s'
    /\ DS.data s' = Some d'
    /\ DS.PointData d' = DS.PointData d
    /\ DS.ActiveScalars d' = DS.ActiveScalars d
    /\ DS.Extent d' = DS.Extent d
    /\ DS.Spacing d' = DS.Spacing d
    /\ DS.CurrentToOriginal s' = DS.CurrentToOriginal s
    /\ DS.m_json s' = DS.m_json s
    /\ DS.timeSeriesSteps s' = DS.timeSeriesSteps s
    /\ DS.currentTimeStep s' = DS.currentTimeStep s
    /\ DS.m_changingTimeStep s' = DS.m_changingTimeStep s
    /\ DS.Units s' = DS.Units s
    /\ DS.UnitsModified s' = DS.UnitsModified s.
Proof.
  intros Hd. unfold DS.dataModified. rewrite Hd.
  destruct (DS.tomviz_data_source_type (DS.FieldData d)) as [t|].
  - unfold DS.setType, DS.ensureTiltAnglesArrayExists. ds_simpl. rewrite Hd.
    unfold DS.setType_image, DS.clearTiltAngles.
    destruct (t =? DS.TiltSeries); cbn [negb]; ds_simpl.
    + eexists. eexists. split; [reflexivity|]. ds_simpl. split; [reflexivity|].
      unfold DS.createOrResizeTiltAnglesArray. ds_simpl.
      destruct (DS.tilt_angles (DS.FieldData d)); [destruct (negb _)|];
        repeat split; reflexivity.
    + eexists. eexists. split; [reflexivity|]. ds_simpl. repeat split; reflexivity.
  - eexists. eexists. split; [reflexivity|]. ds_simpl. repeat split; reflexivity.
Qed.

(** The type and its tag after dataModified. *)
Lemma dataModified_tag (fresh : list DS.double) (s : DS.DataSource)
    (d : DS.vtkImageData) :
  DS.data s = Some d ->
  exists s' d',
    DS.dataModified fresh s = DS.Ok s'
    /\ DS.data s' = Some d'
    /\ DS.Type_ s'
       = default (DS.Type_ s) (DS.tomviz_data_source_type (DS.FieldData d))
    /\ DS.tomviz_data_source_type (DS.FieldData d')
       = Some (wrap_signed 8 (DS.Type_ s'))
    /\ (DS.Type_ s' <> DS.TiltSeries -> DS.tilt_angles (DS.FieldData d')
          = match DS.tomviz_data_source_type (DS.FieldData d) with
            | Some _ => None
            | None => DS.tilt_angles (DS.FieldData d)
            end).
Proof.
  intros Hd. unfold DS.dataModified. rewrite Hd.
  destruct (DS.tomviz_data_source_type (DS.FieldData d)) as [t|] eqn:Ht.
  - unfold DS.setType, DS.ensureTiltAnglesArrayExists. ds_simpl. rewrite Hd.
    unfold DS.setType_image, DS.clearTiltAngles.
    destruct (Z.eqb_spec t DS.TiltSeries) as [->|Hne]; cbn [negb]; ds_simpl.
    + eexists. eexists. split; [reflexivity|]. ds_simpl. split; [reflexivity|].
      split; [reflexivity|].
      unfold DS.createOrResizeTiltAnglesArray. ds_simpl.
      destruct (DS.tilt_angles (DS.FieldData d)); [destruct (negb _)|]; ds_simpl;
        (split; [reflexivity | intros Hc; contradiction]).
    + eexists. eexists. split; [reflexivity|]. ds_simpl.
      repeat split; reflexivity.
  - eexists. eexists. split; [reflexivity|]. ds_simpl. repeat split; reflexivity.
Qed.

(** ** Time series *)

(** X9. switchTimeSeriesStep with an index of an existing step makes that
    step's image the data of the source (arrays, active array and extent
    as in the step) and records the index.  The step and the data are one
    object, so the step now holds the image as the call leaves it, type tag
    written by dataModified included; the other steps and the rename map
    are as they were, the time-step flag is cleared and nothing is
    reported. *)
Theorem switchTimeSeriesStep_selects (fresh : list DS.double) (i : Z)
    (s : DS.DataSource) (step : DS.TimeSeriesStep) :
  0 <= i -> DS.timeSeriesSteps s !! Z.to_nat i = Some step ->
  exists s' d',
    DS.switchTimeSeriesStep fresh i s = (DS.Ok s', [])
    /\ DS.currentTimeSeriesIndex s' = i
    /\ DS.m_changingTimeStep s' = false
    /\ DS.timeSeriesSteps s'
       = <[Z.to_nat i := {| DS.image := d' |}]> (DS.timeSeriesSteps s)
    /\ DS.CurrentToOriginal s' = DS.CurrentToOriginal s
    /\ DS.data s' = Some d'
    /\ DS.PointData d' = DS.PointData (DS.image step)
    /\ DS.ActiveScalars d' = DS.ActiveScalars (DS.image step)
    /\ DS.Extent d' = DS.Extent (DS.image step)
    /\ DS.tomviz_data_source_type (DS.FieldData d')
       = Some (wrap_signed 8 (DS.Type_ s')).
Proof.
  intros Hi Hstep. unfold DS.switchTimeSeriesStep.
  pose proof (lookup_lt_Some _ _ _ Hstep) as Hlen.
  destruct (Z.leb_spec (Z.of_nat (length (DS.timeSeriesSteps s))) i); [lia|].
  cbn [DS.timeSeriesSteps DS.set_timeSeries]. unfold DS.QList_at.
  destruct (Z.ltb_spec i 0); [lia|]. rewrite Hstep.
  set (s1 := DS.set_data _ _).
  destruct (dataModified_keeps fresh s1 (DS.image step) eq_refl)
    as (s' & d' & E & Hd' & Hpd & Has & Hex & _ & Hmap & _ & Hts & Hcur & _).
  destruct (dataModified_tag fresh s1 (DS.image step) eq_refl)
    as (s2 & d2 & E2 & Hd2 & _ & Htag & _).
  rewrite E in E2. injection E2 as <-. rewrite Hd' in Hd2. injection Hd2 as <-.
  rewrite E. cbn [DS.rbind]. rewrite Hd'.
  eexists. exists d'. split; [reflexivity|].
  unfold DS.currentTimeSeriesIndex. ds_simpl.
  subst s1. ds_simpl. ds_simpl_all.
  repeat split; try assumption. rewrite Hts. reflexivity.
Qed.

Lemma switchTimeSeriesStep_selects_witness :
  exists s' d',
    DS.switchTimeSeriesStep [] 1 two_steps = (DS.Ok s', [])
    /\ DS.currentTimeSeriesIndex s' = 1
    /\ DS.m_changingTimeStep s' = false
    /\ DS.timeSeriesSteps s'
       = <[1%nat := {| DS.image := d' |}]> (DS.timeSeriesSteps two_steps)
    /\ DS.CurrentToOriginal s' = DS.CurrentToOriginal two_steps
    /\ DS.data s' = Some d'
    /\ DS.PointData d' = DS.PointData (volume 2 2 1 2 no_field_data)
    /\ DS.ActiveScalars d' = DS.ActiveScalars (volume 2 2 1 2 no_field_data)
    /\ DS.Extent d' = DS.Extent (volume 2 2 1 2 no_field_data)
    /\ DS.tomviz_data_source_type (DS.FieldData d')
       = Some (wrap_signed 8 (DS.Type_ s')).
Proof.
  apply (switchTimeSeriesStep_selects [] 1 two_steps
           {| DS.image := volume 2 2 1 2 no_field_data |}); [lia | reflexivity].
Defined.

(** X10. After clearTimeSeriesSteps the source has no steps, its current
    index is 0, and no index from 0 on can be switched to: the call is
    rejected with an IndexOutOfRange diagnostic and changes nothing. *)
Theorem clearTimeSeriesSteps_then_switch (fresh : list DS.double) (i : Z)
    (s : DS.DataSource) :
  0 <= i ->
  let s0 := DS.clearTimeSeriesSteps s in
  DS.numTimeSeriesSteps s0 = 0
  /\ DS.currentTimeSeriesIndex s0 = 0
  /\ DS.data s0 = DS.data s
  /\ DS.switchTimeSeriesStep fresh i s0 = (DS.Ok s0, [DS.IndexOutOfRange i 0]).
Proof.
  intros Hi s0. split; [reflexivity|]. split; [reflexivity|]. split; [reflexivity|].
  apply (switchTimeSeriesStep_too_large fresh i s0). exact Hi.
Qed.

Lemma clearTimeSeriesSteps_then_switch_witness :
  let s0 := DS.clearTimeSeriesSteps two_steps in
  DS.numTimeSeriesSteps s0 = 0
  /\ DS.currentTimeSeriesIndex s0 = 0
  /\ DS.data s0 = DS.data two_steps
  /\ DS.switchTimeSeriesStep [] 0 s0 = (DS.Ok s0, [DS.IndexOutOfRange 0 0]).
Proof.
  apply (clearTimeSeriesSteps_then_switch [] 0 two_steps). lia.
Defined.

(** ** appendSlice *)

Lemma first_mismatch_Some (e se : list Z) (i : nat) :
  (i < 4)%nat -> nth i e 0 <> nth i se 0 ->
  exists a b, DS.first_mismatch e se = Some (a, b) /\ a <> b.
Proof.
  intros Hi Hne. unfold DS.first_mismatch. cbn [seq map].
  assert (Hcase : forall (l : list (Z * Z)),
            (exists p, p ∈ l /\ fst p <> snd p) ->
            exists a b, head (filter (fun p => negb (fst p =? snd p)) l) = Some (a, b)
                        /\ a <> b).
  { induction l as [|[a b] l IH]; intros (p & Hp & Hpne).
    - inversion Hp.
    - rewrite filter_cons. cbn [fst snd].
      destruct (Z.eqb_spec a b) as [->|Hab]; cbn [negb].
      + rewrite decide_False by (intros Hc; exact Hc).
        apply IH. apply elem_of_cons in Hp as [->|Hp]; [contradiction|].
        exists p. split; assumption.
      + rewrite decide_True by exact I. exists a, b. split; [reflexivity | exact Hab]. }
  apply Hcase. exists (nth i e 0, nth i se 0). split; [|exact Hne].
  destruct i as [|[|[|[|i]]]]; [| | | |lia];
    rewrite !elem_of_cons; auto.
Qed.

(** X11. appendSlice refuses a slice whose x or y extent differs from that
    of the data in any of its four bounds: it returns false, reports the
    first pair of bounds that differ and leaves the source as it was. *)
Theorem appendSlice_rejects_mismatch (fresh_scalars : buf) (slice d : DS.vtkImageData)
    (s : DS.DataSource) (i : nat) :
  DS.data s = Some d ->
  (i < 4)%nat -> nth i (DS.Extent d) 0 <> nth i (DS.Extent slice) 0 ->
  exists a b,
    DS.appendSlice fresh_scalars (Some slice) s
    = (DS.Ok (false, s), [DS.ExtentMismatch a b])
    /\ a <> b.
Proof.
  intros Hd Hi Hne.
  destruct (first_mismatch_Some (DS.Extent d) (DS.Extent slice) i Hi Hne)
    as (a & b & Hm & Hab).
  exists a, b. split; [|exact Hab].
  apply appendSlice_mismatch with (d := d); assumption.
Qed.

Lemma appendSlice_rejects_mismatch_witness :
  exists a b,
    DS.appendSlice (fun _ => 0) (Some (volume 2 3 1 5 no_field_data)) small_source
    = (DS.Ok (false, small_source), [DS.ExtentMismatch a b])
    /\ a <> b.
Proof.
  apply (appendSlice_rejects_mismatch (fun _ => 0) (volume 2 3 1 5 no_field_data)
           (volume 2 2 1 1 no_field_data) small_source 3);
    [reflexivity | lia | cbn; lia].
Defined.

Lemma appendSlice_appends_witness :
  let a := byte_array "ImageScalars" (2 * 2 * 1) 1 in
  let sa := byte_array "ImageScalars" (2 * 2 * 1) 5 in
  exists d' a',
    DS.appendSlice (fun _ => 0) (Some (volume 2 2 1 5 no_field_data)) small_source
    = (DS.Ok (true, DS.set_data small_source (Some d')), [])
    /\ DS.Extent d' = [0; 1; 0; 1; 0; 0 + 1]
    /\ DS.ActiveScalars d' = Some O
    /\ DS.PointData d' !! O = Some a'
    /\ DS.Name a' = DS.Name a
    /\ DS.NumberOfTuples a' = DS.voxel_count (DS.Extent d')
    /\ (forall k, 0 <= k < DS.array_bytes a -> DS.Values a' k = DS.Values a k)
    /\ (forall k, 0 <= k < DS.array_bytes sa ->
          DS.Values a' (DS.array_bytes a + k) = DS.Values sa k).
Proof.
  intros a sa.
  apply (appendSlice_appends (fun _ => 0) small_source (volume 2 2 1 1 no_field_data)
           (volume 2 2 1 5 no_field_data) a sa O 1 1 0 0 0);
    try reflexivity; try lia; cbn; lia.
Defined.

(** ** Tilt angles and the type *)

(** X13. The operations that make or keep a tilt series leave as many tilt
    angles as the image has z-slices: setType(TiltSeries), setTiltAngles
    with any number of angles, and setData with an image tagged as a tilt
    series all return normally with a tilt-angle array of that length, the
    extent of the image untouched. *)
Theorem tilt_angles_follow_z_extent (fresh : list DS.double) (s : DS.DataSource)
    (d : DS.vtkImageData) :
  DS.data s = Some d -> z_extent_ok d ->
  (exists s' d',
     DS.setType fresh DS.TiltSeries s = DS.Ok s'
     /\ DS.data s' = Some d' /\ DS.Extent d' = DS.Extent d
     /\ DS.Type_ s' = DS.TiltSeries /\ tilt_length_ok d')
  /\ (forall angles, exists s' d',
        DS.setTiltAngles fresh angles s = DS.Ok s'
        /\ DS.data s' = Some d' /\ DS.Extent d' = DS.Extent d /\ tilt_length_ok d')
  /\ (forall newData,
        DS.tomviz_data_source_type (DS.FieldData newData) = Some DS.TiltSeries ->
        z_extent_ok newData ->
        exists s' d',
          DS.setData fresh newData s = DS.Ok s'
          /\ DS.data s' = Some d' /\ DS.Extent d' = DS.Extent newData
          /\ DS.Type_ s' = DS.TiltSeries /\ tilt_length_ok d').
Proof.
  intros Hd Hz. split; [|split].
  - apply setType_TiltSeries_invariant; assumption.
  - intros angles. apply setTiltAngles_invariant with (d := d); assumption.
  - intros newData Ht Hz'. apply setData_TiltSeries_invariant; assumption.
Qed.

Lemma tilt_angles_follow_z_extent_witness :
  exists s' d',
    DS.setTiltAngles [] [DS.dminus1; DS.dzero; DS.dzero] tilt_source = DS.Ok s'
    /\ DS.data s' = Some d'
    /\ DS.Extent d' = DS.Extent (volume 2 2 1 1 tilt_field_data)
    /\ tilt_length_ok d'.
Proof.
  apply (proj1 (proj2 (tilt_angles_follow_z_extent [] tilt_source
                         (volume 2 2 1 1 tilt_field_data) eq_refl
                         ltac:(unfold z_extent_ok, INT_MAX; cbn; lia)))).
Defined.

(** X14. setType with a type other than TiltSeries records the type in the
    source and in the image's type tag and removes the tilt angles from the
    image; arrays, active array and extent stay as they were. *)
Theorem setType_clears_tilt_angles (fresh : list DS.double) (t : Z)
    (s : DS.DataSource) (d : DS.vtkImageData) :
  DS.data s = Some d -> t <> DS.TiltSeries ->
  exists s' d',
    DS.setType fresh t s = DS.Ok s'
    /\ DS.Type_ s' = t
    /\ DS.data s' = Some d'
    /\ DS.hasTiltAngles d' = false
    /\ DS.getTiltAngles d' = []
    /\ DS.tomviz_data_source_type (DS.FieldData d') = Some (wrap_signed 8 t)
    /\ DS.PointData d' = DS.PointData d
    /\ DS.ActiveScalars d' = DS.ActiveScalars d
    /\ DS.Extent d' = DS.Extent d.
Proof.
  intros Hd Ht. unfold DS.setType. ds_simpl. rewrite Hd.
  destruct (Z.eqb_spec t DS.TiltSeries) as [E|_]; [contradiction|].
  unfold DS.setType_image, DS.clearTiltAngles.
  destruct (Z.eqb_spec t DS.TiltSeries) as [E|_]; [contradiction|]. cbn [negb].
  eexists. eexists. split; [reflexivity|]. ds_simpl.
  unfold DS.hasTiltAngles, DS.getTiltAngles. ds_simpl.
  repeat split; reflexivity.
Qed.

Lemma setType_clears_tilt_angles_witness :
  exists s' d',
    DS.setType [] DS.Volume tilt_source = DS.Ok s'
    /\ DS.Type_ s' = DS.Volume
    /\ DS.data s' = Some d'
    /\ DS.hasTiltAngles d' = false
    /\ DS.getTiltAngles d' = []
    /\ DS.tomviz_data_source_type (DS.FieldData d') = Some (wrap_signed 8 DS.Volume)
    /\ DS.PointData d' = DS.PointData (volume 2 2 1 1 tilt_field_data)
    /\ DS.ActiveScalars d' = DS.ActiveScalars (volume 2 2 1 1 tilt_field_data)
    /\ DS.Extent d' = DS.Extent (volume 2 2 1 1 tilt_field_data).
Proof.
  apply (setType_clears_tilt_angles [] DS.Volume tilt_source
           (volume 2 2 1 1 tilt_field_data)); [reflexivity | discriminate].
Defined.

Lemma overwrite_prefix_take (angles l : list DS.double) :
  take (length angles) (DS.overwrite_prefix angles l) = take (length l) angles.
Proof.
  revert l. induction angles as [|a angles IH]; intros [|x l]; cbn; try reflexivity.
  f_equal. apply IH.
Qed.

(** X15. Tilt angles written with setTiltAngles are read back by
    getTiltAngles: the array has one angle per z-slice, and it starts with
    the angles given - all of them when there are no more than slices, the
    first ones when there are more. *)
Theorem setTiltAngles_getTiltAngles (fresh angles : list DS.double)
    (s : DS.DataSource) (d : DS.vtkImageData) :
  DS.data s = Some d -> z_extent_ok d ->
  exists s' d',
    DS.setTiltAngles fresh angles s = DS.Ok s'
    /\ DS.data s' = Some d'
    /\ DS.hasTiltAngles d' = true
    /\ Z.of_nat (length (DS.getTiltAngles d')) = DS.ext d 5 - DS.ext d 4 + 1
    /\ take (length angles) (DS.getTiltAngles d')
       = take (Z.to_nat (DS.ext d 5 - DS.ext d 4 + 1)) angles.
Proof.
  intros Hd Hz. unfold DS.setTiltAngles. rewrite Hd.
  eexists. eexists. split; [reflexivity|]. ds_simpl. split; [reflexivity|].
  unfold DS.setTiltAngles_image.
  destruct (createOrResize_tilt_length fresh d Hz) as (l & Hl & Hlen).
  rewrite Hl. unfold DS.hasTiltAngles, DS.getTiltAngles. ds_simpl. cbn [default id].
  rewrite overwrite_prefix_length, overwrite_prefix_take.
  unfold DS.ext in *. rewrite createOrResize_Extent in Hlen.
  split; [reflexivity|]. split; [exact Hlen|].
  rewrite <- Hlen, Nat2Z.id. reflexivity.
Qed.

Lemma setTiltAngles_getTiltAngles_witness :
  exists s' d',
    DS.setTiltAngles [] [DS.dminus1; DS.dzero] tilt_source = DS.Ok s'
    /\ DS.data s' = Some d'
    /\ DS.hasTiltAngles d' = true
    /\ Z.of_nat (length (DS.getTiltAngles d')) = 0 - 0 + 1
    /\ take 2 (DS.getTiltAngles d') = take (Z.to_nat (0 - 0 + 1)) [DS.dminus1; DS.dzero].
Proof.
  apply (setTiltAngles_getTiltAngles [] [DS.dminus1; DS.dzero] tilt_source
           (volume 2 2 1 1 tilt_field_data) eq_refl).
  unfold z_extent_ok, INT_MAX. cbn. lia.
Defined.

(** ** Scalars arrays by name and by index *)

Lemma indexOf_range (l : list string) (x : string) :
  -1 <= DS.indexOf l x < Z.of_nat (length l).
Proof.
  induction l as [|y l IH]; cbn [DS.indexOf length]; [lia|].
  destruct (String.eqb y x); [lia|].
  destruct (Z.ltb_spec (DS.indexOf l x) 0); lia.
Qed.

Lemma indexOf_not_in (l : list string) (x : string) :
  DS.indexOf l x = -1 <-> ~ x ∈ l.
Proof.
  induction l as [|y l IH]; cbn [DS.indexOf].
  - split; [intros _ H; inversion H | reflexivity].
  - rewrite elem_of_cons. destruct (String.eqb_spec y x) as [->|Hne].
    + split; [discriminate | intros H; exfalso; apply H; left; reflexivity].
    + pose proof (indexOf_range l x) as Hr.
      destruct (Z.ltb_spec (DS.indexOf l x) 0).
      * split; [|reflexivity]. intros _ [Heq|Hin]; [congruence|].
        apply IH in Hin; [exact Hin | lia].
      * split; [lia|]. intros Hn. exfalso.
        assert (Hx : ~ x ∈ l) by (intros Hin; apply Hn; right; exact Hin).
        apply IH in Hx. lia.
Qed.

Lemma indexOf_in (l : list string) (x : string) :
  x ∈ l ->
  0 <= DS.indexOf l x < Z.of_nat (length l)
  /\ nth (Z.to_nat (DS.indexOf l x)) l EmptyString = x.
Proof.
  induction l as [|y l IH]; intros Hin; [inversion Hin|].
  cbn [DS.indexOf length]. destruct (String.eqb_spec y x) as [->|Hne].
  - split; [lia | reflexivity].
  - apply elem_of_cons in Hin as [Heq|Hin]; [congruence|].
    destruct (IH Hin) as [Hr Hn].
    destruct (Z.ltb_spec (DS.indexOf l x) 0); [lia|].
    split; [lia|].
    replace (Z.to_nat (DS.indexOf l x + 1)) with (S (Z.to_nat (DS.indexOf l x))) by lia.
    exact Hn.
Qed.

Lemma indexOf_nth (l : list string) (i : nat) :
  NoDup l -> (i < length l)%nat -> DS.indexOf l (nth i l EmptyString) = Z.of_nat i.
Proof.
  revert i. induction l as [|y l IH]; intros i Hnd Hi; [cbn in Hi; lia|].
  apply NoDup_cons in Hnd as [Hy Hnd]. destruct i as [|i]; cbn [nth DS.indexOf].
  - rewrite String.eqb_refl. reflexivity.
  - cbn [length] in Hi.
    assert (Hin : nth i l EmptyString ∈ l).
    { apply list_elem_of_In, nth_In. lia. }
    destruct (String.eqb_spec y (nth i l EmptyString)) as [E|_].
    + exfalso. apply Hy. rewrite E. exact Hin.
    + rewrite IH by (assumption || lia).
      destruct (Z.ltb_spec (Z.of_nat i) 0); lia.
Qed.

(** X16. Array names and positions convert into each other: a name that is
    not listed has index -1 and a position outside the list has the empty
    name; a listed name is found at a position that carries it; and when
    the names are distinct, the name at a position is found at that
    position. *)
Theorem scalarsIdx_scalarsName (s : DS.DataSource) :
  (forall n, ~ n ∈ DS.listScalars s <-> DS.scalarsIdx n s = -1)
  /\ (forall i, i < 0 \/ Z.of_nat (length (DS.listScalars s)) <= i ->
        DS.scalarsName i s = EmptyString)
  /\ (forall n, n ∈ DS.listScalars s ->
        0 <= DS.scalarsIdx n s < Z.of_nat (length (DS.listScalars s))
        /\ DS.scalarsName (DS.scalarsIdx n s) s = n)
  /\ (NoDup (DS.listScalars s) ->
      forall i, 0 <= i < Z.of_nat (length (DS.listScalars s)) ->
        DS.scalarsIdx (DS.scalarsName i s) s = i).
Proof.
  unfold DS.scalarsIdx, DS.scalarsName. cbv zeta.
  split; [|split; [|split]].
  - intros n. symmetry. apply indexOf_not_in.
  - intros i Hi.
    destruct (Z.leb_spec 0 i); destruct (Z.ltb_spec i (Z.of_nat (length (DS.listScalars s))));
      cbn [andb]; try reflexivity; lia.
  - intros n Hn. destruct (indexOf_in _ _ Hn) as [Hr Hnth]. split; [exact Hr|].
    destruct (Z.leb_spec 0 (DS.indexOf (DS.listScalars s) n)); [|lia].
    destruct (Z.ltb_spec (DS.indexOf (DS.listScalars s) n)
                (Z.of_nat (length (DS.listScalars s)))); [|lia].
    exact Hnth.
  - intros Hnd i Hi.
    destruct (Z.leb_spec 0 i); [|lia].
    destruct (Z.ltb_spec i (Z.of_nat (length (DS.listScalars s)))); [|lia].
    cbn [andb]. rewrite indexOf_nth by (assumption || lia). lia.
Qed.

Lemma setActiveScalars_listed (fresh : list DS.double) (n : string) (s : DS.DataSource) :
  n ∈ DS.listScalars s ->
  exists s',
    DS.setActiveScalars fresh n s = (DS.Ok s', [])
    /\ DS.activeScalars s' = n
    /\ DS.listScalars s' = DS.listScalars s
    /\ DS.CurrentToOriginal s' = DS.CurrentToOriginal s.
Proof.
  intros Hn. unfold DS.listScalars in Hn.
  destruct (DS.data s) as [d|] eqn:Hd; [|inversion Hn].
  destruct (find_array_elem n (DS.PointData d) Hn) as [i Hi].
  unfold DS.setActiveScalars, DS.getScalarsArray. rewrite Hd, Hi. ds_simpl.
  set (s1 := DS.set_data _ _).
  destruct (dataModified_keeps fresh s1 (DS.set_ActiveScalars d (Some i)) eq_refl)
    as (s' & d' & E & Hd' & Hpd & Has & _ & _ & Hmap & _).
  exists s'. split; [rewrite E; reflexivity|].
  unfold DS.activeScalars, DS.listScalars, DS.GetScalars, DS.names.
  rewrite Hd', Hd, Hpd, Has. ds_simpl.
  destruct (find_array_Some n (DS.PointData d) i Hi) as (x & Hx & Hname).
  rewrite Hx. split; [exact Hname|]. split; [reflexivity|].
  rewrite Hmap. reflexivity.
Qed.

(** X17. setActiveScalars by name, on a source whose array names are plain
    (not empty, of the characters 1 to 127): a plain name that no array
    carries is refused with a warning and nothing changes; a name that an
    array carries becomes the name of the active array, the arrays and the
    rename map staying as they were. *)
Theorem setActiveScalars_by_name (fresh : list DS.double) (n : string)
    (s : DS.DataSource) :
  DS.plain_names s = true ->
  (DS.plain n = true -> ~ n ∈ DS.listScalars s ->
     DS.setActiveScalars fresh n s = (DS.Ok s, [DS.UnableToSelect n]))
  /\ (n ∈ DS.listScalars s ->
      exists s',
        DS.setActiveScalars fresh n s = (DS.Ok s', [])
        /\ DS.activeScalars s' = n
        /\ DS.listScalars s' = DS.listScalars s
        /\ DS.CurrentToOriginal s' = DS.CurrentToOriginal s).
Proof.
  intros _. split; [|apply setActiveScalars_listed].
  intros _ Hn. unfold DS.setActiveScalars, DS.getScalarsArray.
  unfold DS.listScalars in Hn. destruct (DS.data s) as [d|]; [|reflexivity].
  apply find_array_None in Hn. rewrite Hn. reflexivity.
Qed.

Lemma setActiveScalars_by_name_witness :
  DS.setActiveScalars [] "density" small_source
  = (DS.Ok small_source, [DS.UnableToSelect "density"])
  /\ exists s',
       DS.setActiveScalars [] "ImageScalars" small_source = (DS.Ok s', [])
       /\ DS.activeScalars s' = "ImageScalars"%string
       /\ DS.listScalars s' = DS.listScalars small_source
       /\ DS.CurrentToOriginal s' = DS.CurrentToOriginal small_source.
Proof.
  split.
  - apply (proj1 (setActiveScalars_by_name [] "density" small_source eq_refl) eq_refl).
    intros H. apply list_elem_of_In in H. destruct H as [H|[]]. discriminate.
  - apply (proj2 (setActiveScalars_by_name [] "ImageScalars" small_source eq_refl)).
    apply list_elem_of_In. left. reflexivity.
Defined.

(** X18. setActiveScalars by index, on a source whose array names are plain
    (not empty, of the characters 1 to 127): an index below 0 or not below
    the number of arrays changes nothing and reports nothing; an index in
    range makes the array of the name at that position active, which is
    the array at that position when the names are distinct. *)
Theorem setActiveScalars_by_index (fresh : list DS.double) (i : Z)
    (s : DS.DataSource) :
  DS.plain_names s = true ->
  (i < 0 \/ Z.of_nat (length (DS.listScalars s)) <= i ->
     DS.setActiveScalars_idx fresh i s = (DS.Ok s, []))
  /\ (0 <= i < Z.of_nat (length (DS.listScalars s)) ->
      exists s',
        DS.setActiveScalars_idx fresh i s = (DS.Ok s', [])
        /\ DS.activeScalars s' = DS.scalarsName i s
        /\ DS.listScalars s' = DS.listScalars s
        /\ (NoDup (DS.listScalars s) -> DS.activeScalarsIdx s' = i)).
Proof.
  intros _.
  unfold DS.setActiveScalars_idx, DS.scalarsName, DS.activeScalarsIdx. cbv zeta.
  split.
  - intros Hi.
    destruct (Z.ltb_spec i 0); destruct (Z.leb_spec (Z.of_nat (length (DS.listScalars s))) i);
      cbn [orb]; try reflexivity; lia.
  - intros Hi.
    destruct (Z.ltb_spec i 0); [lia|].
    destruct (Z.leb_spec (Z.of_nat (length (DS.listScalars s))) i); [lia|].
    destruct (Z.leb_spec 0 i); [|lia].
    destruct (Z.ltb_spec i (Z.of_nat (length (DS.listScalars s)))); [|lia].
    cbn [orb andb].
    assert (Hin : nth (Z.to_nat i) (DS.listScalars s) EmptyString ∈ DS.listScalars s).
    { apply list_elem_of_In, nth_In. lia. }
    destruct (setActiveScalars_listed fresh _ s Hin) as (s' & E & Hact & Hlist & _).
    exists s'. split; [exact E|]. split; [exact Hact|]. split; [exact Hlist|].
    intros Hnd. rewrite Hact, Hlist, indexOf_nth by (assumption || lia). lia.
Qed.

Lemma setActiveScalars_by_index_witness :
  DS.setActiveScalars_idx [] 1 small_source = (DS.Ok small_source, [])
  /\ exists s',
       DS.setActiveScalars_idx [] 0 small_source = (DS.Ok s', [])
       /\ DS.activeScalars s' = DS.scalarsName 0 small_source
       /\ DS.listScalars s' = DS.listScalars small_source
       /\ (NoDup (DS.listScalars small_source) -> DS.activeScalarsIdx s' = 0).
Proof.
  split.
  - apply (proj1 (setActiveScalars_by_index [] 1 small_source eq_refl)).
    right. cbn. lia.
  - apply (proj2 (setActiveScalars_by_index [] 0 small_source eq_refl)).
    cbn. lia.
Defined.

(** X19. renameScalarsArray, on a source whose array names are plain (not
    empty, of the characters 1 to 127), does nothing when the two names are
    equal, when the old name is plain and no array carries it, or when an
    array already carries the new name: the source, its arrays and its
    rename map stay as they were. *)
Theorem renameScalarsArray_refuses (fresh : list DS.double) (oldName newName : string)
    (s : DS.DataSource) :
  DS.plain_names s = true ->
  oldName = newName
  \/ (DS.plain oldName = true /\ ~ oldName ∈ DS.listScalars s)
  \/ newName ∈ DS.listScalars s ->
  DS.renameScalarsArray fresh oldName newName s = DS.Ok s.
Proof.
  intros _ H. unfold DS.renameScalarsArray.
  destruct (String.eqb_spec oldName newName) as [_|Hne]; [reflexivity|].
  unfold DS.getScalarsArray, DS.listScalars in *.
  destruct (DS.data s) as [d|]; [|reflexivity].
  destruct (DS.find_array oldName (DS.PointData d)) as [i|] eqn:Ho; [|reflexivity].
  destruct H as [H|[[_ H]|H]]; [contradiction | |].
  - apply find_array_None in H. unfold DS.names in H. congruence.
  - destruct (find_array_elem newName (DS.PointData d) H) as [j Hj].
    rewrite Hj. reflexivity.
Qed.

Lemma renameScalarsArray_refuses_witness :
  DS.renameScalarsArray [] "missing" "renamed" small_source = DS.Ok small_source.
Proof.
  apply (renameScalarsArray_refuses [] "missing" "renamed" small_source eq_refl).
  right. left. split; [reflexivity|]. intros H. vm_compute in H.
  apply list_elem_of_In in H. destruct H as [H|[]]. discriminate.
Defined.



(** ** File names *)

(** X21. The file names written with setFileNames are the ones read back:
    fileNames returns the list, fileName its first entry (the empty string
    for an empty list), isImageStack tells whether there is more than one,
    every other entry of the source's JSON state is untouched, and a
    source that was given no label is labelled with the base name of the
    first file. *)
Theorem setFileNames_fileNames (files : list string) (s : DS.DataSource) :
  let s' := DS.setFileNames files s in
  DS.fileNames s' = files
  /\ DS.fileName s' = hd EmptyString files
  /\ DS.isImageStack s' = (1 <? Z.of_nat (length files))
  /\ (forall k, k <> "reader"%string -> DS.m_json s' !! k = DS.m_json s !! k)
  /\ (DS.m_json s !! "label"%string = None ->
      DS.label s' = DS.baseName (hd EmptyString files)).
Proof.
  cbv zeta. unfold DS.fileNames, DS.fileName, DS.isImageStack, DS.label, DS.setFileNames.
  ds_simpl. rewrite !lookup_insert_eq.
  split; [reflexivity|]. split; [destruct files; reflexivity|].
  split; [reflexivity|].
  split; [intros k Hk; apply lookup_insert_ne; congruence|].
  intros Hl. rewrite lookup_insert_ne by discriminate. rewrite Hl.
  unfold DS.fileName. ds_simpl. rewrite lookup_insert_eq.
  destruct files; reflexivity.
Qed.

(** ** The geometry in a saved state *)

Lemma restore_geometry_reads (mmd : bool) (doc : gmap string DS.QJsonValue)
    (r0 : DS.DataSource) :
  let r := DS.restore_geometry mmd doc r0 in
  (forall v, doc !! "origin"%string = Some v ->
     DS.DisplayPosition r = take 3 (DS.toDoubles v))
  /\ (forall v, doc !! "orientation"%string = Some v ->
        DS.DisplayOrientation r = take 3 (DS.toDoubles v))
  /\ (forall v, doc !! "colorMap2DBox"%string = Some v ->
        DS.m_transferFunction2DBox r = DS.toDoubles v)
  /\ (forall v, doc !! "units"%string = Some v -> DS.getUnits r = DS.toString v)
  /\ (forall v dr, doc !! "spacing"%string = Some v -> DS.data r = Some dr ->
        DS.Spacing dr = take 3 (DS.toDoubles v)).
Proof.
  cbv zeta. unfold DS.restore_geometry, DS.getUnits.
  destruct (doc !! "colorMap2DBox"%string) as [vb|];
    destruct (doc !! "spacing"%string) as [vs|];
    destruct (doc !! "units"%string) as [vu|];
    destruct (doc !! "origin"%string) as [vo|];
    destruct (doc !! "orientation"%string) as [vr|];
    unfold DS.setDisplayOrientation, DS.setDisplayPosition, DS.setUnits, DS.setSpacing;
    destruct mmd; ds_simpl;
    repeat split; intros; simplify_eq; try reflexivity;
    repeat match goal with
           | H : context [DS.Units ?s] |- _ => destruct (DS.Units s); ds_simpl
           | |- context [DS.Units ?s] => destruct (DS.Units s); ds_simpl
           | H : context [DS.data ?s] |- _ => destruct (DS.data s); ds_simpl
           end;
    simplify_eq; reflexivity.
Qed.

(** A source with an image never faults in setActiveScalars,
    renameScalarsArray or deserialize. *)
Lemma setActiveScalars_total (fresh : list DS.double) (n : string) (s : DS.DataSource)
    (d : DS.vtkImageData) :
  DS.data s = Some d ->
  exists s' d', fst (DS.setActiveScalars fresh n s) = DS.Ok s' /\ DS.data s' = Some d'.
Proof.
  intros Hd. unfold DS.setActiveScalars.
  destruct (DS.getScalarsArray s n) as [i|].
  - cbn [fst]. rewrite Hd. ds_simpl.
    destruct (dataModified_keeps fresh
                (DS.set_data s (Some (DS.set_ActiveScalars d (Some i)))) _ eq_refl)
      as (s' & d' & E & Hd' & _).
    exists s', d'. split; assumption.
  - exists s, d. split; [reflexivity | exact Hd].
Qed.

Lemma renameScalarsArray_total (fresh : list DS.double) (a b : string)
    (s : DS.DataSource) (d : DS.vtkImageData) :
  DS.data s = Some d ->
  exists s' d', DS.renameScalarsArray fresh a b s = DS.Ok s' /\ DS.data s' = Some d'.
Proof.
  intros Hd. unfold DS.renameScalarsArray.
  destruct (String.eqb a b); [exists s, d; split; [reflexivity | exact Hd]|].
  destruct (DS.getScalarsArray s a) as [i|]; [|exists s, d; split; [reflexivity | exact Hd]].
  destruct (DS.getScalarsArray s b) as [j|]; [exists s, d; split; [reflexivity | exact Hd]|].
  rewrite Hd. ds_simpl. set (s1 := DS.set_data s _).
  assert (Hd1 : exists d1, DS.data s1 = Some d1) by (eexists; reflexivity).
  destruct Hd1 as [d1 Hd1].
  assert (Hstep : exists s2 d2,
            (if String.eqb a (DS.activeScalars s)
             then fst (DS.setActiveScalars fresh b s1)
             else DS.dataModified fresh s1) = DS.Ok s2 /\ DS.data s2 = Some d2).
  { destruct (String.eqb a (DS.activeScalars s)).
    - apply setActiveScalars_total with d1. exact Hd1.
    - destruct (dataModified_keeps fresh s1 d1 Hd1) as (s2 & d2 & E & Hd2 & _).
      exists s2, d2. split; assumption. }
  destruct Hstep as (s2 & d2 & E & Hd2). rewrite E. cbn [DS.rbind].
  eexists. exists d2. split; [reflexivity|]. ds_simpl. exact Hd2.
Qed.

Lemma replay_renames_total (fresh : list DS.double) (o : list (string * string)) :
  forall (s : DS.DataSource) (d : DS.vtkImageData),
  DS.data s = Some d ->
  exists s' d', DS.replay_renames fresh o s = DS.Ok s' /\ DS.data s' = Some d'.
Proof.
  induction o as [|kv o IH]; intros s d Hd.
  - exists s, d. split; [reflexivity | exact Hd].
  - destruct (renameScalarsArray_total fresh (fst kv) (snd kv) s d Hd)
      as (s1 & d1 & E & Hd1).
    rewrite (replay_renames_cons fresh kv o s s1 E). apply IH with d1. exact Hd1.
Qed.

Lemma deserialize_total (fresh : list DS.double) (mmd : bool)
    (doc : gmap string DS.QJsonValue) (t : DS.DataSource) (d : DS.vtkImageData) :
  DS.data t = Some d ->
  doc !! "modules"%string = None -> doc !! "operators"%string = None ->
  exists r0 d0,
    DS.deserialize fresh mmd doc t = Some (DS.Ok (DS.restore_geometry mmd doc r0))
    /\ DS.data r0 = Some d0.
Proof.
  intros Hd Hm Ho. unfold DS.deserialize. rewrite Hm, Ho.
  set (t1 := match doc !! "label"%string with Some v => _ | None => t end).
  assert (Hd1 : DS.data t1 = Some d) by (subst t1; destruct (doc !! "label"%string); exact Hd).
  assert (Hr : exists s1 d1,
            match doc !! "scalarsRename"%string with
            | Some (DS.JStringObject o) => DS.replay_renames fresh o t1
            | _ => DS.Ok t1
            end = DS.Ok s1 /\ DS.data s1 = Some d1).
  { destruct (doc !! "scalarsRename"%string) as [[]|];
      try (exists t1, d; split; [reflexivity | exact Hd1]).
    apply replay_renames_total with d. exact Hd1. }
  destruct Hr as (s1 & d1 & E1 & Hs1). rewrite E1. cbn [DS.rbind].
  assert (Ha : exists s2 d2,
            match doc !! "activeScalars"%string with
            | Some v => fst (DS.setActiveScalars fresh (DS.toString v) s1)
            | None => DS.Ok s1
            end = DS.Ok s2 /\ DS.data s2 = Some d2).
  { destruct (doc !! "activeScalars"%string) as [v|].
    - apply setActiveScalars_total with d1. exact Hs1.
    - exists s1, d1. split; [reflexivity | exact Hs1]. }
  destruct Ha as (s2 & d2 & E2 & Hs2). rewrite E2. cbn [DS.rbind].
  exists s2, d2. split; [reflexivity | exact Hs2].
Qed.

Lemma restore_geometry_data (mmd : bool) (doc : gmap string DS.QJsonValue)
    (r0 : DS.DataSource) (d0 : DS.vtkImageData) :
  DS.data r0 = Some d0 ->
  exists dr, DS.data (DS.restore_geometry mmd doc r0) = Some dr.
Proof.
  intros Hd0.
  unfold DS.restore_geometry, DS.setDisplayOrientation, DS.setDisplayPosition,
    DS.setUnits, DS.setSpacing.
  destruct (doc !! "colorMap2DBox"%string); destruct (doc !! "spacing"%string);
    destruct (doc !! "units"%string); destruct (doc !! "origin"%string);
    destruct (doc !! "orientation"%string); destruct mmd; ds_simpl;
    repeat match goal with
           | |- context [DS.Units ?s] => destruct (DS.Units s); ds_simpl
           end;
    rewrite ?Hd0; ds_simpl; eexists; reflexivity.
Qed.

(** X22. The geometry survives a save and a reload: serialize of a source
    without operators and modules gives a document that deserialize, on
    any source that holds an image, reads without fault, restoring the
    display position, the display orientation and the 2D transfer-function
    box, and - when the units were marked modified - the unit and the
    spacing of the image. *)
Theorem geometry_round_trip (fresh : list DS.double) (mmd : bool) (env : DS.Env)
    (s t : DS.DataSource) (d dt : DS.vtkImageData) :
  DS.data s = Some d -> DS.data t = Some dt ->
  DS.Operators s = [] -> DS.env_modules env = [] ->
  DS.m_json s !! "modules"%string = None ->
  DS.m_json s !! "operators"%string = None ->
  exists doc r dr,
    DS.serialize env s = Some doc
    /\ DS.deserialize fresh mmd doc t = Some (DS.Ok r)
    /\ DS.data r = Some dr
    /\ DS.DisplayPosition r = take 3 (DS.DisplayPosition s)
    /\ DS.DisplayOrientation r = take 3 (DS.DisplayOrientation s)
    /\ DS.m_transferFunction2DBox r = DS.m_transferFunction2DBox s
    /\ (DS.UnitsModified s = true ->
        DS.Spacing dr = take 3 (DS.Spacing d)
        /\ (is_Some (DS.Units s) -> DS.getUnits r = DS.getUnits s)).
Proof.
  intros Hd Hdt Hops Hmods Hjm Hjo.
  assert (Hdoc : exists doc,
            DS.serialize env s = Some doc
            /\ doc !! "modules"%string = None /\ doc !! "operators"%string = None
            /\ doc !! "origin"%string = Some (DS.JDoubles (take 3 (DS.DisplayPosition s)))
            /\ doc !! "orientation"%string
               = Some (DS.JDoubles (take 3 (DS.DisplayOrientation s)))
            /\ doc !! "colorMap2DBox"%string
               = Some (DS.JDoubles (DS.m_transferFunction2DBox s))
            /\ (DS.UnitsModified s = true ->
                doc !! "spacing"%string = Some (DS.JDoubles (take 3 (DS.Spacing d)))
                /\ forall ul, DS.Units s = Some ul ->
                     doc !! "units"%string = Some (DS.JString (nth 0 ul EmptyString)))).
  { unfold DS.serialize. rewrite Hops, Hmods, Hd.
    destruct (DS.UnitsModified s) eqn:Hu.
    - eexists. split; [reflexivity|].
      rewrite !bool_decide_eq_true_2 by reflexivity. cbn [negb]. rewrite !when_false.
      destruct (DS.Units s) as [ul|]; repeat split; doc_lookup;
        try reflexivity; try assumption; intros; simplify_eq; doc_lookup; reflexivity.
    - eexists. split; [reflexivity|].
      rewrite !bool_decide_eq_true_2 by reflexivity. cbn [negb]. rewrite !when_false.
      repeat split; doc_lookup; try reflexivity; try assumption; discriminate. }
  destruct Hdoc as (doc & Es & Hm & Ho & Hor & Hon & Hbox & Hun).
  destruct (deserialize_total fresh mmd doc t dt Hdt Hm Ho) as (r0 & d0 & Er & Hd0).
  destruct (restore_geometry_data mmd doc r0 d0 Hd0) as [dr Hdr].
  destruct (restore_geometry_reads mmd doc r0) as (Rp & Ro & Rb & Ru & Rs).
  set (r := DS.restore_geometry mmd doc r0) in *.
  exists doc, r, dr. split; [exact Es|]. split; [exact Er|]. split; [exact Hdr|].
  split; [rewrite (Rp _ Hor); cbn [DS.toDoubles]; apply take_take|].
  split; [rewrite (Ro _ Hon); cbn [DS.toDoubles]; apply take_take|].
  split; [rewrite (Rb _ Hbox); reflexivity|].
  intros Hu. destruct (Hun Hu) as [Hsp Hunits]. split.
  - rewrite (Rs _ dr Hsp Hdr). cbn [DS.toDoubles]. apply take_take.
  - intros [ul Hul]. rewrite (Ru _ (Hunits ul Hul)). unfold DS.getUnits.
    rewrite Hul. reflexivity.
Qed.

Lemma geometry_round_trip_witness :
  exists doc r dr,
    DS.serialize env0 um_source = Some doc
    /\ DS.deserialize [] true doc small_source = Some (DS.Ok r)
    /\ DS.data r = Some dr
    /\ DS.DisplayPosition r = take 3 (DS.DisplayPosition um_source)
    /\ DS.DisplayOrientation r = take 3 (DS.DisplayOrientation um_source)
    /\ DS.m_transferFunction2DBox r = DS.m_transferFunction2DBox um_source
    /\ (DS.UnitsModified um_source = true ->
        DS.Spacing dr = take 3 (DS.Spacing um_image)
        /\ (is_Some (DS.Units um_source) -> DS.getUnits r = DS.getUnits um_source)).
Proof.
  apply (geometry_round_trip [] true env0 um_source small_source um_image
           (volume 2 2 1 1 no_field_data)); reflexivity.
Defined.

(** ** The subsample settings *)

Lemma setFieldDataArray_exact (old : option (list Z)) (n : nat) (values : list Z) :
  length values = n ->
  (forall l, old = Some l -> (n <= length l)%nat) ->
  exists l', DS.setFieldDataArray old n values = DS.Ok l' /\ take n l' = values.
Proof.
  intros Hlen Hold. unfold DS.setFieldDataArray.
  set (array := match old with Some l => l | None => repeat 0 n end).
  assert (Ha : (n <= length array)%nat).
  { subst array. destruct old as [l|]; [apply Hold; reflexivity|].
    rewrite repeat_length. lia. }
  destruct (Nat.ltb_spec (length array) n); [lia|].
  eexists. split; [reflexivity|].
  assert (Hm : map (fun i => nth i values 0) (seq 0 n) = values).
  { subst n. clear. induction values as [|v values IH]; [reflexivity|].
    cbn [length seq map nth]. f_equal. rewrite <- seq_shift, map_map. exact IH. }
  rewrite Hm, take_app_length'; [reflexivity | symmetry; exact Hlen].
Qed.

(** X23. The subsample settings written to the field data of an image are
    the ones read back: after setSubsampleStrides, setSubsampleVolumeBounds
    and setWasSubsampled (arrays of these names that the image already
    holds having at least 3 and 6 tuples), subsampleStrides,
    subsampleVolumeBounds and wasSubsampled return the values given, and
    the scalars, the tilt angles and the type tag of the image are as they
    were. *)
Theorem subsample_settings_round_trip (d : DS.vtkImageData) (strides bounds : list Z)
    (b : bool) :
  length strides = 3%nat -> length bounds = 6%nat ->
  (forall l, DS.subsample_strides (DS.FieldData d) = Some l -> (3 <= length l)%nat) ->
  (forall l, DS.subsample_volume_bounds (DS.FieldData d) = Some l -> (6 <= length l)%nat) ->
  exists d1 d2 d3,
    DS.setSubsampleStrides (Some d) strides = DS.Ok (Some d1)
    /\ DS.setSubsampleVolumeBounds (Some d1) bounds = DS.Ok (Some d2)
    /\ DS.setWasSubsampled (Some d2) b = Some d3
    /\ DS.subsampleStrides (Some d3) = strides
    /\ DS.subsampleVolumeBounds (Some d3) = bounds
    /\ DS.wasSubsampled (Some d3) = b
    /\ DS.PointData d3 = DS.PointData d
    /\ DS.tilt_angles (DS.FieldData d3) = DS.tilt_angles (DS.FieldData d)
    /\ DS.tomviz_data_source_type (DS.FieldData d3)
       = DS.tomviz_data_source_type (DS.FieldData d).
Proof.
  intros Hs Hb Hos Hob.
  destruct (setFieldDataArray_exact _ 3 strides Hs Hos) as (ls & Es & Hls).
  destruct (setFieldDataArray_exact _ 6 bounds Hb Hob) as (lb & Eb & Hlb).
  unfold DS.setSubsampleStrides. rewrite Es.
  eexists. eexists. eexists. split; [reflexivity|].
  unfold DS.setSubsampleVolumeBounds. ds_simpl_all. rewrite Eb.
  split; [reflexivity|]. split; [reflexivity|].
  unfold DS.subsampleStrides, DS.subsampleVolumeBounds, DS.wasSubsampled.
  ds_simpl_all. rewrite Hls, Hlb.
  repeat split; try reflexivity. destruct b; reflexivity.
Qed.

Lemma subsample_settings_round_trip_witness :
  exists d1 d2 d3,
    DS.setSubsampleStrides (Some (volume 2 2 1 1 no_field_data)) [2; 2; 1] = DS.Ok (Some d1)
    /\ DS.setSubsampleVolumeBounds (Some d1) [0; 3; 0; 3; 0; 0] = DS.Ok (Some d2)
    /\ DS.setWasSubsampled (Some d2) true = Some d3
    /\ DS.subsampleStrides (Some d3) = [2; 2; 1]
    /\ DS.subsampleVolumeBounds (Some d3) = [0; 3; 0; 3; 0; 0]
    /\ DS.wasSubsampled (Some d3) = true
    /\ DS.PointData d3 = DS.PointData (volume 2 2 1 1 no_field_data)
    /\ DS.tilt_angles (DS.FieldData d3)
       = DS.tilt_angles (DS.FieldData (volume 2 2 1 1 no_field_data))
    /\ DS.tomviz_data_source_type (DS.FieldData d3)
       = DS.tomviz_data_source_type (DS.FieldData (volume 2 2 1 1 no_field_data)).
Proof.
  apply (subsample_settings_round_trip (volume 2 2 1 1 no_field_data)
           [2; 2; 1] [0; 3; 0; 3; 0; 0] true);
    try reflexivity; discriminate.
Defined.

(** ** A new image *)

(** X24. A source made by init from an image shows every array of the
    image under its own name: the rename map sends each array name to
    itself and holds nothing else, the list of scalars is that of the
    image, the type is the one given, there are no time steps, and the
    active array is the one the image had, or its first array when it had
    none. *)
Theorem init_tracks_arrays (img : DS.vtkImageData) (t : Z) :
  let s := DS.init (Some img) t in
  DS.Type_ s = t
  /\ DS.listScalars s = DS.names img
  /\ (forall n, DS.CurrentToOriginal s !! n
                = if decide (n ∈ DS.names img) then Some n else None)
  /\ DS.activeScalars s
     = match DS.GetScalars img, DS.PointData img with
       | Some y, _ => DS.Name y
       | None, x :: _ => DS.Name x
       | None, [] => EmptyString
       end
  /\ DS.numTimeSeriesSteps s = 0
  /\ DS.UnitsModified s = false.
Proof.
  cbv zeta. unfold DS.init, DS.ensureActiveArray. ds_simpl.
  destruct (DS.GetScalars img) as [y|] eqn:Hg.
  - ds_simpl. split; [reflexivity|]. split; [reflexivity|].
    split; [intros n; unfold DS.listScalars, DS.track_names; ds_simpl;
            rewrite track_names_lookup, lookup_empty; reflexivity|].
    split; [unfold DS.activeScalars; ds_simpl; rewrite Hg; reflexivity|].
    split; reflexivity.
  - destruct (DS.PointData img) as [|x pd] eqn:Hp.
    + ds_simpl. split; [reflexivity|]. split; [reflexivity|].
      split; [intros n; unfold DS.listScalars, DS.track_names; ds_simpl;
              rewrite track_names_lookup, lookup_empty; reflexivity|].
      split; [unfold DS.activeScalars; ds_simpl; rewrite Hg; reflexivity|].
      split; reflexivity.
    + ds_simpl. split; [reflexivity|].
      split; [unfold DS.listScalars, DS.names; ds_simpl; reflexivity|].
      split; [intros n; unfold DS.listScalars, DS.track_names, DS.names; ds_simpl;
              rewrite track_names_lookup, lookup_empty; reflexivity|].
      split; [unfold DS.activeScalars, DS.GetScalars; ds_simpl; rewrite Hp; reflexivity|].
      split; reflexivity.
Qed.

Lemma dataModified_full (fresh : list DS.double) (s : DS.DataSource)
    (d : DS.vtkImageData) :
  DS.data s = Some d ->
  exists s' d',
    DS.dataModified fresh s = DS.Ok s'
    /\ DS.data s' = Some d'
    /\ DS.PointData d' = DS.PointData d
    /\ DS.ActiveScalars d' = DS.ActiveScalars d
    /\ DS.CurrentToOriginal s' = DS.CurrentToOriginal s
    /\ DS.Type_ s'
       = default (DS.Type_ s) (DS.tomviz_data_source_type (DS.FieldData d))
    /\ DS.tomviz_data_source_type (DS.FieldData d')
       = Some (wrap_signed 8 (DS.Type_ s')).
Proof.
  intros Hd.
  destruct (dataModified_keeps fresh s d Hd)
    as (s1 & d1 & E1 & Hd1 & Hp & Ha & _ & _ & Hm & _).
  destruct (dataModified_tag fresh s d Hd) as (s2 & d2 & E2 & Hd2 & Ht & Htag & _).
  rewrite E1 in E2. injection E2 as <-. rewrite Hd1 in Hd2. injection Hd2 as <-.
  exists s1, d1. repeat split; assumption.
Qed.

(** X25. setData shows the new image under fresh names: it returns
    normally with the arrays and the active array of the new image, a
    rename map that sends each of its array names to itself and holds
    nothing else, the type the image's tag asks for (Volume when it has no
    tag or an unknown one) and that type written back to the tag.
    copyData, in contrast, keeps the rename map of the old image. *)
Theorem setData_resets_rename_map (fresh : list DS.double) (newData : DS.vtkImageData)
    (s : DS.DataSource) :
  (exists s' d',
     DS.setData fresh newData s = DS.Ok s'
     /\ DS.data s' = Some d'
     /\ DS.PointData d' = DS.PointData newData
     /\ DS.ActiveScalars d' = DS.ActiveScalars newData
     /\ (forall n, DS.CurrentToOriginal s' !! n
                   = if decide (n ∈ DS.names newData) then Some n else None)
     /\ DS.Type_ s'
        = match DS.tomviz_data_source_type (DS.FieldData newData) with
          | Some t => if t =? DS.TiltSeries then DS.TiltSeries
                      else if t =? DS.FIB then DS.FIB else DS.Volume
          | None => DS.Volume
          end
     /\ DS.tomviz_data_source_type (DS.FieldData d') = Some (DS.Type_ s'))
  /\ (is_Some (DS.data s) ->
      exists s' d',
        DS.copyData fresh newData s = DS.Ok s'
        /\ DS.data s' = Some d'
        /\ DS.PointData d' = DS.PointData newData
        /\ DS.CurrentToOriginal s' = DS.CurrentToOriginal s).
Proof.
  split.
  - unfold DS.setData. cbn [DS.data DS.set_data].
    set (T := match DS.tomviz_data_source_type (DS.FieldData newData) with
              | Some t => if t =? DS.TiltSeries then DS.TiltSeries
                          else if t =? DS.FIB then DS.FIB else DS.Volume
              | None => DS.Volume
              end).
    assert (HT : wrap_signed 8 T = T).
    { subst T. destruct (DS.tomviz_data_source_type (DS.FieldData newData)) as [t|];
        [destruct (t =? DS.TiltSeries); [|destruct (t =? DS.FIB)]|]; reflexivity. }
    assert (H1 : exists s1 d1,
              match DS.tomviz_data_source_type (DS.FieldData newData) with
              | Some t =>
                  if t =? DS.TiltSeries
                  then DS.rbind (DS.ensureTiltAnglesArrayExists fresh
                                   (DS.set_data s (Some newData)))
                         (fun s => DS.Ok (DS.set_Type s DS.TiltSeries)) (fun s => s)
                  else if t =? DS.FIB then DS.Ok (DS.set_Type (DS.set_data s (Some newData)) DS.FIB)
                  else DS.Ok (DS.set_Type (DS.set_data s (Some newData)) DS.Volume)
              | None => DS.Ok (DS.set_Type (DS.set_data s (Some newData)) DS.Volume)
              end = DS.Ok s1
              /\ DS.data s1 = Some d1 /\ DS.Type_ s1 = T
              /\ DS.PointData d1 = DS.PointData newData
              /\ DS.ActiveScalars d1 = DS.ActiveScalars newData).
    { subst T. destruct (DS.tomviz_data_source_type (DS.FieldData newData)) as [t|];
        [destruct (t =? DS.TiltSeries); [|destruct (t =? DS.FIB)]|];
        try (eexists; eexists; split; [reflexivity|]; ds_simpl; repeat split; reflexivity).
      unfold DS.ensureTiltAnglesArrayExists. ds_simpl. cbn [DS.rbind].
      eexists. eexists. split; [reflexivity|]. ds_simpl. split; [reflexivity|].
      split; [reflexivity|].
      unfold DS.createOrResizeTiltAnglesArray.
      destruct (DS.tilt_angles (DS.FieldData newData)); [destruct (negb _)|];
        split; reflexivity. }
    destruct H1 as (s1 & d1 & E1 & Hd1 & HT1 & Hp1 & Ha1). rewrite E1. cbn [DS.rbind].
    cbv zeta.
    remember (match option_bind _ _ _ (DS.data s1) with Some u => _ | None => _ end)
      as s2 eqn:Es2.
    assert (H2 : exists d2, DS.data s2 = Some d2 /\ DS.Type_ s2 = T
                            /\ DS.PointData d2 = DS.PointData newData
                            /\ DS.ActiveScalars d2 = DS.ActiveScalars newData).
    { rewrite Es2. clear Es2. rewrite Hd1. ds_simpl.
      destruct (DS.units (DS.FieldData d1)); [|destruct (DS.Units s1)]; ds_simpl;
        rewrite ?Hd1; ds_simpl;
        (eexists; split; [reflexivity|]; ds_simpl; repeat split; assumption). }
    destruct H2 as (d2 & Hd2 & HT2 & Hp2 & Ha2). clear Es2.
    remember (DS.set_CurrentToOriginal _ _) as s4 eqn:Es4.
    assert (H4 : exists d4, DS.data s4 = Some d4 /\ DS.Type_ s4 = T
                   /\ DS.PointData d4 = DS.PointData newData
                   /\ DS.ActiveScalars d4 = DS.ActiveScalars newData
                   /\ DS.tomviz_data_source_type (DS.FieldData d4) = Some (wrap_signed 8 T)
                   /\ DS.CurrentToOriginal s4 = DS.track_names (DS.names newData)).
    { rewrite Es4. clear Es4. ds_simpl. rewrite Hd2. ds_simpl.
      eexists. split; [reflexivity|]. ds_simpl. rewrite HT2.
      repeat split; try assumption.
      unfold DS.listScalars, DS.names. ds_simpl. rewrite ?Hd2. ds_simpl.
      rewrite ?Hp2. reflexivity. }
    destruct H4 as (d4 & Hd4 & HT4 & Hp4 & Ha4 & Htag4 & Hm4).
    destruct (dataModified_full fresh s4 d4 Hd4)
      as (s' & d' & E & Hd' & Hp & Ha & Hm & Hty & Htag).
    exists s', d'. split; [exact E|]. split; [exact Hd'|].
    split; [congruence|]. split; [congruence|].
    split.
    { intros n. rewrite Hm, Hm4. unfold DS.track_names.
      rewrite track_names_lookup, lookup_empty. reflexivity. }
    rewrite Htag4 in Hty. change (DS.Type_ s' = wrap_signed 8 T) in Hty.
    rewrite HT in Hty.
    split; [exact Hty|]. rewrite Htag, Hty, HT. reflexivity.
  - intros [d Hd]. unfold DS.copyData. rewrite Hd.
    destruct (dataModified_full fresh (DS.set_data s (Some newData)) newData eq_refl)
      as (s' & d' & E & Hd' & Hp & _ & Hm & _).
    exists s', d'. repeat split; assumption.
Qed.

(** ** Component names *)

Lemma pretty_N_go_nonempty (x : N) : forall s : string,
  s <> EmptyString -> pretty_N_go x s <> EmptyString.
Proof.
  induction (N.lt_wf_0 x) as [x _ IH]. intros s Hs.
  destruct (decide (x = 0)%N) as [->|Hx].
  - rewrite pretty_N_go_0. exact Hs.
  - rewrite pretty_N_go_step by lia. apply IH.
    + apply N.div_lt; lia.
    + discriminate.
Qed.

Lemma pretty_N_nonempty (x : N) : pretty x <> EmptyString.
Proof.
  unfold pretty, pretty_N. destruct (decide (x = 0)%N) as [|Hx]; [discriminate|].
  rewrite pretty_N_go_step by lia. apply pretty_N_go_nonempty. discriminate.
Qed.

Lemma append_empty_r (s : string) : (s +:+ EmptyString)%string = s.
Proof.
  induction s as [|a s IH]; [reflexivity|].
  change (String a (s +:+ EmptyString) = String a s). f_equal. exact IH.
Qed.

Lemma numbered_differs (name : string) (k : N) :
  (name +:+ pretty k)%string <> name /\ (name +:+ pretty k)%string <> EmptyString.
Proof.
  split.
  - intros E. rewrite <- (append_empty_r name) in E at 2.
    apply (inj (String.app name)) in E. exact (pretty_N_nonempty k E).
  - destruct name as [|a name]; cbn; [apply pretty_N_nonempty | discriminate].
Qed.

Lemma numbered_inj (name : string) (a b : N) :
  (name +:+ pretty a)%string = (name +:+ pretty b)%string -> a = b.
Proof. intros E. apply (inj (String.app name)) in E. exact (inj pretty _ _ E). Qed.

(** The [do ... while] ends: of the candidates tried so far those found
    approved are distinct members of the approved list, so there are never
    more of them than the list is long. *)
Lemma fresh_name_finds (name : string) (approvedNames : list string) :
  forall (fuel : nat) (counter : N) (tried : list string),
    NoDup tried ->
    (forall a, a ∈ tried -> a ∈ approvedNames) ->
    (forall a, a ∈ tried -> exists k : N, (k <= counter)%N /\ a = (name +:+ pretty k)%string) ->
    (length approvedNames < fuel + length tried)%nat ->
    exists k : N, DS.fresh_name fuel name approvedNames counter
              = Some (name +:+ pretty k)%string
              /\ (name +:+ pretty k)%string ∉ approvedNames.
Proof.
  induction fuel as [|fuel IH]; intros counter tried Hnd Hsub Hform Hlen.
  - exfalso. assert (length tried <= length approvedNames)%nat; [|lia].
    apply submseteq_length, NoDup_submseteq; assumption.
  - cbn [DS.fresh_name]. cbv zeta.
    destruct (bool_decide (name +:+ pretty (counter + 1)%N ∈ approvedNames)) eqn:Hin.
    + apply bool_decide_eq_true in Hin.
      apply (IH _ ((name +:+ pretty (counter + 1)%N)%string :: tried)).
      * constructor; [|exact Hnd]. intros Ht.
        destruct (Hform _ Ht) as (k & Hk & E). apply numbered_inj in E. lia.
      * intros a [->|Ha]%elem_of_cons; [exact Hin | exact (Hsub _ Ha)].
      * intros a [->|Ha]%elem_of_cons.
        -- exists (counter + 1)%N. split; [lia | reflexivity].
        -- destruct (Hform _ Ha) as (k & Hk & E). exists k. split; [lia | exact E].
      * cbn [length]. lia.
    + apply bool_decide_eq_false in Hin. exists (counter + 1)%N. split; [reflexivity | exact Hin].
Qed.

Lemma ensureValidComponentNames_from_spec (fuel : nat) :
  forall (names approvedNames : list string),
    NoDup approvedNames ->
    (length approvedNames + length names <= fuel)%nat ->
    exists l modified,
      DS.ensureValidComponentNames_from fuel names approvedNames = Some (l, modified)
      /\ length l = length names
      /\ NoDup (approvedNames ++ l)
      /\ (forall n, n ∈ l -> n <> EmptyString)
      /\ (modified = false <-> l = names)
      /\ (forall i n, names !! i = Some n -> n <> EmptyString ->
            n ∉ approvedNames ++ take i l -> l !! i = Some n).
Proof.
  induction names as [|name rest IH]; intros approvedNames Hnd Hlen.
  - exists [], false. cbn. rewrite app_nil_r.
    repeat split; try assumption; try reflexivity.
    + intros n Hn. inversion Hn.
    + intros i n Hi. rewrite lookup_nil in Hi. discriminate.
  - cbn [DS.ensureValidComponentNames_from]. cbn [length] in Hlen.
    destruct (String.eqb name EmptyString || bool_decide (name ∈ approvedNames)) eqn:Hbad.
    + destruct (fresh_name_finds name approvedNames fuel 0%N [])
        as (k & Ek & Hk).
      * constructor.
      * intros a Ha. inversion Ha.
      * intros a Ha. inversion Ha.
      * cbn [length]. lia.
      * rewrite Ek.
        destruct (IH (approvedNames ++ [(name +:+ pretty k)%string]))
          as (l & m & E & Hl & Hnd' & Hne & _ & Hkeep).
        { apply NoDup_app. split; [exact Hnd|]. split; [|apply NoDup_singleton].
          intros x Hx ->%list_elem_of_singleton. exact (Hk Hx). }
        { rewrite length_app. cbn [length]. lia. }
        rewrite E. exists ((name +:+ pretty k)%string :: l), true.
        split; [reflexivity|]. split; [cbn [length]; lia|].
        split; [rewrite <- app_assoc in Hnd'; exact Hnd'|].
        split.
        { intros n [->|Hn]%elem_of_cons; [apply numbered_differs | exact (Hne _ Hn)]. }
        split.
        { split; [discriminate|]. intros E'. injection E' as E' _.
          exfalso. exact (proj1 (numbered_differs name k) E'). }
        intros [|i] n Hi Hn Hnew; cbn in Hi.
        { injection Hi as ->. exfalso. rewrite take_0, app_nil_r in Hnew.
          apply orb_true_iff in Hbad. destruct Hbad as [Hb|Hb].
          - apply String.eqb_eq in Hb. exact (Hn Hb).
          - apply bool_decide_eq_true in Hb. exact (Hnew Hb). }
        cbn. apply Hkeep; [exact Hi | exact Hn |].
        cbn [take] in Hnew. rewrite <- app_assoc. exact Hnew.
    + apply orb_false_iff in Hbad. destruct Hbad as [Hb1 Hb2].
      apply String.eqb_neq in Hb1. apply bool_decide_eq_false in Hb2.
      destruct (IH (approvedNames ++ [name]))
        as (l & m & E & Hl & Hnd' & Hne & Hm & Hkeep).
      { apply NoDup_app. split; [exact Hnd|]. split; [|apply NoDup_singleton].
        intros x Hx ->%list_elem_of_singleton. exact (Hb2 Hx). }
      { rewrite length_app. cbn [length]. lia. }
      rewrite E. exists (name :: l), m.
      split; [reflexivity|]. split; [cbn [length]; lia|].
      split; [rewrite <- app_assoc in Hnd'; exact Hnd'|].
      split.
      { intros n [->|Hn]%elem_of_cons; [exact Hb1 | exact (Hne _ Hn)]. }
      split.
      { rewrite Hm. split; [intros ->; reflexivity | intros E'; injection E' as E'; exact E']. }
      intros [|i] n Hi Hn Hnew; cbn in Hi.
      { injection Hi as ->. reflexivity. }
      cbn. apply Hkeep; [exact Hi | exact Hn |].
      cbn [take] in Hnew. rewrite <- app_assoc. exact Hnew.
Qed.

(** X26. ensureValidComponentNames, on component names of the characters 1
    to 127 (an unset name being empty) and given at least as many rounds
    for each of its searches as there are components, ends and leaves as
    many names as before, all different and none empty.  It reports a
    change exactly when some name was replaced, and a name that is not
    empty and differs from every name left before it is kept in its
    place. *)
Theorem ensureValidComponentNames_distinct (fuel : nat) (names : list string) :
  forallb DS.ascii_only names = true ->
  (length names <= fuel)%nat ->
  exists l modified,
    DS.ensureValidComponentNames fuel names = Some (l, modified)
    /\ length l = length names
    /\ NoDup l
    /\ (forall n, n ∈ l -> n <> EmptyString)
    /\ (modified = false <-> l = names)
    /\ (forall i n, names !! i = Some n -> n <> EmptyString ->
          n ∉ take i l -> l !! i = Some n).
Proof.
  intros _ Hlen. unfold DS.ensureValidComponentNames.
  destruct (ensureValidComponentNames_from_spec fuel names [])
    as (l & m & E & H1 & H2 & H3 & H4 & H5).
  - constructor.
  - cbn [length]. lia.
  - exists l, m. repeat split; try assumption; apply H4.
Qed.

Lemma ensureValidComponentNames_distinct_witness :
  let names := [EmptyString; "a"; "a"; "a1"; EmptyString]%string in
  (length names <= 5)%nat
  /\ exists l modified,
       DS.ensureValidComponentNames 5 names = Some (l, modified)
       /\ length l = length names
       /\ NoDup l
       /\ (forall n, n ∈ l -> n <> EmptyString)
       /\ (modified = false <-> l = names)
       /\ (forall i n, names !! i = Some n -> n <> EmptyString ->
             n ∉ take i l -> l !! i = Some n).
Proof.
  cbv zeta. split; [cbn; lia|].
  apply (ensureValidComponentNames_distinct 5); [reflexivity|]. cbn. lia.
Defined.
